(** * Migration scripts of midcurve-finance: a shallow embedding

    Two one-shot rewriting scripts are modelled here:

    - [apps/midcurve-ui/scripts/fix-service-lazy-init.py]   (module [LazyInit])
    - [packages/midcurve-services/scripts/update-prisma-imports.py] (module [Prisma])

    Both read a file, push its text through a fixed sequence of [re.sub]
    calls and line edits, and write the text back when it changed.

    Text is a list of characters.  A character is a code point below 256
    ([ascii]); the classes [\w] and [\s] are those of Python's [re] for [str]
    patterns on that range.  The regular expressions of the scripts are kept
    as syntax trees and run by a backtracking matcher with Python's
    leftmost, greedy discipline. *)

From Stdlib Require Import String Ascii List Bool Arith Lia Sorted.
Import ListNotations.

(** ** Python strings *)

Module Py.

Definition text := list ascii.

Definition str (s : string) : text := list_ascii_of_string s.

Definition nl : ascii := "010"%char.
Definition dquote : ascii := "034"%char.
Definition squote : ascii := "039"%char.

Definition in_range (lo hi n : nat) : bool := (lo <=? n) && (n <=? hi).

(** [str.isspace], which is also [\s] of [re]. *)
Definition is_space (c : ascii) : bool :=
  let n := nat_of_ascii c in
  in_range 9 13 n || in_range 28 32 n || (n =? 133) || (n =? 160).

(** [\w] of [re]: alphanumeric code points and the underscore. *)
Definition is_word (c : ascii) : bool :=
  let n := nat_of_ascii c in
  in_range 48 57 n || in_range 65 90 n || (n =? 95) || in_range 97 122 n
  || (n =? 170) || in_range 178 179 n || (n =? 181) || in_range 185 186 n
  || in_range 188 190 n || in_range 192 214 n || in_range 216 246 n
  || in_range 248 255 n.

(** [a == b] on strings. *)
Fixpoint text_eqb (a b : text) : bool :=
  match a, b with
  | [], [] => true
  | x :: a', y :: b' => Ascii.eqb x y && text_eqb a' b'
  | _, _ => false
  end.

(** [s.startswith(w)]. *)
Fixpoint startswith (w s : text) : bool :=
  match w, s with
  | [], _ => true
  | x :: w', y :: s' => Ascii.eqb x y && startswith w' s'
  | _ :: _, [] => false
  end.

(** [w in s]. *)
Fixpoint contains (w s : text) : bool :=
  startswith w s ||
  match s with
  | [] => false
  | _ :: s' => contains w s'
  end.

(** [s.split(sep)] for a one-character separator. *)
Fixpoint split (sep : ascii) (s : text) : list text :=
  match s with
  | [] => [[]]
  | c :: s' =>
      if Ascii.eqb c sep then [] :: split sep s'
      else match split sep s' with
           | l :: ls => (c :: l) :: ls
           | [] => [[c]]
           end
  end.

(** [sep.join(l)]. *)
Fixpoint join (sep : text) (l : list text) : text :=
  match l with
  | [] => []
  | x :: l' =>
      match l' with
      | [] => x
      | _ :: _ => x ++ sep ++ join sep l'
      end
  end.

Fixpoint lstrip (s : text) : text :=
  match s with
  | c :: s' => if is_space c then lstrip s' else s
  | [] => []
  end.

Definition rstrip (s : text) : text := rev (lstrip (rev s)).

Definition strip (s : text) : text := rstrip (lstrip s).

(** [l.insert(i, x)] for [0 <= i]; past the end it appends, as Python does. *)
Definition insert {A : Type} (i : nat) (x : A) (l : list A) : list A :=
  firstn i l ++ x :: skipn i l.

(** [x in l]. *)
Definition mem (x : text) (l : list text) : bool := existsb (text_eqb x) l.

(** Order of [str]: lexicographic on code points. *)
Fixpoint text_ltb (a b : text) : bool :=
  match a, b with
  | _, [] => false
  | [], _ :: _ => true
  | x :: a', y :: b' =>
      (nat_of_ascii x <? nat_of_ascii y)
      || ((nat_of_ascii x =? nat_of_ascii y) && text_ltb a' b')
  end.

Fixpoint sorted_insert (x : text) (l : list text) : list text :=
  match l with
  | [] => [x]
  | y :: l' => if text_ltb y x then y :: sorted_insert x l' else x :: l
  end.

(** [sorted(l)]. *)
Definition sorted (l : list text) : list text :=
  fold_right sorted_insert [] l.

(** A [set] of strings, kept as a list without repetition; [s.add(x)]. *)
Definition set_add (x : text) (s : list text) : list text :=
  if mem x s then s else s ++ [x].

(** A [dict] from strings to strings, in insertion order; [d[k] = v] keeps
    the place of a key that is already there. *)
Definition dict := list (text * text).

Fixpoint dict_set (k v : text) (d : dict) : dict :=
  match d with
  | [] => [(k, v)]
  | (k', v') :: d' =>
      if text_eqb k k' then (k, v) :: d' else (k', v') :: dict_set k v d'
  end.

Fixpoint dict_get (k : text) (d : dict) : option text :=
  match d with
  | [] => None
  | (k', v) :: d' => if text_eqb k k' then Some v else dict_get k d'
  end.

End Py.

(** ** Regular expressions, as [re] runs them *)

Module Re.
Import Py.

(** The constructs the two scripts use.  Every quantifier in their patterns
    is applied to a single character or class, which is what [Star], [Plus]
    and [Opt] take. *)
Inductive regex : Type :=
| Eps
| Chr (c : ascii)
| Cls (p : ascii -> bool)
| Star (p : ascii -> bool)
| Plus (p : ascii -> bool)
| Opt (c : ascii)
| WordB
| Seq (r1 r2 : regex)
| Group (r : regex).

(** What a successful match gives: the captured groups, in order, and the
    text left after the match. *)
Definition result := (list text * text)%type.

(** A continuation takes the character before the current position (for
    [\b]), the remaining text, and the groups captured so far. *)
Definition kont := option ascii -> text -> list text -> option result.

Definition word_at (c : option ascii) : bool :=
  match c with
  | Some x => is_word x
  | None => false
  end.

(** Greedy repetition: take one more character if possible, and fall back to
    stopping here when the rest of the pattern fails after that. *)
Fixpoint star (p : ascii -> bool) (k : kont)
    (prev : option ascii) (s : text) (caps : list text) : option result :=
  match s with
  | c :: s' =>
      if p c then
        match star p k (Some c) s' caps with
        | Some r => Some r
        | None => k prev s caps
        end
      else k prev s caps
  | [] => k prev s caps
  end.

Fixpoint rmatch (r : regex) (k : kont)
    (prev : option ascii) (s : text) (caps : list text) : option result :=
  match r with
  | Eps => k prev s caps
  | Chr c =>
      match s with
      | x :: s' => if Ascii.eqb x c then k (Some x) s' caps else None
      | [] => None
      end
  | Cls p =>
      match s with
      | x :: s' => if p x then k (Some x) s' caps else None
      | [] => None
      end
  | Star p => star p k prev s caps
  | Plus p =>
      match s with
      | x :: s' => if p x then star p k (Some x) s' caps else None
      | [] => None
      end
  | Opt c =>
      match s with
      | x :: s' =>
          if Ascii.eqb x c then
            match k (Some x) s' caps with
            | Some r => Some r
            | None => k prev s caps
            end
          else k prev s caps
      | [] => k prev s caps
      end
  | WordB =>
      if xorb (word_at prev) (word_at (hd_error s)) then k prev s caps
      else None
  | Seq r1 r2 => rmatch r1 (rmatch r2 k) prev s caps
  | Group r =>
      rmatch r
        (fun prev' s' caps' =>
           k prev' s' (caps' ++ [firstn (length s - length s') s]))
        prev s caps
  end.

Definition accept : kont := fun _ s caps => Some (caps, s).

(** A match attempt anchored at the current position. *)
Definition match_at (r : regex) (prev : option ascii) (s : text)
  : option result :=
  rmatch r accept prev s [].

(** A literal string as a pattern. *)
Fixpoint lit (w : text) : regex :=
  match w with
  | [] => Eps
  | c :: w' => Seq (Chr c) (lit w')
  end.

Fixpoint seq (rs : list regex) : regex :=
  match rs with
  | [] => Eps
  | r :: rs' => Seq r (seq rs')
  end.

(** The left-to-right scan shared by [re.sub] and [re.finditer]: at each
    position either a match starts there (and the scan resumes after it) or
    the character is passed over.  [skip] counts the characters of the
    current match still to be stepped over.  No pattern of the scripts
    matches the empty string. *)
Inductive token : Type :=
| Keep (c : ascii)
| Hit (caps : list text) (matched : text).

Fixpoint scan (r : regex) (prev : option ascii) (s : text) (skip : nat)
  : list token :=
  match s with
  | [] => []
  | c :: s' =>
      match skip with
      | S n => scan r (Some c) s' n
      | O =>
          match match_at r prev s with
          | Some (caps, rest) =>
              let n := length s - length rest in
              Hit caps (firstn n s) :: scan r (Some c) s' (n - 1)
          | None => Keep c :: scan r (Some c) s' 0
          end
      end
  end.

(** [re.sub(r, repl, s)], the replacement given as a function of the
    groups. *)
Definition emit (repl : list text -> text) (t : token) : text :=
  match t with
  | Keep c => [c]
  | Hit caps _ => repl caps
  end.

Definition sub_from (r : regex) (repl : list text -> text)
    (prev : option ascii) (s : text) : text :=
  flat_map (emit repl) (scan r prev s 0).

Definition sub (r : regex) (repl : list text -> text) (s : text) : text :=
  sub_from r repl None s.

(** [re.finditer(r, s)]: the groups of each match, in order. *)
Fixpoint hits (ts : list token) : list (list text) :=
  match ts with
  | [] => []
  | Keep _ :: ts' => hits ts'
  | Hit caps _ :: ts' => caps :: hits ts'
  end.

Definition finditer (r : regex) (s : text) : list (list text) :=
  hits (scan r None s 0).

(** [match.group(i)] for [i >= 1]. *)
Definition group (i : nat) (caps : list text) : text := nth (i - 1) caps [].

End Re.

(** ** The host file system and the report on standard output *)

Module Host.
Import Py.

(** A path is its string; [Path.name] is the last component. *)
Definition path := text.

Definition name (p : path) : text := last (split "/" p) [].

(** The lines the scripts print for a file.  The summary lines of [main] are
    not part of the per-file function. *)
Inductive message : Type :=
| Skipping (file : text) (why : text)
| Processing (file : text)
| Services (vars : list text)
| Fixed
| NoChanges.

Record world : Type := World {
  files : path -> option text;
  stdout : list message
}.

(** [filepath.read_text()]: the content, or nothing when the read raises. *)
Definition read_text (p : path) (w : world) : option text := files w p.

(** [filepath.write_text(content)]. *)
Definition write_text (p : path) (content : text) (w : world) : world :=
  World (fun q => if text_eqb q p then Some content else files w q) (stdout w).

(** [print(...)]. *)
Definition print (m : message) (w : world) : world :=
  World (files w) (stdout w ++ [m]).

End Host.

(** ** A run of a script: what [main] prints, and how it ends *)

Module Run.
Import Py Host.

(** The lines of a run: the two summary lines of [main] and, between them,
    the lines [fix_file] prints.  [Found n what] is [f"Found {n} {what}\n"]
    and [FixedCount k n] is [f"\nFixed {k}/{n} files"]. *)
Inductive line : Type :=
| Found (n : nat) (what : text)
| PerFile (m : message)
| FixedCount (fixed_count total : nat).

(** The files and the standard output, during a run. *)
Record state : Type := State {
  tree : path -> option text;
  out : list line
}.

Definition say (l : line) (s : state) : state :=
  State (tree s) (out s ++ [l]).

(** How a run ends: normally, or with the exception of a failed
    [read_text], which nothing catches; [Raised] holds the state at that
    moment. *)
Inductive ended (A : Type) : Type :=
| Done (a : A) (s : state)
| Raised (s : state).

Arguments Done {A} a s.
Arguments Raised {A} s.

(** A call [fix_file(filepath)] within a run: it works on the files of the
    run, and what it prints goes to the output of the run. *)
Definition call (fix_file : path -> world -> option (bool * world))
    (filepath : path) (s : state) : option (bool * state) :=
  match fix_file filepath (World (tree s) []) with
  | None => None
  | Some (flag, w) =>
      Some (flag, State (files w) (out s ++ map PerFile (stdout w)))
  end.

(** The loop [for ts_file in dir.rglob('*.ts')] of both scripts:
    [ts_files] is what [rglob] yields, in its order, and [files] the list
    built so far; the content of each file is read, and the file is kept
    when its content passes the test.  Nothing when a read raises. *)
Fixpoint collect (trigger : text -> bool) (ts_files : list path)
    (files : list path) (s : state) : option (list path) :=
  match ts_files with
  | [] => Some files
  | ts_file :: rest =>
      match tree s ts_file with
      | None => None
      | Some content =>
          collect trigger rest
            (if trigger content then files ++ [ts_file] else files) s
      end
  end.

(** The loop [for filepath in files: if fix_file(filepath):
    fixed_count += 1] of both scripts. *)
Fixpoint fix_each (fix_file : path -> world -> option (bool * world))
    (files : list path) (fixed_count : nat) (s : state) : ended nat :=
  match files with
  | [] => Done fixed_count s
  | filepath :: rest =>
      match call fix_file filepath s with
      | None => Raised s
      | Some (flag, s') =>
          fix_each fix_file rest
            (if flag then S fixed_count else fixed_count) s'
      end
  end.

End Run.

(** ** fix-service-lazy-init.py *)

Module LazyInit.
Import Py Re Host.

(** Mapping from service class names to getter function names. *)
Definition SERVICE_GETTERS : dict :=
  [ (str "AuthUserService", str "getAuthUserService");
    (str "AuthNonceService", str "getAuthNonceService");
    (str "AuthApiKeyService", str "getAuthApiKeyService");
    (str "Erc20TokenService", str "getErc20TokenService");
    (str "UserTokenBalanceService", str "getUserTokenBalanceService");
    (str "UniswapV3PoolService", str "getUniswapV3PoolService");
    (str "UniswapV3PoolDiscoveryService", str "getUniswapV3PoolDiscoveryService");
    (str "UniswapV3PositionService", str "getUniswapV3PositionService");
    (str "UniswapV3PositionLedgerService", str "getUniswapV3PositionLedgerService");
    (str "PositionListService", str "getPositionListService");
    (str "PositionAprService", str "getPositionAprService") ].

(** The guard string of the script. *)
Definition lib_services : text := str "from '@/lib/services'".

(** [r'const\s+(\w+)\s*=\s*new\s+(\w+Service)\(\);?'] *)
Definition inst_pattern : regex :=
  seq [ lit (str "const"); Plus is_space; Group (Plus is_word);
        Star is_space; Chr "="; Star is_space; lit (str "new");
        Plus is_space; Group (Seq (Plus is_word) (lit (str "Service")));
        lit (str "()"); Opt ";" ].

(** Step 1, the body of the [finditer] loop: [var_to_service] and
    [used_getters] after one more match. *)
Definition record (st : dict * list text) (caps : list text)
  : dict * list text :=
  let var_name := group 1 caps in
  let service_class := group 2 caps in
  match dict_get service_class SERVICE_GETTERS with
  | Some getter =>
      (dict_set var_name service_class (fst st), set_add getter (snd st))
  | None => st
  end.

Definition extract (content : text) : dict * list text :=
  fold_left record (finditer inst_pattern content) ([], []).

(** [rf'\b{re.escape(var_name)}\.(\w+)']: the name is made of word
    characters, which [re.escape] leaves as they are. *)
Definition call_pattern (var_name : text) : regex :=
  seq [ WordB; lit var_name; Chr "."; Group (Plus is_word) ].

(** [rf'{getter}().\1'] *)
Definition call_repl (getter : text) (caps : list text) : text :=
  getter ++ str "()." ++ group 1 caps.

(** Step 2, the body of the loop over [var_to_service.items()].  The class
    of an item is a key of [SERVICE_GETTERS] by construction, so the lookup
    does not raise. *)
Definition rewrite_calls (content : text) (item : text * text) : text :=
  match dict_get (snd item) SERVICE_GETTERS with
  | Some getter => sub (call_pattern (fst item)) (call_repl getter) content
  | None => content
  end.

(** Step 3. *)
Definition remove_instantiations (content : text) : text :=
  sub inst_pattern (fun _ => []) content.

Definition not_rbrace (c : ascii) : bool := negb (Ascii.eqb c "}").

(** [r"import\s*\{([^}]+)\}\s*from\s*'@midcurve/services';"] *)
Definition import_pattern : regex :=
  seq [ lit (str "import"); Star is_space; Chr "{"; Group (Plus not_rbrace);
        Chr "}"; Star is_space; lit (str "from"); Star is_space;
        lit (str "'@midcurve/services';") ].

(** Step 4, the replacement function of the script. *)
Definition remove_services (services_to_remove : list text)
    (caps : list text) : text :=
  let imports := group 1 caps in
  let import_list := map strip (split "," imports) in
  let remaining :=
    filter (fun imp => negb (mem imp services_to_remove)) import_list in
  match remaining with
  | [] => []
  | _ :: _ =>
      str "import { " ++ join (str ", ") remaining
        ++ str " } from '@midcurve/services';"
  end.

Definition prune_imports (services_to_remove : list text) (content : text)
  : text :=
  sub import_pattern (remove_services services_to_remove) content.

(** Step 5: the loop [for i, line in enumerate(lines)] that leaves
    [insert_idx] one past the last line starting with ["import "]. *)
Fixpoint scan_imports (i : nat) (lines : list text) (insert_idx : nat) : nat :=
  match lines with
  | [] => insert_idx
  | line :: rest =>
      scan_imports (S i) rest
        (if startswith (str "import ") line then S i else insert_idx)
  end.

Definition insert_idx (lines : list text) : nat := scan_imports 0 lines 0.

Definition getter_import (used_getters : list text) : text :=
  str "import { " ++ join (str ", ") (sorted used_getters)
    ++ str " } from '@/lib/services';" ++ [nl].

Definition add_getter_import (used_getters : list text) (content : text)
  : text :=
  match used_getters with
  | [] => content
  | _ :: _ =>
      let lines := split nl content in
      join [nl]
        (insert (insert_idx lines) (rstrip (getter_import used_getters)) lines)
  end.

(** [r'\n\n\n+'] *)
Definition blank_pattern : regex :=
  seq [ Chr nl; Chr nl; Plus (Ascii.eqb nl) ].

(** Step 6. *)
Definition squeeze (content : text) : text :=
  sub blank_pattern (fun _ => [nl; nl]) content.

(** Steps 2 to 6 on a file in which [var_to_service] is not empty. *)
Definition steps (var_to_service : dict) (used_getters : list text)
    (content : text) : text :=
  let content := fold_left rewrite_calls var_to_service content in
  let content := remove_instantiations content in
  let services_to_remove := map snd var_to_service in
  let content := prune_imports services_to_remove content in
  let content := add_getter_import used_getters content in
  squeeze content.

(** The three ways [fix_file] goes, before it compares and writes. *)
Inductive outcome : Type :=
| AlreadyMigrated
| NoInstantiation
| Rewritten (var_to_service : dict) (content : text).

Definition rewrite (content : text) : outcome :=
  if contains lib_services content then AlreadyMigrated
  else
    let (var_to_service, used_getters) := extract content in
    match var_to_service with
    | [] => NoInstantiation
    | _ :: _ =>
        Rewritten var_to_service (steps var_to_service used_getters content)
    end.

(** The rewrite as a function from text to text: a skipped file keeps its
    text. *)
Definition fix_text (content : text) : text :=
  match rewrite content with
  | Rewritten _ content' => content'
  | _ => content
  end.

(** [fix_file(filepath)]: the flag it returns and the world it leaves;
    [None] when [read_text] raises. *)
Definition fix_file (filepath : path) (w : world) : option (bool * world) :=
  match read_text filepath w with
  | None => None
  | Some original =>
      match rewrite original with
      | AlreadyMigrated =>
          Some (false,
                print (Skipping (name filepath)
                         (str "already uses @/lib/services")) w)
      | NoInstantiation =>
          Some (false,
                print (Skipping (name filepath)
                         (str "no service instantiation found")) w)
      | Rewritten var_to_service content =>
          let w := print (Processing (name filepath)) w in
          let w := print (Services (map fst var_to_service)) w in
          if negb (text_eqb content original) then
            Some (true, print Fixed (write_text filepath content w))
          else Some (false, print NoChanges w)
      end
  end.

(** ['new' in content and 'Service()' in content] *)
Definition has_instantiation (content : text) : bool :=
  contains (str "new") content && contains (str "Service()") content.

(** [find_route_files()], on the paths that
    [Path('src/app/api').rglob('*.ts')] yields. *)
Definition find_route_files (ts_files : list path) (s : Run.state)
  : option (list path) :=
  Run.collect has_instantiation ts_files [] s.

(** [main()].  The paths are relative to the directory [os.chdir] moves
    to. *)
Definition main (ts_files : list path) (s : Run.state) : Run.ended unit :=
  match find_route_files ts_files s with
  | None => Run.Raised s
  | Some files =>
      let s :=
        Run.say (Run.Found (length files) (str "route files to check")) s in
      match Run.fix_each fix_file files 0 s with
      | Run.Raised s => Run.Raised s
      | Run.Done fixed_count s =>
          Run.Done tt (Run.say (Run.FixedCount fixed_count (length files)) s)
      end
  end.

End LazyInit.

(** ** update-prisma-imports.py *)

Module Prisma.
Import Py Re Host.

Definition quote (c : ascii) : bool :=
  Ascii.eqb c squote || Ascii.eqb c dquote.

(** The two guard strings. *)
Definition database_single : text := str "from '@midcurve/database'".
Definition database_double : text :=
  str "from " ++ [dquote] ++ str "@midcurve/database" ++ [dquote].

Definition guard (content : text) : bool :=
  contains database_single content || contains database_double content.

(** [r"from ['\"]@prisma/client['\"]"] *)
Definition from_pattern : regex :=
  seq [ lit (str "from "); Cls quote; lit (str "@prisma/client"); Cls quote ].

(** Pattern 1. *)
Definition replace_imports (content : text) : text :=
  sub from_pattern (fun _ => database_single) content.

Definition require_single : text := str "require('@prisma/client').PrismaClient".
Definition require_double : text :=
  str "require(" ++ [dquote] ++ str "@prisma/client" ++ [dquote]
    ++ str ").PrismaClient".

Definition has_require (content : text) : bool :=
  contains require_single content || contains require_double content.

Definition import_prisma : text := str "import { prisma".

Definition prisma_import_line : text :=
  str "import { prisma } from '@midcurve/database';".

(** The same loop as in the other script. *)
Fixpoint scan_imports (i : nat) (lines : list text) (insert_idx : nat) : nat :=
  match lines with
  | [] => insert_idx
  | line :: rest =>
      scan_imports (S i) rest
        (if startswith (str "import ") line then S i else insert_idx)
  end.

Definition insert_idx (lines : list text) : nat := scan_imports 0 lines 0.

Definition add_prisma_import (content : text) : text :=
  let lines := split nl content in
  join [nl] (insert (insert_idx lines) prisma_import_line lines).

(** [r"new \(require\(['\"]@prisma/client['\"]\)\.PrismaClient\)\(\) as PrismaClient"] *)
Definition require_pattern : regex :=
  seq [ lit (str "new (require("); Cls quote; lit (str "@prisma/client");
        Cls quote; lit (str ").PrismaClient)() as PrismaClient") ].

Definition replace_require (content : text) : text :=
  sub require_pattern (fun _ => str "prisma") content.

(** Pattern 2, the whole [if] block. *)
Definition require_step (content : text) : text :=
  if has_require content then
    let content :=
      if negb (contains import_prisma content) then add_prisma_import content
      else content in
    replace_require content
  else content.

(** [r'\n\n\n+'] *)
Definition blank_pattern : regex :=
  seq [ Chr nl; Chr nl; Plus (Ascii.eqb nl) ].

Definition squeeze (content : text) : text :=
  sub blank_pattern (fun _ => [nl; nl]) content.

Definition steps (content : text) : text :=
  squeeze (require_step (replace_imports content)).

Inductive outcome : Type :=
| AlreadyMigrated
| Rewritten (content : text).

Definition rewrite (content : text) : outcome :=
  if guard content then AlreadyMigrated else Rewritten (steps content).

(** The rewrite as a function from text to text. *)
Definition fix_text (content : text) : text :=
  match rewrite content with
  | Rewritten content' => content'
  | AlreadyMigrated => content
  end.

Definition fix_file (filepath : path) (w : world) : option (bool * world) :=
  match read_text filepath w with
  | None => None
  | Some original =>
      match rewrite original with
      | AlreadyMigrated =>
          Some (false,
                print (Skipping (name filepath)
                         (str "already uses @midcurve/database")) w)
      | Rewritten content =>
          let w := print (Processing filepath) w in
          if negb (text_eqb content original) then
            Some (true, print Fixed (write_text filepath content w))
          else Some (false, print NoChanges w)
      end
  end.

(** The module name [main] looks for. *)
Definition prisma_client : text := str "@prisma/client".

(** [main()], on the paths that [Path('src').rglob('*.ts')] yields.  The
    paths are relative to the directory [os.chdir] moves to. *)
Definition main (ts_files : list path) (s : Run.state) : Run.ended unit :=
  match Run.collect (contains prisma_client) ts_files [] s with
  | None => Run.Raised s
  | Some files =>
      let s := Run.say (Run.Found (length files) (str "files to update")) s in
      match Run.fix_each fix_file files 0 s with
      | Run.Raised s => Run.Raised s
      | Run.Done fixed_count s =>
          Run.Done tt (Run.say (Run.FixedCount fixed_count (length files)) s)
      end
  end.

End Prisma.

(** ** What a match is, for stating properties of the matcher *)

Module ReSpec.
Import Py Re.

(** The character before the position reached after reading [m]. *)
Fixpoint prev_after (prev : option ascii) (m : text) : option ascii :=
  match m with
  | [] => prev
  | c :: m' => prev_after (Some c) m'
  end.

(** [matches r prev m rest caps]: after [prev], the pattern can read [m]
    with [rest] following it, capturing [caps]. *)
Inductive matches : regex -> option ascii -> text -> text -> list text -> Prop :=
| M_eps prev rest : matches Eps prev [] rest []
| M_chr prev c rest : matches (Chr c) prev [c] rest []
| M_cls prev p c rest : p c = true -> matches (Cls p) prev [c] rest []
| M_star prev p m rest : forallb p m = true -> matches (Star p) prev m rest []
| M_plus prev p c m rest :
    p c = true -> forallb p m = true -> matches (Plus p) prev (c :: m) rest []
| M_opt_some prev c rest : matches (Opt c) prev [c] rest []
| M_opt_none prev c rest : matches (Opt c) prev [] rest []
| M_wordb prev rest :
    xorb (word_at prev) (word_at (hd_error rest)) = true ->
    matches WordB prev [] rest []
| M_seq prev r1 r2 m1 m2 rest c1 c2 :
    matches r1 prev m1 (m2 ++ rest) c1 ->
    matches r2 (prev_after prev m1) m2 rest c2 ->
    matches (Seq r1 r2) prev (m1 ++ m2) rest (c1 ++ c2)
| M_group prev r m rest c :
    matches r prev m rest c -> matches (Group r) prev m rest (c ++ [m]).

(** A pattern that reads at least one character whenever it matches. *)
Fixpoint consumes (r : regex) : bool :=
  match r with
  | Chr _ | Cls _ | Plus _ => true
  | Seq r1 r2 => consumes r1 || consumes r2
  | Group r => consumes r
  | _ => false
  end.

(** Patterns of fixed shape: a sequence of single characters and classes,
    read as the list of its character tests. *)
Fixpoint flatten (r : regex) : option (list (ascii -> bool)) :=
  match r with
  | Eps => Some []
  | Chr c => Some [fun x => Ascii.eqb x c]
  | Cls p => Some [p]
  | Seq r1 r2 =>
      match flatten r1, flatten r2 with
      | Some p1, Some p2 => Some (p1 ++ p2)
      | _, _ => None
      end
  | _ => None
  end.

(** [fits ps s]: the first characters of [s] pass the tests [ps], all of
    them. *)
Fixpoint fits (ps : list (ascii -> bool)) (s : text) : bool :=
  match ps, s with
  | [], _ => true
  | p :: ps', c :: s' => p c && fits ps' s'
  | _ :: _, [] => false
  end.

(** [compat ps s]: [s] passes the tests as far as both go. *)
Fixpoint compat (ps : list (ascii -> bool)) (s : text) : bool :=
  match ps, s with
  | p :: ps', c :: s' => p c && compat ps' s'
  | _, _ => true
  end.

Fixpoint suffixes (s : text) : list text :=
  match s with
  | [] => []
  | _ :: s' => s :: suffixes s'
  end.

(** No match that begins before [w] can run into [w]. *)
Definition no_cross (ps : list (ascii -> bool)) (w : text) : bool :=
  forallb (fun k => negb (compat (skipn k ps) w)) (List.seq 1 (length ps - 1)).

(** No match can begin inside [w], whatever follows [w]. *)
Definition no_start (ps : list (ascii -> bool)) (w : text) : bool :=
  forallb (fun x => negb (compat ps x)) (suffixes w).

(** The longest prefix of characters in a class, and what follows it. *)
Fixpoint takewhile (p : ascii -> bool) (s : text) : text :=
  match s with
  | c :: s' => if p c then c :: takewhile p s' else []
  | [] => []
  end.

Fixpoint dropwhile (p : ascii -> bool) (s : text) : text :=
  match s with
  | c :: s' => if p c then dropwhile p s' else s
  | [] => []
  end.

Definition is_nl : ascii -> bool := Ascii.eqb nl.

(** A text without a newline character. *)
Definition newline_free (w : text) : bool :=
  forallb (fun c => negb (is_nl c)) w.

(** Character tests none of which lets a newline through. *)
Definition rejects_nl (ps : list (ascii -> bool)) : bool :=
  forallb (fun p => negb (p nl)) ps.

(** Three newline characters in a row. *)
Definition triple : text := [nl; nl; nl].

(** Whether a text ends, or begins, with a newline character. *)
Definition ends_with_nl (a : text) : bool := is_nl (last a " "%char).

Definition starts_with_nl (b : text) : bool :=
  match b with
  | c :: _ => is_nl c
  | [] => false
  end.

(** The character tests of a pattern of fixed shape. *)
Definition tests_of (r : regex) : list (ascii -> bool) :=
  match flatten r with
  | Some ps => ps
  | None => []
  end.

(** Some match of the tests begins somewhere in [s]. *)
Definition occurs (ps : list (ascii -> bool)) (s : text) : bool :=
  existsb (fits ps) (suffixes s).

(** [local r prev a t]: with [t] appended, a match attempt that begins inside
    [a] finds what it finds in [a] alone. *)
Definition local (r : regex) (prev : option ascii) (a t : text) : Prop :=
  forall a1 x, a = a1 ++ x -> x <> [] ->
    match_at r (prev_after prev a1) (x ++ t) =
    match match_at r (prev_after prev a1) x with
    | Some (caps, rest) => Some (caps, rest ++ t)
    | None => None
    end.

(** A pattern without [\b]: it does not look at the character before the
    position where it is tried. *)
Fixpoint blind (r : regex) : bool :=
  match r with
  | WordB => false
  | Seq r1 r2 => blind r1 && blind r2
  | Group r' => blind r'
  | _ => true
  end.

(** The text a pattern reads, when it can read only one. *)
Fixpoint exact (r : regex) : option text :=
  match r with
  | Eps | WordB => Some []
  | Chr c => Some [c]
  | Seq r1 r2 =>
      match exact r1, exact r2 with
      | Some a, Some b => Some (a ++ b)
      | _, _ => None
      end
  | Group r' => exact r'
  | _ => None
  end.

(** A text with which every match of a pattern begins, and one with which
    every match ends. *)
Fixpoint head_of (r : regex) : text :=
  match r with
  | Chr c => [c]
  | Seq r1 r2 =>
      match exact r1 with
      | Some a => a ++ head_of r2
      | None => head_of r1
      end
  | Group r' => head_of r'
  | _ => []
  end.

Fixpoint tail_of (r : regex) : text :=
  match r with
  | Chr c => [c]
  | Seq r1 r2 =>
      match exact r2 with
      | Some b => tail_of r1 ++ b
      | None => tail_of r2
      end
  | Group r' => tail_of r'
  | _ => []
  end.

(** [needs w r]: the shape of [r] shows that every match of it has [w] in
    it. *)
Fixpoint needs (w : text) (r : regex) : bool :=
  match r with
  | Chr c => contains w [c]
  | Seq r1 r2 =>
      needs w r1 || needs w r2 || contains w (tail_of r1 ++ head_of r2)
  | Group r' => needs w r'
  | _ => false
  end.

(** No match attempt succeeds anywhere in [s]. *)
Definition matchless (r : regex) (prev : option ascii) (s : text) : Prop :=
  forall a1 x, s = a1 ++ x -> x <> [] ->
    match_at r (prev_after prev a1) x = None.

End ReSpec.

(** ** Shapes of text the properties speak about *)

Module Shapes.
Import Py Re ReSpec.

(** An import-from clause naming the Prisma client, with its two quote
    characters. *)
Definition from_clause (q1 q2 : ascii) : text :=
  str "from " ++ [q1] ++ str "@prisma/client" ++ [q2].

(** The construct-by-require expression, with its two quote characters. *)
Definition require_expr (q1 q2 : ascii) : text :=
  str "new (require(" ++ [q1] ++ str "@prisma/client" ++ [q2]
    ++ str ").PrismaClient)() as PrismaClient".

(** The lengths of the maximal runs of empty lines in a list of lines. *)
Fixpoint blank_runs_from (run : nat) (lines : list text) : list nat :=
  match lines with
  | [] => if run =? 0 then [] else [run]
  | [] :: rest => blank_runs_from (S run) rest
  | (_ :: _) :: rest =>
      (if run =? 0 then [] else [run]) ++ blank_runs_from 0 rest
  end.

Definition blank_runs (content : text) : list nat :=
  blank_runs_from 0 (split nl content).

(** [a < b] on strings, as a proposition. *)
Definition text_lt (a b : text) : Prop := text_ltb a b = true.

(** A match of the instantiation pattern whose class is a key of the
    mapping. *)
Definition mapped (caps : list text) : bool :=
  match dict_get (group 2 caps) LazyInit.SERVICE_GETTERS with
  | Some _ => true
  | None => false
  end.

(** [last_mapped ms name cls]: among the matches [ms], the last one that
    declares [name] with a class of the mapping declares it with [cls]. *)
Definition last_mapped (ms : list (list text)) (name cls : text) : Prop :=
  exists l1 caps l2,
    ms = l1 ++ caps :: l2 /\
    group 1 caps = name /\ group 2 caps = cls /\ mapped caps = true /\
    forall caps', In caps' l2 -> group 1 caps' = name -> mapped caps' = false.

(** The import statement step 5 builds. *)
Definition getter_statement (used_getters : list text) : text :=
  str "import { " ++ join (str ", ") (sorted used_getters)
    ++ str " } from '@/lib/services';".

(** The text step 5 works on. *)
Definition pruned (var_to_service : dict) (content : text) : text :=
  LazyInit.prune_imports (map snd var_to_service)
    (LazyInit.remove_instantiations
       (fold_left LazyInit.rewrite_calls var_to_service content)).

(** No instantiation statement of the text has a class of the mapping. *)
Definition no_mapped (content : text) : bool :=
  forallb (fun caps => negb (mapped caps))
    (finditer LazyInit.inst_pattern content).

(** An entry of an import list: no comma and no closing brace in it. *)
Definition list_entry (e : text) : bool :=
  forallb (fun c => negb (Ascii.eqb c ",") && LazyInit.not_rbrace c) e.

(** An import statement from the legacy services module, with the list
    [body] between its braces and the white space it is written with. *)
Definition legacy_import (ws1 body ws2 ws3 : text) : text :=
  str "import" ++ ws1 ++ str "{" ++ body ++ str "}" ++ ws2
    ++ str "from" ++ ws3 ++ str "'@midcurve/services';".

(** The statement listing the names that remain; nothing when none does. *)
Definition legacy_statement (remaining : list text) : text :=
  match remaining with
  | [] => []
  | _ :: _ =>
      str "import { " ++ join (str ", ") remaining
        ++ str " } from '@midcurve/services';"
  end.

(** An instantiation statement, with the white space it is written with;
    the class is [stem] followed by [Service]. *)
Definition instantiation (ws1 name ws2 ws3 ws4 stem : text) : text :=
  str "const" ++ ws1 ++ name ++ ws2 ++ str "=" ++ ws3 ++ str "new" ++ ws4
    ++ stem ++ str "Service" ++ str "();".

(** White space, at least one character. *)
Definition is_gap (ws : text) : bool :=
  match ws with
  | [] => false
  | _ :: _ => forallb is_space ws
  end.

(** Paths that are pairwise different. *)
Fixpoint distinct (l : list text) : bool :=
  match l with
  | [] => true
  | x :: l' => negb (mem x l') && distinct l'
  end.

(** Whether a rewrite changes the content of a file that can be read. *)
Definition changes (fix_text : text -> text) (content : option text) : bool :=
  match content with
  | Some c => negb (text_eqb (fix_text c) c)
  | None => false
  end.

(** A path whose file can be read, and one whose content passes a test. *)
Definition readable (s : Run.state) (p : text) : bool :=
  match Run.tree s p with
  | Some _ => true
  | None => false
  end.

Definition passes (trigger : text -> bool) (s : Run.state) (p : text)
  : bool :=
  match Run.tree s p with
  | Some content => trigger content
  | None => false
  end.

(** The lines [fix_file] prints, as lines of a run. *)
Definition per_file (l : Run.line) : bool :=
  match l with
  | Run.PerFile _ => true
  | _ => false
  end.

(** An identifier: word characters, at least one. *)
Definition is_name (v : text) : bool :=
  match v with
  | [] => false
  | _ :: _ => forallb is_word v
  end.






End Shapes.

(** ** Sample inputs *)

Module Inputs.
Import Py Shapes.

(** Example 3 of the specification. *)
Definition example3 : text :=
  str "import { PrismaClient } from '@prisma/client';".

Definition example3_out : text :=
  str "import { PrismaClient } from '@midcurve/database';".

(** Example 4 of the specification, after one import line. *)
Definition example4 : text :=
  str "import { Foo } from './foo';" ++ [nl]
  ++ str "const client = new (require('@prisma/client').PrismaClient)() as PrismaClient;"
  ++ [nl].

Definition example4_out : text :=
  str "import { Foo } from './foo';" ++ [nl]
  ++ str "import { prisma } from '@midcurve/database';" ++ [nl]
  ++ str "const client = prisma;" ++ [nl].

(** A file that imports something whose name begins with [prisma]. *)
Definition mock_input : text :=
  str "import { prismaMock } from './mock';" ++ [nl]
  ++ str "const client = new (require('@prisma/client').PrismaClient)() as PrismaClient;"
  ++ [nl].

Definition mock_output : text :=
  str "import { prismaMock } from './mock';" ++ [nl]
  ++ str "const client = prisma;" ++ [nl].



(** Example 1 of the specification. *)
Definition example1 : text :=
  str "import { AuthUserService } from '@midcurve/services';" ++ [nl]
  ++ str "const authService = new AuthUserService();" ++ [nl]
  ++ str "authService.login();".

Definition example1_out : text :=
  str "import { getAuthUserService } from '@/lib/services';" ++ [nl]
  ++ [nl]
  ++ str "getAuthUserService().login();".

(** A class of the mapping and a class outside it, both instantiated. *)
Definition unmapped_input : text :=
  str "const auth = new AuthUserService();" ++ [nl]
  ++ str "const foo = new FooService();" ++ [nl]
  ++ str "auth.check();" ++ [nl]
  ++ str "foo.run();" ++ [nl].

Definition unmapped_output : text :=
  str "import { getAuthUserService } from '@/lib/services';" ++ [nl]
  ++ [nl]
  ++ str "getAuthUserService().check();" ++ [nl]
  ++ str "foo.run();" ++ [nl].

(** Only a class outside the mapping instantiated. *)
Definition unmapped_only : text :=
  str "const foo = new FooService();" ++ [nl]
  ++ str "foo.run();" ++ [nl].

(** A legacy import written over several lines, with the usual comma after
    the last name. *)
Definition trailing_comma_import : text :=
  str "import {" ++ [nl]
  ++ str "  AuthUserService," ++ [nl]
  ++ str "  AuthNonceService," ++ [nl]
  ++ str "} from '@midcurve/services';".

Definition trailing_comma_input : text :=
  trailing_comma_import ++ [nl]
  ++ str "const auth = new AuthUserService();" ++ [nl]
  ++ str "const nonce = new AuthNonceService();" ++ [nl]
  ++ str "auth.check();" ++ [nl]
  ++ str "nonce.make();" ++ [nl].

Definition trailing_comma_output : text :=
  str "import {  } from '@midcurve/services';" ++ [nl]
  ++ str "import { getAuthNonceService, getAuthUserService } from '@/lib/services';"
  ++ [nl] ++ [nl]
  ++ str "getAuthUserService().check();" ++ [nl]
  ++ str "getAuthNonceService().make();" ++ [nl].

(** A legacy import of a recorded class among other names. *)
Definition mixed_import : text :=
  str "import { AuthUserService, normalizeAddress, type Position } from '@midcurve/services';".

Definition mixed_import_out : text :=
  str "import { normalizeAddress, type Position } from '@midcurve/services';".

(** The same local name declared twice, with two classes of the mapping. *)
Definition shadow_input : text :=
  str "const svc = new AuthUserService();" ++ [nl]
  ++ str "svc.check();" ++ [nl]
  ++ str "const svc = new AuthNonceService();" ++ [nl]
  ++ str "svc.make();" ++ [nl].


(** A file system with one route file, and its path. *)
Definition route_path : Host.path := str "src/app/api/route.ts".

Definition route_world : Host.world :=
  Host.World
    (fun q => if text_eqb q route_path then Some example1 else None) [].

(** Three empty lines, then a line. *)
Definition three_blank_lines : text := [nl; nl; nl] ++ str "x".

(** A tree of route files: one to rewrite, one whose only class is not in
    the mapping, one without an instantiation; and what [rglob] yields. *)
Definition foo_path : Host.path := str "src/app/api/foo/route.ts".
Definition util_path : Host.path := str "src/app/api/util.ts".

Definition api_tree : Run.state :=
  Run.State
    (fun q =>
       if text_eqb q route_path then Some example1
       else if text_eqb q foo_path then Some unmapped_only
       else if text_eqb q util_path then Some (str "export const x = 1;")
       else None)
    [].

Definition api_listing : list Host.path := [route_path; foo_path; util_path].

(** A listing with a path that cannot be read. *)
Definition broken_listing : list Host.path :=
  [route_path; str "src/app/api/gone.ts"; util_path].

(** A tree of service files: one with an import of the client, one
    without the module name but with three empty lines. *)
Definition client_path : Host.path := str "src/client.ts".
Definition plain_path : Host.path := str "src/plain.ts".

Definition services_tree : Run.state :=
  Run.State
    (fun q =>
       if text_eqb q client_path then Some (example3 ++ [nl])
       else if text_eqb q plain_path then Some (str "a" ++ [nl; nl; nl] ++ str "b")
       else None)
    [].

Definition services_listing : list Host.path := [client_path; plain_path].

End Inputs.

(** * Facts about the string operations *)

Module PyFacts.
Import Py.

Lemma text_eqb_eq (a b : text) : text_eqb a b = true <-> a = b.
Proof.
  revert b; induction a as [|x a IH]; intros [|y b]; simpl;
    try (split; [discriminate | discriminate]); try tauto.
  rewrite andb_true_iff, Ascii.eqb_eq, IH.
  split; [intros [-> ->]; reflexivity | intros H; inversion H; auto].
Qed.

Lemma text_eqb_refl (a : text) : text_eqb a a = true.
Proof. apply text_eqb_eq; reflexivity. Qed.

Lemma text_eqb_neq (a b : text) : text_eqb a b = false <-> a <> b.
Proof.
  rewrite <- text_eqb_eq. destruct (text_eqb a b); split; congruence.
Qed.

Lemma startswith_iff (w s : text) :
  startswith w s = true <-> exists t, s = w ++ t.
Proof.
  revert s; induction w as [|x w IH]; intros s; simpl.
  - split; [intros _; exists s; reflexivity | reflexivity].
  - destruct s as [|y s].
    + split; [discriminate | intros [t H]; discriminate].
    + rewrite andb_true_iff, Ascii.eqb_eq, IH. split.
      * intros [-> [t ->]]. exists t; reflexivity.
      * intros [t H]. inversion H; subst. split; [reflexivity | eauto].
Qed.

Lemma startswith_cons (x c : ascii) (w s : text) :
  startswith (x :: w) (c :: s) = Ascii.eqb x c && startswith w s.
Proof. reflexivity. Qed.

Lemma startswith_app (w t : text) : startswith w (w ++ t) = true.
Proof. apply startswith_iff; eauto. Qed.

Lemma startswith_nil (w : text) : startswith w [] = true -> w = [].
Proof. destruct w; [reflexivity | discriminate]. Qed.


Lemma contains_iff (w s : text) :
  contains w s = true <-> exists a b, s = a ++ w ++ b.
Proof.
  induction s as [|c s IH]; simpl.
  - rewrite orb_false_r. split.
    + intros H. apply startswith_nil in H. subst. exists [], []. reflexivity.
    + intros (a & b & H). destruct a; [|discriminate].
      destruct w; [reflexivity | discriminate].
  - rewrite orb_true_iff, IH, startswith_iff. split.
    + intros [[t H] | (a & b & ->)].
      * exists [], t. exact H.
      * exists (c :: a), b. reflexivity.
    + intros (a & b & H). destruct a as [|x a]; simpl in H.
      * left. eauto.
      * right. inversion H. eauto.
Qed.

Lemma contains_mid (w a b : text) : contains w (a ++ w ++ b) = true.
Proof. apply contains_iff; eauto. Qed.

Lemma contains_app_l (w a b : text) :
  contains w a = true -> contains w (a ++ b) = true.
Proof.
  rewrite !contains_iff. intros (x & y & ->). exists x, (y ++ b).
  rewrite <- !app_assoc. reflexivity.
Qed.

Lemma contains_app_r (w a b : text) :
  contains w b = true -> contains w (a ++ b) = true.
Proof.
  rewrite !contains_iff. intros (x & y & ->). exists (a ++ x), y.
  rewrite <- !app_assoc. reflexivity.
Qed.

(** ** Lines *)

Lemma split_nonempty (sep : ascii) (s : text) : split sep s <> [].
Proof.
  induction s as [|c s IH]; simpl; [discriminate|].
  destruct (Ascii.eqb c sep); [discriminate|].
  destruct (split sep s); [contradiction | discriminate].
Qed.

Lemma join_cons (sep x : text) (l : list text) :
  l <> [] -> join sep (x :: l) = x ++ sep ++ join sep l.
Proof. destruct l; [contradiction | reflexivity]. Qed.

Lemma join_split (sep : ascii) (s : text) : join [sep] (split sep s) = s.
Proof.
  induction s as [|c s IH]; [reflexivity|]. simpl split.
  destruct (Ascii.eqb_spec c sep) as [->|Hn].
  - rewrite join_cons by apply split_nonempty. rewrite IH. reflexivity.
  - pose proof (split_nonempty sep s) as Hs.
    destruct (split sep s) as [|l ls]; [contradiction|].
    destruct ls as [|l' ls].
    + simpl in *. congruence.
    + rewrite join_cons in IH by discriminate.
      rewrite join_cons by discriminate. rewrite <- IH. reflexivity.
Qed.

Lemma split_free (sep : ascii) (e : text) :
  forallb (fun c => negb (Ascii.eqb c sep)) e = true -> split sep e = [e].
Proof.
  induction e as [|c e IH]; [reflexivity|]. cbn [forallb split]. intros H.
  apply andb_prop in H. destruct H as [Hc He].
  destruct (Ascii.eqb c sep); [discriminate|]. rewrite IH by exact He.
  reflexivity.
Qed.

Lemma split_app_sep (sep : ascii) (e rest : text) :
  forallb (fun c => negb (Ascii.eqb c sep)) e = true ->
  split sep (e ++ sep :: rest) = e :: split sep rest.
Proof.
  induction e as [|c e IH]; cbn [forallb split app]; intros H.
  - rewrite Ascii.eqb_refl. reflexivity.
  - apply andb_prop in H. destruct H as [Hc He].
    destruct (Ascii.eqb c sep); [discriminate|]. rewrite IH by exact He.
    reflexivity.
Qed.

(** Splitting what was joined gives the entries back, when the separator
    is in none of them. *)
Lemma split_join (sep : ascii) (e : text) (entries : list text) :
  forallb (forallb (fun c => negb (Ascii.eqb c sep))) (e :: entries) = true ->
  split sep (join [sep] (e :: entries)) = e :: entries.
Proof.
  revert e. induction entries as [|e' l IH]; intros e H.
  - cbn [forallb] in H. apply andb_prop in H. destruct H as [He _].
    apply split_free. exact He.
  - cbn [forallb] in H. apply andb_prop in H. destruct H as [He Hl].
    rewrite join_cons by discriminate. cbn [app].
    rewrite split_app_sep by exact He. rewrite IH; [reflexivity|].
    exact Hl.
Qed.

Lemma forallb_join (p : ascii -> bool) (sep : text) (l : list text) :
  forallb p sep = true -> forallb (forallb p) l = true ->
  forallb p (join sep l) = true.
Proof.
  intros Hs. induction l as [|x l IH]; [reflexivity|]. intros H.
  cbn [forallb] in H. apply andb_prop in H. destruct H as [Hx Hl].
  destruct l as [|y l]; [exact Hx|]. rewrite join_cons by discriminate.
  rewrite !forallb_app, Hx, Hs, (IH Hl). reflexivity.
Qed.

(** A line of a list of lines occurs in their join. *)
Lemma contains_join (w : text) (sep : text) (l : list text) (x : text) :
  In x l -> contains w x = true -> contains w (join sep l) = true.
Proof.
  induction l as [|y l IH]; [contradiction|]. intros [->|Hin] Hw.
  - destruct l; [exact Hw|]. rewrite join_cons by discriminate.
    apply contains_app_l; exact Hw.
  - destruct l; [contradiction|]. rewrite join_cons by discriminate.
    apply contains_app_r, contains_app_r. auto.
Qed.

Lemma firstn_length_app (A : Type) (m r : list A) :
  firstn (length m) (m ++ r) = m.
Proof. induction m; simpl; congruence. Qed.

Lemma skipn_length_app (A : Type) (m r : list A) :
  skipn (length m) (m ++ r) = r.
Proof. induction m; simpl; congruence. Qed.

Lemma insert_In (A : Type) (i : nat) (x : A) (l : list A) :
  In x (insert i x l).
Proof. unfold insert. apply in_or_app. right. left. reflexivity. Qed.

Lemma insert_length (A : Type) (i : nat) (x : A) (l : list A) :
  length (insert i x l) = S (length l).
Proof.
  unfold insert. rewrite length_app. simpl.
  rewrite <- (firstn_skipn i l) at 3. rewrite length_app. lia.
Qed.

End PyFacts.

(** * Facts about the matcher *)

Module ReFacts.
Import Py Re ReSpec PyFacts.

Lemma prev_after_app (prev : option ascii) (a b : text) :
  prev_after prev (a ++ b) = prev_after (prev_after prev a) b.
Proof. revert prev; induction a; intros; simpl; auto. Qed.

(** ** Soundness of the matcher with respect to [matches] *)

Lemma star_sound (p : ascii -> bool) (k : kont) :
  forall s prev caps res,
    star p k prev s caps = Some res ->
    exists m rest,
      s = m ++ rest /\ forallb p m = true /\
      k (prev_after prev m) rest caps = Some res.
Proof.
  induction s as [|c s IH]; intros prev caps res H; simpl in H.
  - exists [], []. auto.
  - destruct (p c) eqn:Hp.
    + destruct (star p k (Some c) s caps) eqn:Hs.
      * injection H as <-. destruct (IH _ _ _ Hs) as (m & rest & -> & Hm & Hk).
        exists (c :: m), rest. simpl. rewrite Hp, Hm. auto.
      * exists [], (c :: s). auto.
    + exists [], (c :: s). auto.
Qed.

Lemma rmatch_sound (r : regex) :
  forall k prev s caps res,
    rmatch r k prev s caps = Some res ->
    exists m rest c,
      s = m ++ rest /\ matches r prev m rest c /\
      k (prev_after prev m) rest (caps ++ c) = Some res.
Proof.
  induction r as [ | c | p | p | p | c | | r1 IH1 r2 IH2 | r IH];
    intros k prev s caps res H; simpl in H.
  - exists [], s, []. rewrite (app_nil_r caps). repeat split; [constructor | exact H].
  - destruct s as [|x s]; [discriminate|].
    destruct (Ascii.eqb_spec x c) as [->|]; [|discriminate].
    exists [c], s, []. rewrite (app_nil_r caps). repeat split; [constructor | exact H].
  - destruct s as [|x s]; [discriminate|].
    destruct (p x) eqn:Hp; [|discriminate].
    exists [x], s, []. rewrite (app_nil_r caps).
    repeat split; [constructor; exact Hp | exact H].
  - destruct (star_sound _ _ _ _ _ _ H) as (m & rest & -> & Hm & Hk).
    exists m, rest, []. rewrite (app_nil_r caps).
    repeat split; [constructor; exact Hm | exact Hk].
  - destruct s as [|x s]; [discriminate|].
    destruct (p x) eqn:Hp; [|discriminate].
    destruct (star_sound _ _ _ _ _ _ H) as (m & rest & -> & Hm & Hk).
    exists (x :: m), rest, []. rewrite (app_nil_r caps).
    repeat split; [constructor; assumption | exact Hk].
  - destruct s as [|x s].
    + exists [], [], []. rewrite (app_nil_r caps).
      repeat split; [constructor | exact H].
    + destruct (Ascii.eqb_spec x c) as [->|].
      * destruct (k (Some c) s caps) eqn:Hk.
        -- injection H as <-. exists [c], s, []. rewrite (app_nil_r caps).
           repeat split; [constructor | exact Hk].
        -- exists [], (c :: s), []. rewrite (app_nil_r caps).
           repeat split; [constructor | exact H].
      * exists [], (x :: s), []. rewrite (app_nil_r caps).
        repeat split; [constructor | exact H].
  - destruct (xorb (word_at prev) (word_at (hd_error s))) eqn:Hb; [|discriminate].
    exists [], s, []. rewrite (app_nil_r caps).
    repeat split; [constructor; exact Hb | exact H].
  - destruct (IH1 _ _ _ _ _ H) as (m1 & rest1 & c1 & -> & Hm1 & H1).
    destruct (IH2 _ _ _ _ _ H1) as (m2 & rest & c2 & -> & Hm2 & H2).
    exists (m1 ++ m2), rest, (c1 ++ c2).
    rewrite prev_after_app, (app_assoc caps).
    split; [apply app_assoc|].
    split; [constructor; assumption | exact H2].
  - destruct (IH _ _ _ _ _ H) as (m & rest & c & -> & Hm & Hk).
    exists m, rest, (c ++ [m]).
    replace (length (m ++ rest) - length rest) with (length m) in Hk
      by (rewrite length_app; lia).
    rewrite firstn_length_app in Hk.
    rewrite app_assoc.
    repeat split; [constructor; exact Hm | exact Hk].
Qed.

Lemma match_at_sound (r : regex) (prev : option ascii) (s : text)
    (caps : list text) (rest : text) :
  match_at r prev s = Some (caps, rest) ->
  exists m, s = m ++ rest /\ matches r prev m rest caps.
Proof.
  intros H. destruct (rmatch_sound _ _ _ _ _ _ H) as (m & rest' & c & -> & Hm & Hk).
  unfold accept in Hk. simpl in Hk. injection Hk as <- <-. eauto.
Qed.

Lemma matches_consumes (r : regex) prev m rest caps :
  matches r prev m rest caps -> consumes r = true -> m <> [].
Proof.
  induction 1; simpl; try discriminate; intros Hc.
  - apply orb_true_iff in Hc. destruct Hc as [Hc|Hc].
    + specialize (IHmatches1 Hc). destruct m1; [contradiction | discriminate].
    + specialize (IHmatches2 Hc). destruct m2; [contradiction|].
      destruct m1; discriminate.
  - auto.
Qed.

(** ** The scan, one step at a time *)

Lemma scan_skip (r : regex) :
  forall s prev n,
    scan r prev s n = scan r (prev_after prev (firstn n s)) (skipn n s) 0.
Proof.
  induction s as [|c s IH]; intros prev n.
  - destruct n; reflexivity.
  - destruct n as [|n]; [reflexivity|]. simpl. apply IH.
Qed.

Lemma scan_keep (r : regex) prev c s :
  match_at r prev (c :: s) = None ->
  scan r prev (c :: s) 0 = Keep c :: scan r (Some c) s 0.
Proof. intros H. simpl. rewrite H. reflexivity. Qed.

Lemma scan_hit (r : regex) prev m rest caps :
  m <> [] ->
  match_at r prev (m ++ rest) = Some (caps, rest) ->
  scan r prev (m ++ rest) 0 = Hit caps m :: scan r (prev_after prev m) rest 0.
Proof.
  intros Hm H. destruct m as [|c m]; [contradiction|].
  cbn [scan app]. change (c :: m ++ rest) with ((c :: m) ++ rest) in *.
  rewrite H.
  replace (length ((c :: m) ++ rest) - length rest) with (S (length m))
    by (rewrite length_app; cbn [length]; lia).
  cbn [app firstn]. rewrite firstn_length_app.
  f_equal. rewrite scan_skip.
  replace (S (length m) - 1) with (length m) by lia.
  rewrite firstn_length_app, skipn_length_app. reflexivity.
Qed.

Lemma sub_from_keep r f prev c s :
  match_at r prev (c :: s) = None ->
  sub_from r f prev (c :: s) = c :: sub_from r f (Some c) s.
Proof. intros H. unfold sub_from. rewrite scan_keep by exact H. reflexivity. Qed.

Lemma sub_from_hit r f prev m rest caps :
  m <> [] ->
  match_at r prev (m ++ rest) = Some (caps, rest) ->
  sub_from r f prev (m ++ rest) = f caps ++ sub_from r f (prev_after prev m) rest.
Proof.
  intros Hm H. unfold sub_from. erewrite scan_hit by eassumption. reflexivity.
Qed.

(** A match of a consuming pattern splits the text in two, the first part
    not empty. *)
Lemma match_at_split (r : regex) prev s caps rest :
  consumes r = true ->
  match_at r prev s = Some (caps, rest) ->
  exists m, s = m ++ rest /\ m <> [].
Proof.
  intros Hc H. destruct (match_at_sound _ _ _ _ _ H) as (m & -> & Hm).
  exists m. split; [reflexivity | eapply matches_consumes; eauto].
Qed.

(** ** Substitution and concatenation *)

Lemma local_tail (r : regex) prev m a t :
  local r prev (m ++ a) t -> local r (prev_after prev m) a t.
Proof.
  intros H a1 x -> Hx. rewrite <- prev_after_app.
  apply H; [apply app_assoc | exact Hx].
Qed.

Lemma sub_from_app (r : regex) (f : list text -> text) :
  consumes r = true ->
  forall n a prev t,
    length a <= n ->
    local r prev a t ->
    sub_from r f prev (a ++ t) =
    sub_from r f prev a ++ sub_from r f (prev_after prev a) t.
Proof.
  intros Hc. induction n as [|n IH]; intros a prev t Hn Hl.
  - destruct a; [reflexivity | simpl in Hn; lia].
  - destruct a as [|c a]; [reflexivity|].
    pose proof (Hl [] (c :: a) eq_refl ltac:(discriminate)) as H0.
    cbn [prev_after] in H0.
    destruct (match_at r prev (c :: a)) as [[caps rest]|] eqn:Hm.
    + destruct (match_at_split _ _ _ _ _ Hc Hm) as (m & E & Hne).
      rewrite E in *. rewrite <- app_assoc in H0 |- *.
      rewrite (sub_from_hit _ f _ _ _ _ Hne H0), (sub_from_hit _ f _ _ _ _ Hne Hm).
      rewrite <- app_assoc. f_equal.
      rewrite IH.
      * rewrite prev_after_app. reflexivity.
      * rewrite length_app in Hn. destruct m; [contradiction|].
        simpl in Hn. lia.
      * apply local_tail. exact Hl.
    + change ((c :: a) ++ t) with (c :: a ++ t) in *.
      rewrite (sub_from_keep _ f _ _ _ H0), (sub_from_keep _ f _ _ _ Hm).
      cbn [app prev_after]. f_equal. apply IH; [simpl in Hn; lia|].
      apply (local_tail r prev [c] a). exact Hl.
Qed.

Lemma matchless_tail (r : regex) prev c s :
  matchless r prev (c :: s) -> matchless r (Some c) s.
Proof.
  intros H a1 x -> Hx. apply (H (c :: a1) x); [reflexivity | exact Hx].
Qed.

Lemma sub_from_matchless (r : regex) (f : list text -> text) :
  forall s prev, matchless r prev s -> sub_from r f prev s = s.
Proof.
  induction s as [|c s IH]; intros prev H; [reflexivity|].
  rewrite sub_from_keep.
  - f_equal. apply IH. eapply matchless_tail; eauto.
  - apply (H [] (c :: s)); [reflexivity | discriminate].
Qed.

(** When the match attempts do not look at the character before them, the
    scan does not either. *)
Lemma scan_prev (r : regex) :
  (forall p p' s, match_at r p s = match_at r p' s) ->
  forall s p p' n, scan r p s n = scan r p' s n.
Proof.
  intros H. induction s as [|c s IH]; intros p p' n; [reflexivity|].
  destruct n as [|n]; simpl; [|reflexivity].
  rewrite (H p p'). reflexivity.
Qed.

Lemma sub_from_prev (r : regex) (f : list text -> text) :
  (forall p p' s, match_at r p s = match_at r p' s) ->
  forall p s, sub_from r f p s = sub r f s.
Proof.
  intros H p s. unfold sub, sub_from. rewrite (scan_prev r H s p None).
  reflexivity.
Qed.

(** ** Patterns of fixed shape *)

Lemma fits_app (p1 p2 : list (ascii -> bool)) :
  forall s, fits (p1 ++ p2) s = fits p1 s && fits p2 (skipn (length p1) s).
Proof.
  induction p1 as [|p p1 IH]; intros s; [reflexivity|].
  destruct s as [|c s]; simpl; [reflexivity|].
  rewrite IH, andb_assoc. reflexivity.
Qed.

Lemma fits_length (ps : list (ascii -> bool)) :
  forall s, fits ps s = true -> length ps <= length s.
Proof.
  induction ps as [|p ps IH]; intros s H; simpl; [lia|].
  destruct s as [|c s]; [discriminate|]. simpl in *.
  apply andb_true_iff in H. destruct H as [_ H]. apply IH in H. lia.
Qed.

Lemma fits_weaken (ps : list (ascii -> bool)) :
  forall x t, fits ps x = true -> fits ps (x ++ t) = true.
Proof.
  induction ps as [|p ps IH]; intros x t H; [reflexivity|].
  destruct x as [|c x]; [discriminate|]. simpl in *.
  apply andb_true_iff in H. destruct H as [-> H]. simpl. auto.
Qed.

Lemma fits_compat (ps : list (ascii -> bool)) :
  forall x t, fits ps (x ++ t) = true -> compat ps x = true.
Proof.
  induction ps as [|p ps IH]; intros x t H; [reflexivity|].
  destruct x as [|c x]; [reflexivity|]. simpl in *.
  apply andb_true_iff in H. destruct H as [-> H]. simpl. eauto.
Qed.

Lemma compat_weaken (ps : list (ascii -> bool)) :
  forall w b, compat ps (w ++ b) = true -> compat ps w = true.
Proof.
  induction ps as [|p ps IH]; intros w b H; [reflexivity|].
  destruct w as [|c w]; [reflexivity|]. simpl in *.
  apply andb_true_iff in H. destruct H as [-> H]. simpl. eauto.
Qed.

(** A match that begins in [x] and does not fit in [x] runs over its end. *)
Lemma fits_cross (ps : list (ascii -> bool)) :
  forall x t,
    fits ps (x ++ t) = true -> fits ps x = false ->
    length x < length ps /\ compat (skipn (length x) ps) t = true.
Proof.
  induction ps as [|p ps IH]; intros x t H Hx; [discriminate|].
  destruct x as [|c x].
  - simpl. split; [lia|]. apply (fits_compat (p :: ps) t []).
    rewrite app_nil_r. exact H.
  - simpl in *. apply andb_true_iff in H. destruct H as [Hp H].
    rewrite Hp in Hx. simpl in Hx.
    destruct (IH _ _ H Hx). split; [lia | assumption].
Qed.

Lemma skipn_fits_app (ps : list (ascii -> bool)) :
  forall x t, fits ps x = true ->
    skipn (length ps) (x ++ t) = skipn (length ps) x ++ t.
Proof.
  intros x t H. apply fits_length in H.
  rewrite skipn_app. replace (length ps - length x) with 0 by lia.
  reflexivity.
Qed.

Lemma firstn_plus (A : Type) (n1 n2 : nat) :
  forall s : list A,
    firstn (n1 + n2) s = firstn n1 s ++ firstn n2 (skipn n1 s).
Proof.
  induction n1 as [|n1 IH]; intros s; [reflexivity|].
  destruct s as [|c s]; simpl.
  - rewrite firstn_nil. reflexivity.
  - rewrite IH. reflexivity.
Qed.

Lemma skipn_plus (A : Type) (n1 n2 : nat) :
  forall s : list A, skipn (n1 + n2) s = skipn n2 (skipn n1 s).
Proof.
  induction n1 as [|n1 IH]; intros s; [reflexivity|].
  destruct s as [|c s]; simpl.
  - rewrite skipn_nil. reflexivity.
  - apply IH.
Qed.

Lemma rmatch_flat (r : regex) :
  forall ps k prev s caps,
    flatten r = Some ps ->
    rmatch r k prev s caps =
    if fits ps s
    then k (prev_after prev (firstn (length ps) s)) (skipn (length ps) s) caps
    else None.
Proof.
  induction r as [ | c | p | p | p | c | | r1 IH1 r2 IH2 | r IH];
    intros ps k prev s caps H; simpl in H; try discriminate.
  - injection H as <-. reflexivity.
  - injection H as <-. destruct s as [|x s]; [reflexivity|]. simpl.
    rewrite andb_true_r. reflexivity.
  - injection H as <-. destruct s as [|x s]; [reflexivity|]. simpl.
    rewrite andb_true_r. reflexivity.
  - destruct (flatten r1) as [p1|]; [|discriminate].
    destruct (flatten r2) as [p2|]; [|discriminate].
    injection H as <-. simpl.
    rewrite (IH1 p1) by reflexivity. rewrite fits_app.
    destruct (fits p1 s) eqn:H1; [|reflexivity]. simpl.
    rewrite (IH2 p2) by reflexivity.
    destruct (fits p2 (skipn (length p1) s)); [|reflexivity].
    rewrite length_app, firstn_plus, skipn_plus, prev_after_app. reflexivity.
Qed.

Lemma no_cross_spec (ps : list (ascii -> bool)) (w : text) (k : nat) :
  no_cross ps w = true -> 0 < k < length ps ->
  compat (skipn k ps) w = false.
Proof.
  unfold no_cross. rewrite forallb_forall. intros H Hk.
  apply negb_true_iff. apply H. apply in_seq. lia.
Qed.

Lemma occurs_app (ps : list (ascii -> bool)) (a x : text) :
  occurs ps (a ++ x) = false -> occurs ps x = false.
Proof.
  induction a as [|c a IH]; intros H; [exact H|].
  unfold occurs in H. cbn [app suffixes existsb] in H.
  apply orb_false_iff in H. apply IH. apply H.
Qed.

Lemma occurs_intro (ps : list (ascii -> bool)) (a v b : text) :
  v <> [] -> fits ps v = true -> occurs ps (a ++ v ++ b) = true.
Proof.
  intros Hv Hf. destruct (occurs ps (a ++ v ++ b)) eqn:E; [reflexivity|].
  apply occurs_app in E. destruct v as [|c v]; [contradiction|].
  unfold occurs in E. cbn [app suffixes existsb] in E.
  apply orb_false_iff in E. destruct E as [E _].
  pose proof (fits_weaken ps (c :: v) b Hf) as W. cbn [app] in W.
  rewrite W in E. discriminate.
Qed.

(** Substitution with a pattern [r] of fixed shape, whose character tests
    are [ps], and a replacement [f]. *)
Section Flat.

Variable r : regex.
Variable ps : list (ascii -> bool).
Hypothesis Hflat : flatten r = Some ps.
Hypothesis Hcons : consumes r = true.
Variable f : list text -> text.

Lemma match_at_flat prev s :
  match_at r prev s =
  if fits ps s then Some ([], skipn (length ps) s) else None.
Proof.
  unfold match_at. rewrite (rmatch_flat r ps) by exact Hflat. reflexivity.
Qed.

Lemma flat_prev p p' s : match_at r p s = match_at r p' s.
Proof. rewrite !match_at_flat. reflexivity. Qed.

Lemma flat_sub_from p s : sub_from r f p s = sub r f s.
Proof. apply sub_from_prev. exact flat_prev. Qed.

(** With [w] following, a match attempt inside [a] sees what it sees in [a]
    alone, once no match can run into [w]. *)
Lemma flat_local (w : text) :
  no_cross ps w = true -> forall prev a b, local r prev a (w ++ b).
Proof.
  intros Hn prev a b a1 x -> Hx. rewrite !match_at_flat.
  destruct (fits ps x) eqn:Hfx.
  - rewrite fits_weaken by exact Hfx. rewrite skipn_fits_app by exact Hfx.
    reflexivity.
  - destruct (fits ps (x ++ w ++ b)) eqn:Hfa; [|reflexivity].
    destruct (fits_cross _ _ _ Hfa Hfx) as [Hlen Hc].
    apply compat_weaken in Hc.
    rewrite no_cross_spec in Hc; [discriminate | exact Hn|].
    destruct x; [contradiction | simpl in *; lia].
Qed.

(** A text inside which no match can begin is passed over. *)
Lemma flat_no_start :
  forall w b, no_start ps w = true -> sub r f (w ++ b) = w ++ sub r f b.
Proof.
  induction w as [|c w IH]; intros b H; [reflexivity|].
  unfold no_start in H. simpl in H. apply andb_true_iff in H.
  destruct H as [Hc H]. apply negb_true_iff in Hc.
  unfold sub. cbn [app]. rewrite sub_from_keep.
  - rewrite flat_sub_from. f_equal. apply IH. exact H.
  - rewrite match_at_flat.
    destruct (fits ps (c :: w ++ b)) eqn:Hfa; [|reflexivity].
    apply (fits_compat ps (c :: w) b) in Hfa. congruence.
Qed.

(** The first frame rule: a text that no match can touch stays where it is,
    and the substitution goes on independently on both sides of it. *)
Lemma flat_frame (w : text) :
  no_cross ps w = true -> no_start ps w = true ->
  forall a b, sub r f (a ++ w ++ b) = sub r f a ++ w ++ sub r f b.
Proof.
  intros Hn Hs a b. unfold sub at 1.
  rewrite (sub_from_app r f Hcons (length a)); [|lia|apply (flat_local w Hn)].
  rewrite !flat_sub_from, flat_no_start by exact Hs. reflexivity.
Qed.

(** The second frame rule: an occurrence [v] of the pattern that no earlier
    match can run into is replaced, and the substitution goes on
    independently on both sides of it. *)
Lemma flat_hit (v : text) :
  fits ps v = true -> length v = length ps -> no_cross ps v = true ->
  forall a b, sub r f (a ++ v ++ b) = sub r f a ++ f [] ++ sub r f b.
Proof.
  intros Hv Hlen Hn a b. unfold sub at 1.
  rewrite (sub_from_app r f Hcons (length a)); [|lia|apply (flat_local v Hn)].
  rewrite !flat_sub_from. f_equal. unfold sub.
  assert (Hm : match_at r None (v ++ b) = Some ([], b)).
  { rewrite match_at_flat, fits_weaken by exact Hv.
    rewrite <- Hlen, skipn_length_app. reflexivity. }
  destruct (match_at_split _ _ _ _ _ Hcons Hm) as (m & E & Hne).
  apply app_inv_tail in E. subst m.
  rewrite (sub_from_hit r f None v b [] Hne Hm), flat_sub_from.
  reflexivity.
Qed.



End Flat.

(** ** Greedy repetition in front of a continuation that cannot fail *)

Lemma takewhile_dropwhile (p : ascii -> bool) (s : text) :
  takewhile p s ++ dropwhile p s = s.
Proof. induction s as [|c s IH]; simpl; [|destruct (p c); simpl]; congruence. Qed.

Lemma star_greedy (p : ascii -> bool) (k : kont) :
  forall s prev caps res,
    k (prev_after prev (takewhile p s)) (dropwhile p s) caps = Some res ->
    star p k prev s caps = Some res.
Proof.
  induction s as [|c s IH]; intros prev caps res H; simpl in *; [exact H|].
  destruct (p c); [|exact H]. rewrite (IH _ _ _ H). reflexivity.
Qed.

(** ** Patterns that do not look behind *)

Lemma star_blind (p : ascii -> bool) (k : kont) :
  (forall p1 p2 s caps, k p1 s caps = k p2 s caps) ->
  forall s p1 p2 caps, star p k p1 s caps = star p k p2 s caps.
Proof.
  intros Hk. induction s as [|c s IH]; intros p1 p2 caps; cbn [star];
    [apply Hk|].
  destruct (p c); [|apply Hk]. rewrite (Hk p1 p2). reflexivity.
Qed.

Lemma rmatch_blind (r : regex) :
  blind r = true ->
  forall k, (forall p1 p2 s caps, k p1 s caps = k p2 s caps) ->
  forall p1 p2 s caps, rmatch r k p1 s caps = rmatch r k p2 s caps.
Proof.
  induction r as [|c|p|p|p|c| |r1 IH1 r2 IH2|r IH]; intros Hb k Hk p1 p2 s caps;
    cbn [rmatch].
  - apply Hk.
  - reflexivity.
  - reflexivity.
  - apply star_blind. exact Hk.
  - reflexivity.
  - destruct s as [|x s]; [apply Hk|].
    destruct (Ascii.eqb x c); [|apply Hk]. rewrite (Hk p1 p2). reflexivity.
  - discriminate.
  - cbn [blind] in Hb. apply andb_prop in Hb. destruct Hb as [Hb1 Hb2].
    apply IH1; [exact Hb1|]. intros q1 q2 s' caps'.
    apply IH2; [exact Hb2 | exact Hk].
  - apply IH; [exact Hb|]. intros q1 q2 s' caps'. apply Hk.
Qed.

Lemma match_at_blind (r : regex) :
  blind r = true -> forall p p' s, match_at r p s = match_at r p' s.
Proof.
  intros Hb p p' s. unfold match_at. apply rmatch_blind; [exact Hb|].
  reflexivity.
Qed.

End ReFacts.

(** * Facts about the blank-line clean-up *)

Module SqueezeFacts.
Import Py Re ReSpec PyFacts ReFacts.

Lemma squeeze_same : LazyInit.squeeze = Prisma.squeeze.
Proof. reflexivity. Qed.

Lemma blank_consumes : consumes Prisma.blank_pattern = true.
Proof. reflexivity. Qed.

(** What the pattern does at a position: three newlines or more are read to
    the end of the run, anything else is no match. *)
Lemma blank_match (prev : option ascii) (s : text) :
  match_at Prisma.blank_pattern prev s =
  match s with
  | c1 :: c2 :: c3 :: t =>
      if is_nl c1 && is_nl c2 && is_nl c3
      then Some ([], dropwhile is_nl t) else None
  | _ => None
  end.
Proof.
  unfold match_at, Prisma.blank_pattern. cbn [seq rmatch].
  destruct s as [|c1 [|c2 [|c3 t]]]; unfold is_nl;
    try rewrite (Ascii.eqb_sym nl c1); try rewrite (Ascii.eqb_sym nl c2);
    try reflexivity.
  - destruct (Ascii.eqb c1 nl); reflexivity.
  - destruct (Ascii.eqb c1 nl); [|reflexivity].
    destruct (Ascii.eqb c2 nl); reflexivity.
  - destruct (Ascii.eqb c1 nl); [|reflexivity].
    destruct (Ascii.eqb c2 nl); [|reflexivity].
    destruct (Ascii.eqb nl c3); [|reflexivity]. simpl.
    apply star_greedy. reflexivity.
Qed.

Lemma blank_prev p p' s :
  match_at Prisma.blank_pattern p s = match_at Prisma.blank_pattern p' s.
Proof. rewrite !blank_match. reflexivity. Qed.

Lemma squeeze_run (t : text) :
  Prisma.squeeze (nl :: nl :: nl :: t) =
  nl :: nl :: Prisma.squeeze (dropwhile is_nl t).
Proof.
  unfold Prisma.squeeze, sub.
  pose proof (blank_match None (nl :: nl :: nl :: t)) as Hm.
  change (is_nl nl && is_nl nl && is_nl nl) with true in Hm. cbv iota in Hm.
  set (m := nl :: nl :: nl :: takewhile is_nl t).
  assert (E : nl :: nl :: nl :: t = m ++ dropwhile is_nl t).
  { unfold m. simpl. rewrite takewhile_dropwhile. reflexivity. }
  rewrite E in Hm |- *.
  assert (Hne : m <> []) by discriminate.
  rewrite (sub_from_hit _ _ _ _ _ _ Hne Hm).
  rewrite (sub_from_prev _ _ blank_prev). reflexivity.
Qed.

Lemma squeeze_keep (c : ascii) (s : text) :
  startswith [nl; nl; nl] (c :: s) = false ->
  Prisma.squeeze (c :: s) = c :: Prisma.squeeze s.
Proof.
  intros H. unfold Prisma.squeeze, sub. rewrite sub_from_keep.
  - rewrite (sub_from_prev _ _ blank_prev). reflexivity.
  - rewrite blank_match. destruct s as [|c2 [|c3 t]]; try reflexivity.
    unfold is_nl. cbn [startswith] in H. rewrite andb_true_r in H.
    rewrite andb_assoc in H. rewrite H. reflexivity.
Qed.

Lemma triple_cases (s : text) :
  (exists t, s = nl :: nl :: nl :: t) \/ startswith triple s = false.
Proof.
  destruct (startswith triple s) eqn:H; [left | right; reflexivity].
  apply startswith_iff in H. exact H.
Qed.

Lemma dropwhile_length (p : ascii -> bool) (s : text) :
  length (dropwhile p s) <= length s.
Proof.
  induction s as [|c s IH]; simpl; [lia|]. destruct (p c); simpl; lia.
Qed.

(** Induction along the way the clean-up goes through a text. *)
Lemma squeeze_ind (P : text -> Prop) :
  P [] ->
  (forall t, P (dropwhile is_nl t) -> P (nl :: nl :: nl :: t)) ->
  (forall c s, startswith triple (c :: s) = false -> P s -> P (c :: s)) ->
  forall s, P s.
Proof.
  intros H0 Hrun Hkeep s.
  assert (H : forall n s, length s <= n -> P s).
  { clear s. induction n as [|n IH]; intros s Hn.
    - destruct s; [exact H0 | simpl in Hn; lia].
    - destruct s as [|c s]; [exact H0|].
      destruct (triple_cases (c :: s)) as [[t E] | Hk].
      + rewrite E. apply Hrun. apply IH.
        pose proof (dropwhile_length is_nl t). rewrite E in Hn.
        simpl in Hn. lia.
      + apply Hkeep; [exact Hk|]. apply IH. simpl in Hn. lia. }
  apply (H (length s)). lia.
Qed.

Lemma dropwhile_hd (s : text) :
  match dropwhile is_nl s with
  | c :: _ => is_nl c = false
  | [] => True
  end.
Proof.
  induction s as [|c s IH]; simpl; [exact I|].
  destruct (is_nl c) eqn:E; [exact IH | exact E].
Qed.

Lemma squeeze_hd (s : text) :
  hd_error (Prisma.squeeze s) = hd_error s.
Proof.
  destruct s as [|c s]; [reflexivity|].
  destruct (triple_cases (c :: s)) as [[t E] | Hk].
  - rewrite E, squeeze_run. reflexivity.
  - rewrite squeeze_keep by exact Hk. reflexivity.
Qed.

Lemma startswith_nl (w s : text) :
  w <> [] -> newline_free w = true -> startswith w (nl :: s) = false.
Proof.
  destruct w as [|x w]; [contradiction|]. intros _ H. simpl in *.
  apply andb_true_iff in H. destruct H as [H _].
  unfold is_nl in H. rewrite Ascii.eqb_sym.
  apply negb_true_iff in H. rewrite H. reflexivity.
Qed.

(** The clean-up keeps what a text begins with, as far as the first
    newline. *)
Lemma squeeze_startswith (s : text) :
  forall w, newline_free w = true ->
    startswith w (Prisma.squeeze s) = startswith w s.
Proof.
  induction s as [|c s IH]; intros w Hw; [reflexivity|].
  destruct w as [|x w]; [reflexivity|].
  destruct (triple_cases (c :: s)) as [[t E] | Hk].
  - rewrite E, squeeze_run.
    rewrite !startswith_nl; auto; discriminate.
  - rewrite squeeze_keep by exact Hk. simpl.
    simpl in Hw. apply andb_true_iff in Hw. destruct Hw as [_ Hw].
    rewrite IH by exact Hw. reflexivity.
Qed.

Lemma contains_skip_nl (w s : text) :
  w <> [] -> newline_free w = true -> contains w (nl :: s) = contains w s.
Proof.
  intros Hn Hw. cbn [contains]. rewrite startswith_nl by assumption.
  reflexivity.
Qed.

Lemma contains_dropwhile (w s : text) :
  w <> [] -> newline_free w = true ->
  contains w (dropwhile is_nl s) = contains w s.
Proof.
  intros Hn Hw. induction s as [|c s IH]; [reflexivity|]. cbn [dropwhile].
  destruct (is_nl c) eqn:E; [|reflexivity].
  apply Ascii.eqb_eq in E. subst c.
  rewrite contains_skip_nl by assumption. exact IH.
Qed.

(** The clean-up neither removes nor creates an occurrence of a text that
    has no newline in it. *)
Lemma squeeze_contains (w : text) :
  w <> [] -> newline_free w = true ->
  forall s, contains w (Prisma.squeeze s) = contains w s.
Proof.
  intros Hn Hw. apply squeeze_ind.
  - reflexivity.
  - intros t IH. rewrite squeeze_run.
    rewrite !contains_skip_nl by assumption.
    rewrite IH. apply contains_dropwhile; assumption.
  - intros c s Hk IH. rewrite squeeze_keep by exact Hk.
    cbn [contains]. rewrite IH. f_equal.
    destruct w as [|x w]; [reflexivity|]. simpl.
    simpl in Hw. apply andb_true_iff in Hw. destruct Hw as [_ Hw].
    rewrite squeeze_startswith by exact Hw. reflexivity.
Qed.

Lemma fits_nl (ps : list (ascii -> bool)) (s : text) :
  ps <> [] -> rejects_nl ps = true -> fits ps (nl :: s) = false.
Proof.
  destruct ps as [|p ps]; [contradiction|]. intros _ H.
  cbn [rejects_nl forallb] in H. apply andb_true_iff in H.
  destruct H as [H _]. apply negb_true_iff in H. cbn [fits]. rewrite H.
  reflexivity.
Qed.

Lemma squeeze_fits (s : text) :
  forall ps, rejects_nl ps = true ->
    fits ps (Prisma.squeeze s) = fits ps s.
Proof.
  induction s as [|c s IH]; intros ps Hp; [reflexivity|].
  destruct ps as [|p ps]; [reflexivity|].
  destruct (triple_cases (c :: s)) as [[t E] | Hk].
  - rewrite E, squeeze_run. rewrite !fits_nl; auto; discriminate.
  - rewrite squeeze_keep by exact Hk. cbn [fits].
    cbn [rejects_nl forallb] in Hp. apply andb_true_iff in Hp.
    destruct Hp as [_ Hp]. rewrite IH by exact Hp. reflexivity.
Qed.

Lemma occurs_cons (ps : list (ascii -> bool)) (c : ascii) (s : text) :
  occurs ps (c :: s) = fits ps (c :: s) || occurs ps s.
Proof. reflexivity. Qed.

Lemma occurs_dropwhile (ps : list (ascii -> bool)) (s : text) :
  ps <> [] -> rejects_nl ps = true ->
  occurs ps (dropwhile is_nl s) = occurs ps s.
Proof.
  intros Hn Hp. induction s as [|c s IH]; [reflexivity|]. cbn [dropwhile].
  destruct (is_nl c) eqn:E; [|reflexivity].
  apply Ascii.eqb_eq in E. subst c.
  rewrite occurs_cons, fits_nl by assumption. exact IH.
Qed.

(** The clean-up neither removes nor creates a match of character tests
    that let no newline through. *)
Lemma squeeze_occurs (ps : list (ascii -> bool)) :
  ps <> [] -> rejects_nl ps = true ->
  forall s, occurs ps (Prisma.squeeze s) = occurs ps s.
Proof.
  intros Hn Hp. apply squeeze_ind.
  - reflexivity.
  - intros t IH. rewrite squeeze_run.
    rewrite !occurs_cons, !fits_nl by assumption. cbn [orb].
    rewrite IH. apply occurs_dropwhile; assumption.
  - intros c s Hk IH. rewrite squeeze_keep by exact Hk.
    rewrite !occurs_cons, IH. f_equal.
    destruct ps as [|p ps]; [reflexivity|]. cbn [fits].
    cbn [rejects_nl forallb] in Hp. apply andb_true_iff in Hp.
    destruct Hp as [_ Hp]. rewrite squeeze_fits by exact Hp. reflexivity.
Qed.

Lemma squeeze_two (s : text) :
  startswith [nl; nl] (Prisma.squeeze s) = true ->
  startswith [nl; nl] s = true.
Proof.
  destruct s as [|c s]; [intros H; exact H|].
  destruct (triple_cases (c :: s)) as [[t E] | Hk].
  - rewrite E. reflexivity.
  - rewrite squeeze_keep by exact Hk. cbn [startswith].
    intros H. apply andb_true_iff in H. destruct H as [Hc H].
    rewrite Hc, andb_true_l.
    pose proof (squeeze_hd s) as Hh.
    destruct (Prisma.squeeze s) as [|y q]; [discriminate|].
    destruct s as [|z s]; [discriminate|]. simpl in Hh.
    injection Hh as ->. exact H.
Qed.

(** After the clean-up there are no three newlines in a row. *)
Lemma squeeze_no_triple :
  forall s, contains triple (Prisma.squeeze s) = false.
Proof.
  apply squeeze_ind.
  - reflexivity.
  - intros t IH. rewrite squeeze_run.
    pose proof (dropwhile_hd t) as Hd. pose proof (squeeze_hd (dropwhile is_nl t)) as Hh.
    cbn [contains]. rewrite IH.
    destruct (Prisma.squeeze (dropwhile is_nl t)) as [|y q].
    + reflexivity.
    + destruct (dropwhile is_nl t) as [|z u]; [discriminate|].
      simpl in Hh. injection Hh as ->. unfold is_nl in Hd.
      unfold triple. cbn [startswith]. rewrite Hd.
      rewrite !andb_false_r. reflexivity.
  - intros c s Hk IH. rewrite squeeze_keep by exact Hk.
    cbn [contains]. rewrite IH, orb_false_r.
    destruct (startswith triple (c :: Prisma.squeeze s)) eqn:H; [|reflexivity].
    unfold triple in *. rewrite startswith_cons in H, Hk.
    apply andb_true_iff in H. destruct H as [Hc H].
    rewrite Hc, andb_true_l in Hk.
    apply squeeze_two in H. congruence.
Qed.

Lemma contains_tail (w : text) (c : ascii) (s : text) :
  contains w (c :: s) = false -> contains w s = false.
Proof. cbn [contains]. intros H. apply orb_false_iff in H. apply H. Qed.

Lemma contains_suffix (w a x : text) :
  contains w (a ++ x) = false -> contains w x = false.
Proof.
  induction a as [|c a IH]; intros H; [exact H|].
  apply IH. eapply contains_tail. exact H.
Qed.

(** A text without three newlines in a row is left as it is. *)
Lemma squeeze_fixed (s : text) :
  contains triple s = false -> Prisma.squeeze s = s.
Proof.
  intros H. apply sub_from_matchless. intros a1 x -> Hx.
  apply contains_suffix in H. rewrite blank_match.
  destruct x as [|c1 [|c2 [|c3 t]]]; try reflexivity.
  cbn [contains] in H. apply orb_false_iff in H. destruct H as [H _].
  unfold triple in H. cbn [startswith] in H. rewrite andb_true_r in H.
  unfold is_nl. rewrite <- andb_assoc, H. reflexivity.
Qed.

Lemma squeeze_idem (s : text) :
  Prisma.squeeze (Prisma.squeeze s) = Prisma.squeeze s.
Proof. apply squeeze_fixed, squeeze_no_triple. Qed.

Lemma last_suffix (a1 x : text) (d : ascii) :
  x <> [] -> last (a1 ++ x) d = last x d.
Proof.
  intros Hx. induction a1 as [|c a1 IH]; [reflexivity|].
  cbn [app]. destruct (a1 ++ x) eqn:E.
  - destruct a1; destruct x; try discriminate. contradiction.
  - rewrite <- IH. reflexivity.
Qed.

Lemma dropwhile_app (s t : text) :
  s <> [] -> ends_with_nl s = false ->
  dropwhile is_nl (s ++ t) = dropwhile is_nl s ++ t.
Proof.
  unfold ends_with_nl. induction s as [|c s IH]; intros Hs H; [contradiction|].
  cbn [app dropwhile]. destruct (is_nl c) eqn:E; [|reflexivity].
  destruct s as [|c' s].
  - simpl in H. congruence.
  - apply IH; [discriminate | exact H].
Qed.

Lemma dropwhile_stop (s : text) :
  starts_with_nl s = false -> dropwhile is_nl s = s.
Proof. destruct s as [|c s]; simpl; [reflexivity | intros ->; reflexivity]. Qed.

Lemma dropwhile_run (k : nat) (b : text) :
  dropwhile is_nl (repeat nl k ++ b) = dropwhile is_nl b.
Proof. induction k as [|k IH]; [reflexivity | exact IH]. Qed.

(** Before a run of newlines, a match attempt inside a text that does not
    end with a newline finds what it finds in that text alone. *)
Lemma blank_local (a t : text) (prev : option ascii) :
  ends_with_nl a = false -> 3 <= length t ->
  local Prisma.blank_pattern prev a t.
Proof.
  intros Ha Ht a1 x -> Hx. rewrite !blank_match.
  unfold ends_with_nl in Ha. rewrite last_suffix in Ha by exact Hx.
  destruct t as [|t1 [|t2 [|t3 t]]]; try (simpl in Ht; lia).
  destruct x as [|c1 [|c2 [|c3 x]]]; [contradiction| | |].
  - simpl in Ha. cbn [app]. rewrite Ha. reflexivity.
  - simpl in Ha. cbn [app]. rewrite Ha, andb_false_r. reflexivity.
  - cbn [app]. destruct (is_nl c1 && is_nl c2 && is_nl c3) eqn:E; [|reflexivity].
    destruct x as [|c4 x].
    + simpl in Ha. rewrite Ha, andb_false_r in E. discriminate.
    + rewrite dropwhile_app; [reflexivity | discriminate | exact Ha].
Qed.

(** A run of three newlines or more, between a text that does not end with
    a newline and one that does not begin with one, becomes two newlines;
    the clean-up goes on independently on both sides. *)
Lemma squeeze_run_between (a b : text) (k : nat) :
  ends_with_nl a = false -> starts_with_nl b = false ->
  Prisma.squeeze (a ++ repeat nl (3 + k) ++ b) =
  Prisma.squeeze a ++ [nl; nl] ++ Prisma.squeeze b.
Proof.
  intros Ha Hb. unfold Prisma.squeeze at 1, sub.
  rewrite (sub_from_app _ _ blank_consumes (length a)); [|lia|].
  - rewrite !(sub_from_prev _ _ blank_prev). f_equal.
    change (sub Prisma.blank_pattern (fun _ => [nl; nl]))
      with Prisma.squeeze.
    cbn [repeat Nat.add app]. rewrite squeeze_run.
    rewrite dropwhile_run, dropwhile_stop by exact Hb. reflexivity.
  - apply blank_local; [exact Ha|].
    rewrite length_app, repeat_length. lia.
Qed.

End SqueezeFacts.

(** * Facts about sets, dictionaries and sorting *)

Module DataFacts.
Import Py Shapes PyFacts.

Lemma mem_In (x : text) (l : list text) : mem x l = true <-> In x l.
Proof.
  unfold mem. rewrite existsb_exists. split.
  - intros (y & Hy & E). apply text_eqb_eq in E. subst. exact Hy.
  - intros H. exists x. split; [exact H | apply text_eqb_refl].
Qed.

Lemma set_add_In (x g : text) (s : list text) :
  In g (set_add x s) <-> g = x \/ In g s.
Proof.
  unfold set_add. destruct (mem x s) eqn:E.
  - apply mem_In in E. split; [auto | intros [->|H]; auto].
  - rewrite in_app_iff. simpl. intuition auto.
Qed.

Lemma set_add_NoDup (x : text) (s : list text) :
  NoDup s -> NoDup (set_add x s).
Proof.
  intros H. unfold set_add. destruct (mem x s) eqn:E; [exact H|].
  assert (Hn : ~ In x s) by (rewrite <- mem_In; congruence).
  clear E. induction H as [|y s Hy H IH]; simpl.
  - constructor; [intros [] | constructor].
  - constructor.
    + rewrite in_app_iff. simpl. intros [Hin | [E | []]]; [auto|].
      subst. apply Hn. left. reflexivity.
    + apply IH. intros Hin. apply Hn. right. exact Hin.
Qed.

Lemma set_add_nonempty (x : text) (s : list text) : set_add x s <> [].
Proof.
  unfold set_add. destruct (mem x s) eqn:E.
  - destruct s; [discriminate | discriminate].
  - destruct s; discriminate.
Qed.

Lemma dict_set_nonempty (k v : text) (d : dict) : dict_set k v d <> [].
Proof. destruct d as [|[k' v'] d]; simpl; [|destruct (text_eqb k k')]; discriminate. Qed.

Lemma dict_set_keys (k v : text) (d : dict) (n : text) :
  In n (map fst (dict_set k v d)) <-> n = k \/ In n (map fst d).
Proof.
  induction d as [|[k' v'] d IH]; simpl.
  - split; intros [H|H]; auto.
  - destruct (text_eqb k k') eqn:E; simpl.
    + apply text_eqb_eq in E. subst k'. intuition congruence.
    + rewrite IH. tauto.
Qed.

Lemma dict_set_NoDup (k v : text) (d : dict) :
  NoDup (map fst d) -> NoDup (map fst (dict_set k v d)).
Proof.
  induction d as [|[k' v'] d IH]; simpl; intros H.
  - constructor; [intros [] | constructor].
  - inversion H as [|? ? Hn Hd]; subst.
    destruct (text_eqb k k') eqn:E; simpl.
    + apply text_eqb_eq in E. subst k'. constructor; assumption.
    + constructor; [|auto]. rewrite dict_set_keys. intros [E'|Hin]; [|auto].
      subst k'. rewrite text_eqb_refl in E. discriminate.
Qed.

(** With distinct keys, an assignment replaces the entry of its key and
    leaves the others. *)
Lemma dict_set_In (k v : text) (d : dict) (n c : text) :
  NoDup (map fst d) ->
  (In (n, c) (dict_set k v d) <->
   (n = k /\ c = v) \/ (n <> k /\ In (n, c) d)).
Proof.
  induction d as [|[k' v'] d IH]; simpl; intros H.
  - split.
    + intros [E|[]]. injection E as <- <-. auto.
    + intros [[-> ->]|[_ []]]. auto.
  - inversion H as [|? ? Hn Hd]; subst.
    destruct (text_eqb k k') eqn:E; simpl.
    + apply text_eqb_eq in E. subst k'. split.
      * intros [E|Hin]; [injection E as <- <-; auto|]. right. split; [|auto].
        intros ->. apply Hn. apply (in_map fst) in Hin. exact Hin.
      * intros [[-> ->]|[Hne [E|Hin]]]; auto.
        injection E as <- <-. contradiction.
    + apply text_eqb_neq in E. rewrite (IH Hd). split.
      * intros [E'|[[-> ->]|[Hne Hin]]]; auto.
        injection E' as <- <-. right. split; [congruence | auto].
      * intros [[-> ->]|[Hne [E'|Hin]]]; auto.
Qed.

(** ** The order of strings *)

Lemma nat_of_ascii_inj (x y : ascii) :
  nat_of_ascii x = nat_of_ascii y -> x = y.
Proof.
  intros H. rewrite <- (ascii_nat_embedding x), <- (ascii_nat_embedding y).
  rewrite H. reflexivity.
Qed.

Lemma text_ltb_trans (a b c : text) :
  text_ltb a b = true -> text_ltb b c = true -> text_ltb a c = true.
Proof.
  revert b c. induction a as [|x a IH]; intros [|y b] [|z c]; simpl;
    try discriminate; auto.
  rewrite !orb_true_iff, !andb_true_iff, !Nat.ltb_lt, !Nat.eqb_eq.
  intros [H1|[H1 H1']] [H2|[H2 H2']].
  - left. lia.
  - left. lia.
  - left. lia.
  - right. split; [lia | eauto].
Qed.

Lemma text_ltb_total (a b : text) :
  a <> b -> text_ltb a b = false -> text_ltb b a = true.
Proof.
  revert b. induction a as [|x a IH]; intros [|y b] Hne H; simpl in *;
    try congruence.
  apply orb_false_iff in H. destruct H as [H1 H2].
  apply Nat.ltb_ge in H1. apply orb_true_iff.
  destruct (Nat.eq_dec (nat_of_ascii x) (nat_of_ascii y)) as [E|E].
  - right. rewrite E, Nat.eqb_refl in *. simpl in *.
    apply nat_of_ascii_inj in E. subst y.
    apply IH; [congruence | exact H2].
  - left. apply Nat.ltb_lt. lia.
Qed.

Lemma sorted_insert_In (x g : text) (l : list text) :
  In g (sorted_insert x l) <-> g = x \/ In g l.
Proof.
  induction l as [|y l IH]; simpl.
  - split; intros [H|H]; auto.
  - destruct (text_ltb y x); simpl; [rewrite IH|]; split; intros H;
      intuition auto.
Qed.

Lemma sorted_insert_sorted (x : text) (l : list text) :
  ~ In x l -> StronglySorted text_lt l ->
  StronglySorted text_lt (sorted_insert x l).
Proof.
  intros Hn H. induction H as [|y l Hs IH Hall]; simpl.
  - constructor; constructor.
  - destruct (text_ltb y x) eqn:E.
    + constructor.
      * apply IH. intros Hin. apply Hn. right. exact Hin.
      * apply Forall_forall. intros g Hg. apply sorted_insert_In in Hg.
        destruct Hg as [->|Hg]; [exact E|].
        rewrite Forall_forall in Hall. auto.
    + assert (Hxy : text_lt x y).
      { apply text_ltb_total; [|exact E]. intros ->. apply Hn. left. reflexivity. }
      constructor; [constructor; assumption|].
      constructor; [exact Hxy|].
      apply Forall_forall. intros g Hg. rewrite Forall_forall in Hall.
      apply (text_ltb_trans x y g Hxy). apply Hall. exact Hg.
Qed.

(** [sorted] of a list without repetition: the same strings, each before
    the next in the order of strings. *)
Lemma sorted_spec (l : list text) :
  NoDup l ->
  StronglySorted text_lt (sorted l) /\
  forall g, In g (sorted l) <-> In g l.
Proof.
  induction 1 as [|x l Hn Hd [IHs IHi]]; simpl.
  - split; [constructor | tauto].
  - split.
    + apply sorted_insert_sorted; [rewrite IHi; exact Hn | exact IHs].
    + intros g. rewrite sorted_insert_In, IHi. split; intros [H|H]; auto.
Qed.

End DataFacts.

(** * Facts about the call-site pattern *)

Module CallFacts.
Import Py Re ReSpec Shapes PyFacts ReFacts SqueezeFacts LazyInit.

Lemma rmatch_lit (w : text) (k : kont) :
  forall prev s caps,
    rmatch (lit w) k prev s caps =
    if startswith w s
    then k (prev_after prev w) (skipn (length w) s) caps
    else None.
Proof.
  induction w as [|c w IH]; intros prev s caps; [reflexivity|].
  cbn [lit rmatch]. destruct s as [|x s]; [reflexivity|].
  rewrite startswith_cons.
  destruct (Ascii.eqb_spec x c) as [->|Hn].
  - rewrite Ascii.eqb_refl, IH. reflexivity.
  - assert (E : Ascii.eqb c x = false) by (apply Ascii.eqb_neq; congruence).
    rewrite E. reflexivity.
Qed.






Lemma while_stop (p : ascii -> bool) (m b : text) :
  forallb p m = true ->
  match b with c :: _ => p c = false | [] => True end ->
  takewhile p (m ++ b) = m /\ dropwhile p (m ++ b) = b.
Proof.
  intros Hm Hb. induction m as [|c m IH]; cbn [app].
  - destruct b as [|c b]; [auto|]. cbn [takewhile dropwhile]. rewrite Hb. auto.
  - cbn [forallb] in Hm. apply andb_true_iff in Hm. destruct Hm as [Hc Hm].
    cbn [takewhile dropwhile]. rewrite Hc.
    destruct (IH Hm) as [-> ->]. auto.
Qed.

Lemma is_name_inv (v : text) :
  is_name v = true ->
  exists c v', v = c :: v' /\ is_word c = true /\ forallb is_word v = true.
Proof.
  destruct v as [|c v']; [discriminate|]. intros H. exists c, v'.
  repeat split; [|exact H]. cbn [is_name forallb] in H.
  apply andb_true_iff in H. apply H.
Qed.






End CallFacts.

(** * Facts about the pruning of the legacy import *)

Module ImportFacts.
Import Py Re ReSpec Shapes PyFacts ReFacts CallFacts LazyInit.

(** ** One construct of a pattern at a time *)

Lemma seq_step (r1 r2 : regex) (k : kont) prev s caps res :
  rmatch r1 (rmatch r2 k) prev s caps = Some res ->
  rmatch (Seq r1 r2) k prev s caps = Some res.
Proof. intros H. exact H. Qed.

Lemma lit_step (w : text) (k : kont) prev s caps res :
  k (prev_after prev w) s caps = Some res ->
  rmatch (lit w) k prev (w ++ s) caps = Some res.
Proof.
  intros H. rewrite rmatch_lit, startswith_app, skipn_length_app. exact H.
Qed.

Lemma chr_step (c : ascii) (k : kont) prev s caps res :
  k (Some c) s caps = Some res ->
  rmatch (Chr c) k prev (c :: s) caps = Some res.
Proof. intros H. cbn [rmatch]. rewrite Ascii.eqb_refl. exact H. Qed.

Lemma star_step (p : ascii -> bool) (k : kont) (ws s : text) prev caps res :
  forallb p ws = true ->
  match s with c :: _ => p c = false | [] => True end ->
  k (prev_after prev ws) s caps = Some res ->
  rmatch (Star p) k prev (ws ++ s) caps = Some res.
Proof.
  intros Hw Hs H. cbn [rmatch]. apply star_greedy.
  destruct (while_stop p ws s Hw Hs) as [-> ->]. exact H.
Qed.

Lemma group_plus_step (p : ascii -> bool) (k : kont) (m s : text)
    prev caps res :
  m <> [] ->
  forallb p m = true ->
  match s with c :: _ => p c = false | [] => True end ->
  k (prev_after prev m) s (caps ++ [m]) = Some res ->
  rmatch (Group (Plus p)) k prev (m ++ s) caps = Some res.
Proof.
  intros Hm Hp Hs H. destruct m as [|x m]; [contradiction|].
  cbn [forallb] in Hp. apply andb_prop in Hp. destruct Hp as [Hx Hp].
  cbn [rmatch app]. rewrite Hx. apply star_greedy.
  destruct (while_stop p m s Hp Hs) as [-> ->].
  change (x :: m ++ s) with ((x :: m) ++ s).
  replace (length ((x :: m) ++ s) - length s) with (length (x :: m))
    by (rewrite length_app; lia).
  rewrite firstn_length_app. exact H.
Qed.

(** ** The import pattern on an import statement *)

Lemma import_match (ws1 body ws2 ws3 rest : text) prev :
  forallb is_space ws1 = true ->
  forallb is_space ws2 = true ->
  forallb is_space ws3 = true ->
  body <> [] ->
  forallb not_rbrace body = true ->
  match_at import_pattern prev (legacy_import ws1 body ws2 ws3 ++ rest) =
  Some ([body], rest).
Proof.
  intros H1 H2 H3 Hb Hn. unfold match_at, import_pattern, legacy_import.
  change (str "{") with ["{"%char]. change (str "}") with ["}"%char].
  assert (Hf : forall t, match str "from" ++ t with
                         | c :: _ => is_space c = false
                         | [] => True
                         end) by reflexivity.
  assert (Hs : forall t, match str "'@midcurve/services';" ++ t with
                         | c :: _ => is_space c = false
                         | [] => True
                         end) by reflexivity.
  revert Hf Hs.
  generalize (str "import") (str "from") (str "'@midcurve/services';").
  intros w1 w2 w3 Hf Hs.
  cbn [seq]. rewrite <- !app_assoc. cbn [app].
  apply seq_step, lit_step.
  apply seq_step, star_step; [exact H1 | reflexivity |].
  apply seq_step, chr_step.
  apply seq_step, group_plus_step; [exact Hb | exact Hn | reflexivity |].
  apply seq_step, chr_step.
  apply seq_step, star_step; [exact H2 | apply Hf |].
  apply seq_step, lit_step.
  apply seq_step, star_step; [exact H3 | apply Hs |].
  apply seq_step, lit_step. reflexivity.
Qed.

(** Step 4 on a text that begins with an import statement: the statement
    goes through the replacement function, and the step goes on after
    it. *)
Lemma prune_statement (svcs : list text) (ws1 body ws2 ws3 rest : text) :
  forallb is_space ws1 = true ->
  forallb is_space ws2 = true ->
  forallb is_space ws3 = true ->
  body <> [] ->
  forallb not_rbrace body = true ->
  prune_imports svcs (legacy_import ws1 body ws2 ws3 ++ rest) =
  remove_services svcs [body] ++ prune_imports svcs rest.
Proof.
  intros H1 H2 H3 Hb Hn. unfold prune_imports, sub.
  rewrite (sub_from_hit _ _ None (legacy_import ws1 body ws2 ws3) rest [body]).
  - rewrite (sub_from_prev _ _ (match_at_blind import_pattern eq_refl)).
    reflexivity.
  - discriminate.
  - apply import_match; assumption.
Qed.

Lemma list_entry_comma (l : list text) :
  forallb list_entry l = true ->
  forallb (forallb (fun c => negb (Ascii.eqb c ","))) l = true.
Proof.
  intros H. rewrite forallb_forall in *. intros e He. specialize (H e He).
  unfold list_entry in H. rewrite forallb_forall in *. intros c Hc.
  specialize (H c Hc). apply andb_prop in H. tauto.
Qed.

Lemma list_entry_rbrace (l : list text) :
  forallb list_entry l = true -> forallb (forallb not_rbrace) l = true.
Proof.
  intros H. rewrite forallb_forall in *. intros e He. specialize (H e He).
  unfold list_entry in H. rewrite forallb_forall in *. intros c Hc.
  specialize (H c Hc). apply andb_prop in H. tauto.
Qed.

(** The same, on the entries of the list. *)
Lemma prune_entries (svcs : list text) (ws1 ws2 ws3 : text)
    (e : text) (entries : list text) (rest : text) :
  forallb is_space ws1 = true ->
  forallb is_space ws2 = true ->
  forallb is_space ws3 = true ->
  forallb list_entry (e :: entries) = true ->
  join (str ",") (e :: entries) <> [] ->
  prune_imports svcs
    (legacy_import ws1 (join (str ",") (e :: entries)) ws2 ws3 ++ rest) =
  legacy_statement
    (filter (fun imp => negb (mem imp svcs)) (map strip (e :: entries)))
    ++ prune_imports svcs rest.
Proof.
  intros H1 H2 H3 He Hb.
  rewrite prune_statement; try assumption.
  - unfold remove_services. cbn [group Nat.sub nth].
    change (str ",") with [","%char].
    rewrite split_join by (apply list_entry_comma; exact He). reflexivity.
  - apply forallb_join; [reflexivity|]. apply list_entry_rbrace. exact He.
Qed.

End ImportFacts.

(** * Facts about the extraction of fix-service-lazy-init.py *)

Module ExtractFacts.
Import Py Re ReSpec Shapes PyFacts ReFacts DataFacts LazyInit.

(** Every element of [finditer] is the result of a match attempt. *)
Lemma hits_sound (r : regex) (caps : list text) :
  forall s prev n,
    In caps (hits (scan r prev s n)) ->
    exists p x rest, match_at r p x = Some (caps, rest).
Proof.
  induction s as [|c s IH]; intros prev n H; [contradiction|].
  destruct n as [|n]; cbn [scan] in H; [|eauto].
  destruct (match_at r prev (c :: s)) as [[caps' rest]|] eqn:E.
  - cbn [hits] in H. destruct H as [<-|H]; eauto.
  - cbn [hits] in H. eauto.
Qed.

Lemma matches_lit (w : text) prev m rest caps :
  matches (lit w) prev m rest caps -> caps = [].
Proof.
  revert prev m caps. induction w as [|c w IH]; intros prev m caps H.
  - inversion H. reflexivity.
  - cbn [lit] in H. inversion H as [| | | | | | | |? ? ? ? ? ? ? ? H1 H2|]; subst.
    inversion H1; subst. rewrite (IH _ _ _ H2). reflexivity.
Qed.

(** A match of the instantiation pattern has two groups, the first of
    which is an identifier. *)
Lemma inst_groups prev x caps rest :
  match_at inst_pattern prev x = Some (caps, rest) ->
  exists name cls, caps = [name; cls] /\ is_name name = true.
Proof.
  intros H. apply match_at_sound in H. destruct H as (m & -> & H).
  unfold inst_pattern in H. cbn [seq] in H.
  repeat match goal with
  | H : matches (Seq _ _) _ _ _ _ |- _ => inversion H; subst; clear H
  end.
  repeat match goal with
  | H : matches (lit _) _ _ _ _ |- _ => apply matches_lit in H; subst
  | H : matches (Group _) _ _ _ _ |- _ => inversion H; subst; clear H
  | H : matches (Seq _ _) _ _ _ _ |- _ => inversion H; subst; clear H
  | H : matches (Plus _) _ _ _ _ |- _ => inversion H; subst; clear H
  | H : matches (Star _) _ _ _ _ |- _ => inversion H; subst; clear H
  | H : matches (Chr _) _ _ _ _ |- _ => inversion H; subst; clear H
  | H : matches (Opt _) _ _ _ _ |- _ => inversion H; subst; clear H
  | H : matches Eps _ _ _ _ |- _ => inversion H; subst; clear H
  end;
  cbn [app]; eexists _, _; (split; [reflexivity|]);
  cbn [is_name forallb]; apply andb_true_iff; split; assumption.
Qed.

Lemma finditer_groups (content : text) (caps : list text) :
  In caps (finditer inst_pattern content) ->
  exists name cls, caps = [name; cls] /\ is_name name = true.
Proof.
  intros H. destruct (hits_sound _ _ _ _ _ H) as (p & x & rest & Hm).
  eapply inst_groups. exact Hm.
Qed.

(** ** The loop of step 1 *)

Lemma record_mapped (st : dict * list text) (caps : list text) (g : text) :
  dict_get (group 2 caps) SERVICE_GETTERS = Some g ->
  record st caps =
  (dict_set (group 1 caps) (group 2 caps) (fst st), set_add g (snd st)).
Proof. intros H. unfold record. rewrite H. reflexivity. Qed.

Lemma record_unmapped (st : dict * list text) (caps : list text) :
  mapped caps = false -> record st caps = st.
Proof.
  unfold mapped, record.
  destruct (dict_get (group 2 caps) SERVICE_GETTERS); [discriminate | reflexivity].
Qed.

Lemma mapped_getter (caps : list text) :
  mapped caps = true <->
  exists g, dict_get (group 2 caps) SERVICE_GETTERS = Some g.
Proof.
  unfold mapped. destruct (dict_get (group 2 caps) SERVICE_GETTERS).
  - split; eauto.
  - split; [discriminate | intros [g H]; discriminate].
Qed.

(** The getters marked as used are those of the matches with a class of
    the mapping. *)
Lemma fold_record_used (ms : list (list text)) :
  forall st g,
    In g (snd (fold_left record ms st)) <->
    In g (snd st) \/
    exists caps, In caps ms /\
      dict_get (group 2 caps) SERVICE_GETTERS = Some g.
Proof.
  induction ms as [|x ms IH]; intros st g; cbn [fold_left].
  - split; [auto | intros [H|(c & [] & _)]; exact H].
  - rewrite IH. unfold record.
    destruct (dict_get (group 2 x) SERVICE_GETTERS) as [gx|] eqn:E; cbn [snd].
    + rewrite set_add_In. split.
      * intros [[->|H]|(c & Hc & Hg)]; eauto.
        -- right. exists x. split; [left; reflexivity | exact E].
        -- right. exists c. split; [right; exact Hc | exact Hg].
      * intros [H|(c & [<-|Hc] & Hg)]; eauto.
        left. left. congruence.
    + split.
      * intros [H|(c & Hc & Hg)]; eauto.
        right. exists c. split; [right; exact Hc | exact Hg].
      * intros [H|(c & [<-|Hc] & Hg)]; eauto. congruence.
Qed.

Lemma fold_record_NoDup (ms : list (list text)) :
  forall st, NoDup (snd st) -> NoDup (snd (fold_left record ms st)).
Proof.
  induction ms as [|x ms IH]; intros st H; [exact H|].
  cbn [fold_left]. apply IH. unfold record.
  destruct (dict_get (group 2 x) SERVICE_GETTERS); [|exact H].
  apply set_add_NoDup. exact H.
Qed.

(** Both records are empty, or neither is. *)
Lemma fold_record_empty (ms : list (list text)) :
  forall st,
    (fst st = [] <-> snd st = []) ->
    (fst (fold_left record ms st) = [] <-> snd (fold_left record ms st) = []).
Proof.
  induction ms as [|x ms IH]; intros st H; [exact H|].
  cbn [fold_left]. apply IH. unfold record.
  destruct (dict_get (group 2 x) SERVICE_GETTERS); [|exact H].
  cbn [fst snd]. split; intros E.
  - exfalso. exact (dict_set_nonempty _ _ _ E).
  - exfalso. exact (set_add_nonempty _ _ E).
Qed.

(** ** Which class a name is recorded with *)

Lemma snoc_split (A : Type) (ms : list A) (x : A) (l1 : list A) (c : A) :
  forall l2,
    ms ++ [x] = l1 ++ c :: l2 ->
    (l2 = [] /\ c = x /\ l1 = ms) \/
    (exists l2', l2 = l2' ++ [x] /\ ms = l1 ++ c :: l2').
Proof.
  intros l2. induction l2 as [|y l2' _] using rev_ind; intros H.
  - left. apply app_inj_tail in H. destruct H as [-> ->]. auto.
  - right. exists l2'.
    change (l1 ++ c :: l2' ++ [y]) with (l1 ++ (c :: l2') ++ [y]) in H.
    rewrite app_assoc in H. apply app_inj_tail in H.
    destruct H as [-> ->]. auto.
Qed.

Lemma last_mapped_nil (n c : text) : ~ last_mapped [] n c.
Proof.
  intros (l1 & caps & l2 & H & _). destruct l1; discriminate.
Qed.

Lemma last_mapped_snoc_unmapped ms x n c :
  mapped x = false ->
  (last_mapped (ms ++ [x]) n c <-> last_mapped ms n c).
Proof.
  intros Hx. split.
  - intros (l1 & caps & l2 & E & H1 & H2 & H3 & H4).
    destruct (snoc_split _ _ _ _ _ _ E) as [(-> & -> & ->) | (l2' & -> & ->)].
    + congruence.
    + exists l1, caps, l2'. repeat split; auto.
      intros c' Hc. apply H4. apply in_or_app. left. exact Hc.
  - intros (l1 & caps & l2 & -> & H1 & H2 & H3 & H4).
    exists l1, caps, (l2 ++ [x]). rewrite <- app_assoc. repeat split; auto.
    intros c' Hc Hn. apply in_app_or in Hc. destruct Hc as [Hc|[<-|[]]]; auto.
Qed.

Lemma last_mapped_snoc_mapped ms x n c :
  mapped x = true ->
  (last_mapped (ms ++ [x]) n c <->
   (n = group 1 x /\ c = group 2 x) \/
   (n <> group 1 x /\ last_mapped ms n c)).
Proof.
  intros Hx. split.
  - intros (l1 & caps & l2 & E & H1 & H2 & H3 & H4).
    destruct (snoc_split _ _ _ _ _ _ E) as [(-> & -> & ->) | (l2' & -> & ->)].
    + left. auto.
    + right. split.
      * intros ->.
        assert (mapped x = false); [|congruence].
        apply H4; [apply in_or_app; right; left |]; reflexivity.
      * exists l1, caps, l2'. repeat split; auto.
        intros c' Hc. apply H4. apply in_or_app. left. exact Hc.
  - intros [[-> ->] | [Hn (l1 & caps & l2 & -> & H1 & H2 & H3 & H4)]].
    + exists ms, x, []. repeat split; auto. intros c' [].
    + exists l1, caps, (l2 ++ [x]). rewrite <- app_assoc. repeat split; auto.
      intros c' Hc Hg. apply in_app_or in Hc.
      destruct Hc as [Hc|[<-|[]]]; [auto | congruence].
Qed.

(** After step 1 the keys of [var_to_service] are distinct, and a name is
    recorded with the class of the last match that declares it with a
    class of the mapping. *)
Lemma fold_record_dict (ms : list (list text)) :
  NoDup (map fst (fst (fold_left record ms ([], [])))) /\
  forall n c,
    In (n, c) (fst (fold_left record ms ([], []))) <-> last_mapped ms n c.
Proof.
  induction ms as [|x ms [IHd IHi]] using rev_ind.
  - split; [constructor|]. intros n c. split; [intros [] |].
    intros H. exact (last_mapped_nil _ _ H).
  - rewrite fold_left_app. cbn [fold_left].
    destruct (mapped x) eqn:Hx.
    + destruct (proj1 (mapped_getter x) Hx) as [g Hg].
      rewrite (record_mapped _ _ _ Hg). cbn [fst]. split.
      * apply dict_set_NoDup. exact IHd.
      * intros n c. rewrite (dict_set_In _ _ _ _ _ IHd).
        rewrite last_mapped_snoc_mapped by exact Hx.
        rewrite IHi. reflexivity.
    + rewrite (record_unmapped _ _ Hx). split; [exact IHd|].
      intros n c. rewrite last_mapped_snoc_unmapped by exact Hx. apply IHi.
Qed.

(** Matches whose class is not in the mapping leave the records as they
    are. *)
Lemma fold_record_unmapped (ms : list (list text)) :
  forallb (fun caps => negb (mapped caps)) ms = true ->
  forall st, fold_left record ms st = st.
Proof.
  induction ms as [|caps ms IH]; intros H st; [reflexivity|].
  cbn [forallb] in H. apply andb_prop in H. destruct H as [Hc Hm].
  cbn [fold_left]. rewrite IH by exact Hm. unfold record.
  unfold mapped in Hc.
  destruct (dict_get (group 2 caps) SERVICE_GETTERS); [discriminate|].
  reflexivity.
Qed.

End ExtractFacts.

(** * Facts about lines *)

Module LineFacts.
Import Py Re ReSpec PyFacts ReFacts SqueezeFacts.

(** What a text without newline begins a text with, it begins its first
    line with. *)
Lemma startswith_first_line (s : text) :
  forall w, newline_free w = true -> startswith w s = true ->
    startswith w (hd [] (split nl s)) = true.
Proof.
  induction s as [|c s IH]; intros w Hw H; [exact H|].
  destruct w as [|x w]; [reflexivity|].
  rewrite startswith_cons in H. apply andb_true_iff in H.
  destruct H as [Hx H]. apply Ascii.eqb_eq in Hx. subst x.
  cbn [newline_free forallb] in Hw. apply andb_true_iff in Hw.
  destruct Hw as [Hc Hw]. cbn [split].
  destruct (Ascii.eqb_spec c nl) as [->|Hn].
  - discriminate.
  - specialize (IH w Hw H). pose proof (split_nonempty nl s) as Hs.
    destruct (split nl s) as [|l ls]; [contradiction|].
    cbn [hd] in *. rewrite startswith_cons, Ascii.eqb_refl. exact IH.
Qed.

(** An occurrence of a text without newline lies within one line. *)
Lemma contains_lines (w : text) :
  w <> [] -> newline_free w = true ->
  forall s, contains w s = true ->
    exists l, In l (split nl s) /\ contains w l = true.
Proof.
  intros Hn Hw. induction s as [|c s IH]; intros H.
  - exists []. split; [left; reflexivity | exact H].
  - cbn [contains] in H. apply orb_true_iff in H.
    pose proof (split_nonempty nl s) as Hs.
    destruct H as [H|H].
    + exists (hd [] (split nl (c :: s))). split.
      * pose proof (split_nonempty nl (c :: s)).
        destruct (split nl (c :: s)); [contradiction | left; reflexivity].
      * pose proof (startswith_first_line (c :: s) w Hw H) as H1.
        destruct (hd [] (split nl (c :: s))); cbn [contains];
          rewrite H1; reflexivity.
    + destruct (IH H) as (l & Hin & Hl). cbn [split].
      destruct (Ascii.eqb c nl).
      * exists l. split; [right; exact Hin | exact Hl].
      * destruct (split nl s) as [|l0 ls]; [contradiction|].
        destruct Hin as [<-|Hin].
        -- exists (c :: l0). split; [left; reflexivity|].
           apply (contains_app_r w [c] l0). exact Hl.
        -- exists l. split; [right; exact Hin | exact Hl].
Qed.

Lemma In_insert (A : Type) (i : nat) (x y : A) (l : list A) :
  In x l -> In x (insert i y l).
Proof.
  intros H. unfold insert. rewrite <- (firstn_skipn i l) in H.
  apply in_app_or in H. apply in_or_app.
  destruct H; [left | right; right]; assumption.
Qed.

(** Inserting a line keeps the occurrences of a text without newline. *)
Lemma contains_insert_line (w line s : text) (i : nat) :
  w <> [] -> newline_free w = true -> contains w s = true ->
  contains w (join [nl] (insert i line (split nl s))) = true.
Proof.
  intros Hn Hw H. destruct (contains_lines w Hn Hw s H) as (l & Hin & Hl).
  apply (contains_join w [nl] _ l); [|exact Hl].
  apply In_insert. exact Hin.
Qed.

(** The inserted line is in the result. *)
Lemma contains_inserted (w line : text) (lines : list text) (i : nat) :
  contains w line = true ->
  contains w (join [nl] (insert i line lines)) = true.
Proof.
  intros H. apply (contains_join w [nl] _ line); [apply insert_In | exact H].
Qed.

(** The loop that looks for the last import line. *)
Lemma scan_imports_spec (lines : list text) :
  forall i acc,
    let r := Prisma.scan_imports i lines acc in
    (r = acc /\
     forall j, j < length lines ->
       startswith (str "import ") (nth j lines []) = false) \/
    (exists j, j < length lines /\ r = S (i + j) /\
       startswith (str "import ") (nth j lines []) = true /\
       forall j', j < j' -> j' < length lines ->
         startswith (str "import ") (nth j' lines []) = false).
Proof.
  induction lines as [|l rest IH]; intros i acc r.
  - left. split; [reflexivity|]. intros j Hj. simpl in Hj. lia.
  - subst r. cbn [Prisma.scan_imports].
    destruct (IH (S i) (if startswith (str "import ") l then S i else acc))
      as [[Hr Hnone] | (j & Hj & Hr & Hyes & Hlast)].
    + destruct (startswith (str "import ") l) eqn:El.
      * right. exists 0. repeat split.
        -- simpl. lia.
        -- rewrite Hr. f_equal. lia.
        -- exact El.
        -- intros j' H1 H2. destruct j' as [|j']; [lia|].
           apply Hnone. simpl in H2. lia.
      * left. split; [exact Hr|]. intros [|j] Hj; [exact El|].
        apply Hnone. simpl in Hj. lia.
    + right. exists (S j). repeat split.
      * simpl. lia.
      * rewrite Hr. f_equal. lia.
      * exact Hyes.
      * intros j' H1 H2. destruct j' as [|j']; [lia|].
        apply Hlast; simpl in H2; lia.
Qed.

(** The index found is one past the last line that starts with
    ["import "], and 0 when there is none. *)
Lemma insert_idx_spec (lines : list text) :
  let idx := Prisma.insert_idx lines in
  idx <= length lines /\
  (forall j, idx <= j -> j < length lines ->
     startswith (str "import ") (nth j lines []) = false) /\
  (idx = 0 \/ startswith (str "import ") (nth (idx - 1) lines []) = true).
Proof.
  unfold Prisma.insert_idx.
  destruct (scan_imports_spec lines 0 0)
    as [[Hr Hnone] | (j & Hj & Hr & Hyes & Hlast)]; rewrite Hr.
  - repeat split; [lia | intros; apply Hnone; assumption | left; reflexivity].
  - cbn [Nat.add]. repeat split.
    + lia.
    + intros j' H1 H2. apply Hlast; lia.
    + right. replace (S j - 1) with j by lia. exact Hyes.
Qed.

Lemma insert_idx_same : LazyInit.insert_idx = Prisma.insert_idx.
Proof. reflexivity. Qed.

End LineFacts.

(** * Facts about the output of fix-service-lazy-init.py *)

Module LazyFacts.
Import Py Re ReSpec Shapes PyFacts ReFacts DataFacts SqueezeFacts ExtractFacts.
Import LazyInit.

Lemma rstrip_space (s : text) (c : ascii) :
  is_space c = true -> rstrip (s ++ [c]) = rstrip s.
Proof.
  intros H. unfold rstrip. rewrite rev_unit. cbn [lstrip]. rewrite H.
  reflexivity.
Qed.

Lemma rstrip_keep (s : text) (c : ascii) :
  is_space c = false -> rstrip (s ++ [c]) = s ++ [c].
Proof.
  intros H. unfold rstrip. rewrite rev_unit. cbn [lstrip]. rewrite H.
  rewrite <- rev_unit. apply rev_involutive.
Qed.

Lemma rstrip_getter_import (used : list text) :
  rstrip (getter_import used) = getter_statement used.
Proof.
  unfold getter_import.
  replace (str "import { " ++ join (str ", ") (sorted used)
             ++ str " } from '@/lib/services';" ++ [nl])
    with (getter_statement used ++ [nl])
    by (unfold getter_statement; rewrite <- !app_assoc; reflexivity).
  rewrite rstrip_space by reflexivity.
  unfold getter_statement.
  change (str " } from '@/lib/services';")
    with (str " } from '@/lib/services'" ++ [";"%char]).
  rewrite !app_assoc. apply rstrip_keep. reflexivity.
Qed.

Lemma add_getter_import_eq (used : list text) (content : text) :
  used <> [] ->
  add_getter_import used content =
  join [nl]
    (insert (insert_idx (split nl content)) (getter_statement used)
       (split nl content)).
Proof.
  intros H. unfold add_getter_import. destruct used; [contradiction|].
  rewrite rstrip_getter_import. reflexivity.
Qed.

Lemma statement_guard (used : list text) :
  contains lib_services (getter_statement used) = true.
Proof.
  unfold getter_statement. apply contains_app_r, contains_app_r.
  reflexivity.
Qed.

(** The two records of step 1 on a text. *)
Lemma extract_empty (content : text) :
  fst (extract content) = [] <-> snd (extract content) = [].
Proof. apply fold_record_empty. cbn. tauto. Qed.

Lemma rewrite_cases (x : text) :
  (rewrite x = AlreadyMigrated /\ contains lib_services x = true) \/
  (rewrite x = NoInstantiation /\ contains lib_services x = false) \/
  (exists v u,
     contains lib_services x = false /\ extract x = (v, u) /\
     v <> [] /\ u <> [] /\
     rewrite x = Rewritten v (steps v u x)).
Proof.
  unfold rewrite. destruct (contains lib_services x) eqn:Hg; [auto|].
  right. pose proof (extract_empty x) as He.
  destruct (extract x) as [v u]. cbn [fst snd] in He.
  destruct v as [|i v]; [auto|]. right. exists (i :: v), u.
  repeat split; try discriminate.
  intros E. apply He in E. discriminate.
Qed.

Lemma steps_eq (v : dict) (u : list text) (x : text) :
  u <> [] ->
  steps v u x =
  squeeze
    (join [nl]
       (insert (insert_idx (split nl (pruned v x))) (getter_statement u)
          (split nl (pruned v x)))).
Proof.
  intros H. unfold steps. rewrite add_getter_import_eq by exact H.
  reflexivity.
Qed.

(** A text without newline that is in the new import statement is in the
    output. *)
Lemma steps_contains (w : text) (v : dict) (u : list text) (x : text) :
  u <> [] -> w <> [] -> newline_free w = true ->
  contains w (getter_statement u) = true ->
  contains w (steps v u x) = true.
Proof.
  intros Hu Hn Hw H. rewrite steps_eq by exact Hu.
  rewrite squeeze_same, squeeze_contains by assumption.
  apply LineFacts.contains_inserted. exact H.
Qed.

(** ** The names in the new import statement *)

Lemma dict_get_In (k v : text) (d : dict) :
  dict_get k d = Some v -> In v (map snd d).
Proof.
  induction d as [|[k' v'] d IH]; simpl; [discriminate|].
  destruct (text_eqb k k'); [intros [= ->]; auto | auto].
Qed.

Lemma getter_free (k g : text) :
  dict_get k SERVICE_GETTERS = Some g -> newline_free g = true.
Proof.
  intros H. apply dict_get_In in H.
  assert (Hall : forallb newline_free (map snd SERVICE_GETTERS) = true)
    by reflexivity.
  rewrite forallb_forall in Hall. auto.
Qed.

Lemma newline_free_app (a b : text) :
  newline_free (a ++ b) = newline_free a && newline_free b.
Proof. apply forallb_app. Qed.

Lemma newline_free_join (sep : text) (l : list text) :
  newline_free sep = true ->
  (forall g, In g l -> newline_free g = true) ->
  newline_free (join sep l) = true.
Proof.
  intros Hs. induction l as [|x l IH]; intros H; [reflexivity|].
  destruct l as [|y l]; [apply H; left; reflexivity|].
  rewrite join_cons by discriminate. rewrite !newline_free_app, Hs.
  rewrite (H x) by (left; reflexivity). rewrite IH; [reflexivity|].
  intros g Hg. apply H. right. exact Hg.
Qed.

Lemma sorted_In (l : list text) (g : text) : In g (sorted l) <-> In g l.
Proof.
  induction l as [|x l IH]; simpl; [tauto|].
  rewrite sorted_insert_In, IH. split; intros [H|H]; auto.
Qed.

Lemma used_getter (content : text) (g : text) :
  In g (snd (extract content)) <->
  exists caps, In caps (finditer inst_pattern content) /\
    dict_get (group 2 caps) SERVICE_GETTERS = Some g.
Proof.
  unfold extract. rewrite fold_record_used. cbn [snd In]. tauto.
Qed.

Lemma used_NoDup (content : text) : NoDup (snd (extract content)).
Proof. apply fold_record_NoDup. constructor. Qed.

Lemma statement_free (content : text) :
  newline_free (getter_statement (snd (extract content))) = true.
Proof.
  unfold getter_statement. rewrite !newline_free_app.
  rewrite newline_free_join; [reflexivity | reflexivity|].
  intros g Hg. apply sorted_In, used_getter in Hg.
  destruct Hg as (caps & _ & Hg). eapply getter_free. exact Hg.
Qed.

Lemma fix_text_rewritten (x : text) (v : dict) (u : list text) :
  contains lib_services x = false -> extract x = (v, u) -> v <> [] ->
  fix_text x = steps v u x.
Proof.
  intros Hg He Hv. unfold fix_text, rewrite. rewrite Hg, He.
  destruct v; [contradiction | reflexivity].
Qed.

(** With no class of the mapping instantiated, the text is kept. *)
Lemma fix_text_unmapped (x : text) :
  no_mapped x = true -> fix_text x = x.
Proof.
  intros H. unfold fix_text, rewrite.
  destruct (contains lib_services x); [reflexivity|].
  unfold extract. rewrite fold_record_unmapped by exact H. reflexivity.
Qed.

(** The output of a rewritten file has the guard string in it. *)
Lemma rewritten_guard (x : text) (v : dict) (c : text) :
  rewrite x = Rewritten v c -> contains lib_services c = true.
Proof.
  intros H.
  destruct (rewrite_cases x) as [[E _] | [[E _] | (v' & u & _ & _ & _ & Hu & E)]];
    rewrite E in H; try discriminate.
  injection H as _ <-.
  apply steps_contains; [exact Hu | discriminate | reflexivity|].
  apply statement_guard.
Qed.

Lemma lazy_idem (x : text) : fix_text (fix_text x) = fix_text x.
Proof.
  unfold fix_text at 2 3. destruct (rewrite x) as [| |v c] eqn:E.
  - unfold fix_text. rewrite E. reflexivity.
  - unfold fix_text. rewrite E. reflexivity.
  - apply rewritten_guard in E. unfold fix_text, rewrite. rewrite E.
    reflexivity.
Qed.

End LazyFacts.

(** * Facts about update-prisma-imports.py *)

Module PrismaFacts.
Import Py Re ReSpec Shapes PyFacts ReFacts SqueezeFacts Prisma.

Lemma from_flat : flatten from_pattern = Some (tests_of from_pattern).
Proof. reflexivity. Qed.

Lemma require_flat : flatten require_pattern = Some (tests_of require_pattern).
Proof. reflexivity. Qed.

Lemma quote_cases (q : ascii) : quote q = true -> q = squote \/ q = dquote.
Proof.
  unfold quote. intros H. apply orb_true_iff in H.
  destruct H as [H|H]; apply Ascii.eqb_eq in H; auto.
Qed.

(** The four ways of quoting a module name. *)
Ltac both_quotes H1 H2 :=
  destruct (quote_cases _ H1) as [->| ->];
  destruct (quote_cases _ H2) as [->| ->].

(** Every occurrence of the clause is rewritten, whatever is around it. *)
Lemma replace_imports_hit (a b : text) (q1 q2 : ascii) :
  quote q1 = true -> quote q2 = true ->
  replace_imports (a ++ from_clause q1 q2 ++ b) =
  replace_imports a ++ database_single ++ replace_imports b.
Proof.
  intros H1 H2. unfold replace_imports.
  apply (flat_hit from_pattern (tests_of from_pattern) from_flat eq_refl
           (fun _ => database_single) (from_clause q1 q2));
    both_quotes H1 H2; vm_compute; reflexivity.
Qed.

(** Every occurrence of the expression is rewritten, whatever is around
    it. *)
Lemma replace_require_hit (a b : text) (q1 q2 : ascii) :
  quote q1 = true -> quote q2 = true ->
  replace_require (a ++ require_expr q1 q2 ++ b) =
  replace_require a ++ str "prisma" ++ replace_require b.
Proof.
  intros H1 H2. unfold replace_require.
  apply (flat_hit require_pattern (tests_of require_pattern) require_flat
           eq_refl (fun _ => str "prisma") (require_expr q1 q2));
    both_quotes H1 H2; vm_compute; reflexivity.
Qed.

(** A text that neither pattern can touch goes through the substitution. *)
Lemma replace_imports_keeps (w s : text) :
  no_cross (tests_of from_pattern) w = true ->
  no_start (tests_of from_pattern) w = true ->
  contains w s = true -> contains w (replace_imports s) = true.
Proof.
  intros Hc Hs H. apply contains_iff in H. destruct H as (a & b & ->).
  unfold replace_imports.
  rewrite (flat_frame from_pattern (tests_of from_pattern) from_flat eq_refl
             _ w Hc Hs).
  apply contains_mid.
Qed.

Lemma replace_require_keeps (w s : text) :
  no_cross (tests_of require_pattern) w = true ->
  no_start (tests_of require_pattern) w = true ->
  contains w s = true -> contains w (replace_require s) = true.
Proof.
  intros Hc Hs H. apply contains_iff in H. destruct H as (a & b & ->).
  unfold replace_require.
  rewrite (flat_frame require_pattern (tests_of require_pattern)
             require_flat eq_refl _ w Hc Hs).
  apply contains_mid.
Qed.

(** Pattern 2 and the clean-up keep a text without newline that the require
    pattern cannot touch. *)
Lemma require_step_keeps (w s : text) :
  w <> [] -> newline_free w = true ->
  no_cross (tests_of require_pattern) w = true ->
  no_start (tests_of require_pattern) w = true ->
  contains w s = true -> contains w (require_step s) = true.
Proof.
  intros Hn Hw Hc Hs H. unfold require_step.
  destruct (has_require s); [|exact H].
  apply replace_require_keeps; [exact Hc | exact Hs|].
  destruct (contains import_prisma s); [exact H|].
  apply LineFacts.contains_insert_line; assumption.
Qed.

Lemma tail_keeps (w s : text) :
  w <> [] -> newline_free w = true ->
  no_cross (tests_of require_pattern) w = true ->
  no_start (tests_of require_pattern) w = true ->
  contains w s = true -> contains w (squeeze (require_step s)) = true.
Proof.
  intros Hn Hw Hc Hs H. rewrite squeeze_contains by assumption.
  apply require_step_keeps; assumption.
Qed.

Lemma has_require_kept (x : text) :
  has_require x = true -> has_require (replace_imports x) = true.
Proof.
  unfold has_require. intros H. apply orb_true_iff in H.
  apply orb_true_iff. destruct H as [H|H]; [left | right];
    (apply replace_imports_keeps; [vm_compute; reflexivity.. | exact H]).
Qed.


(** Example 3 with anything around it. *)
Lemma example3_replaced (a b : text) :
  contains Inputs.example3_out
    (replace_imports (a ++ Inputs.example3 ++ b)) = true.
Proof.
  set (P := str "import { PrismaClient } ").
  set (Q := str ";").
  change Inputs.example3 with (P ++ from_clause squote squote ++ Q).
  replace (a ++ (P ++ from_clause squote squote ++ Q) ++ b)
    with ((a ++ P ++ []) ++ from_clause squote squote ++ (Q ++ b))
    by (rewrite app_nil_r, <- !app_assoc; reflexivity).
  rewrite replace_imports_hit by reflexivity.
  unfold replace_imports.
  rewrite (flat_frame from_pattern (tests_of from_pattern) from_flat eq_refl
             _ P eq_refl eq_refl).
  rewrite (flat_no_start from_pattern (tests_of from_pattern) from_flat
             _ Q b eq_refl).
  change (sub from_pattern (fun _ => database_single) []) with (@nil ascii).
  rewrite app_nil_r.
  replace ((sub from_pattern (fun _ => database_single) a ++ P)
             ++ database_single ++ Q ++ sub from_pattern (fun _ => database_single) b)
    with (sub from_pattern (fun _ => database_single) a
            ++ Inputs.example3_out
            ++ sub from_pattern (fun _ => database_single) b).
  - apply contains_mid.
  - change Inputs.example3_out with (P ++ database_single ++ Q).
    rewrite <- !app_assoc. reflexivity.
Qed.

Lemma fix_text_unguarded (x : text) :
  guard x = false -> fix_text x = squeeze (require_step (replace_imports x)).
Proof. intros H. unfold fix_text, rewrite, steps. rewrite H. reflexivity. Qed.


(** ** The second pass *)

Lemma guard_of_single (y : text) :
  contains database_single y = true -> guard y = true.
Proof. intros H. unfold guard. rewrite H. reflexivity. Qed.

(** When Pattern 1 rewrote a clause, or Pattern 2 put the import line in,
    the guard fires on the output. *)
Lemma output_guard (x : text) :
  guard x = false ->
  contains database_single (replace_imports x) = true \/
  (has_require (replace_imports x) = true /\
   contains import_prisma (replace_imports x) = false) ->
  guard (fix_text x) = true.
Proof.
  intros Hg H. rewrite fix_text_unguarded by exact Hg.
  apply guard_of_single. destruct H as [H | [Hr Hp]].
  - apply tail_keeps;
      [discriminate | reflexivity | vm_compute; reflexivity
      | vm_compute; reflexivity | exact H].
  - rewrite squeeze_contains by (discriminate || reflexivity).
    unfold require_step. rewrite Hr, Hp. cbn [negb].
    apply replace_require_keeps;
      [vm_compute; reflexivity | vm_compute; reflexivity|].
    apply LineFacts.contains_inserted. vm_compute. reflexivity.
Qed.

Lemma clause_occurs (a b : text) (q1 q2 : ascii) :
  quote q1 = true -> quote q2 = true ->
  occurs (tests_of from_pattern) (a ++ from_clause q1 q2 ++ b) = true.
Proof.
  intros H1 H2. apply occurs_intro; both_quotes H1 H2;
    (discriminate || (vm_compute; reflexivity)).
Qed.


End PrismaFacts.

(** * Facts about the texts a pattern needs *)

Module NeedsFacts.
Import Py Re ReSpec Shapes PyFacts ReFacts.

Lemma exact_sound (r : regex) prev m rest caps :
  matches r prev m rest caps -> forall w, exact r = Some w -> m = w.
Proof.
  induction 1; intros w E; cbn [exact] in E; try discriminate;
    try (injection E as <-; reflexivity).
  - destruct (exact r1) as [a|]; [|discriminate].
    destruct (exact r2) as [b|]; [|discriminate].
    injection E as <-. rewrite (IHmatches1 a), (IHmatches2 b); reflexivity.
  - apply IHmatches. exact E.
Qed.

Lemma startswith_app_same (a w m : text) :
  startswith w m = true -> startswith (a ++ w) (a ++ m) = true.
Proof.
  intros H. apply startswith_iff in H. destruct H as [t ->].
  rewrite app_assoc. apply startswith_app.
Qed.

Lemma head_sound (r : regex) prev m rest caps :
  matches r prev m rest caps -> startswith (head_of r) m = true.
Proof.
  induction 1; cbn [head_of]; try reflexivity.
  - cbn. rewrite Ascii.eqb_refl. reflexivity.
  - destruct (exact r1) as [a|] eqn:E.
    + rewrite (exact_sound _ _ _ _ _ H a E).
      apply startswith_app_same. exact IHmatches2.
    + apply startswith_iff in IHmatches1. destruct IHmatches1 as [t ->].
      rewrite <- app_assoc. apply startswith_app.
  - exact IHmatches.
Qed.

Lemma tail_sound (r : regex) prev m rest caps :
  matches r prev m rest caps -> exists a, m = a ++ tail_of r.
Proof.
  induction 1; cbn [tail_of];
    try (eexists; rewrite app_nil_r; reflexivity).
  - exists []. reflexivity.
  - destruct IHmatches1 as [a1 E1]. destruct IHmatches2 as [a2 E2].
    destruct (exact r2) as [b|] eqn:E.
    + rewrite (exact_sound _ _ _ _ _ H0 b E).
      exists a1. rewrite E1, app_assoc. reflexivity.
    + exists (m1 ++ a2). rewrite E2 at 1. rewrite app_assoc. reflexivity.
  - exact IHmatches.
Qed.

Lemma contains_within (w t a b : text) :
  contains w t = true -> contains w (a ++ t ++ b) = true.
Proof. intros H. apply contains_app_r, contains_app_l. exact H. Qed.

(** Every match of a pattern that needs [w] has [w] in it. *)
Lemma needs_sound (w : text) (r : regex) prev m rest caps :
  matches r prev m rest caps -> needs w r = true -> contains w m = true.
Proof.
  induction 1; intros N; cbn [needs] in N; try discriminate.
  - exact N.
  - apply orb_true_iff in N. destruct N as [N|N].
    + apply orb_true_iff in N. destruct N as [N|N].
      * apply contains_app_l. auto.
      * apply contains_app_r. auto.
    + destruct (tail_sound _ _ _ _ _ H) as [a ->].
      pose proof (head_sound _ _ _ _ _ H0) as Hh.
      apply startswith_iff in Hh. destruct Hh as [b ->].
      rewrite <- app_assoc. rewrite (app_assoc (tail_of r1)).
      apply contains_within. exact N.
  - auto.
Qed.

Lemma contains_suffix_of (w a x : text) :
  contains w x = true -> contains w (a ++ x) = true.
Proof. apply contains_app_r. Qed.

(** A text without [w] has no match of a pattern that needs [w]. *)
Lemma needs_matchless (w : text) (r : regex) (s : text) prev :
  needs w r = true -> contains w s = false -> matchless r prev s.
Proof.
  intros N H a1 x -> Hx.
  destruct (match_at r (prev_after prev a1) x) as [[caps rest]|] eqn:E;
    [|reflexivity].
  destruct (match_at_sound _ _ _ _ _ E) as (m & -> & Hm).
  pose proof (needs_sound w r _ _ _ _ Hm N) as Hc.
  rewrite (contains_app_r w a1 (m ++ rest)) in H; [discriminate|].
  apply contains_app_l. exact Hc.
Qed.

Lemma hits_matchless (r : regex) :
  forall s prev, matchless r prev s -> hits (scan r prev s 0) = [].
Proof.
  induction s as [|c s IH]; intros prev H; [reflexivity|].
  rewrite scan_keep.
  - cbn [hits]. apply IH. eapply matchless_tail; eauto.
  - apply (H [] (c :: s)); [reflexivity | discriminate].
Qed.

(** Without [w], a substitution with such a pattern returns the text, and
    [finditer] finds nothing. *)
Lemma needs_sub (w : text) (r : regex) (f : list text -> text) (s : text) :
  needs w r = true -> contains w s = false -> sub r f s = s.
Proof.
  intros N H. apply sub_from_matchless. apply (needs_matchless w); assumption.
Qed.

Lemma needs_finditer (w : text) (r : regex) (s : text) :
  needs w r = true -> contains w s = false -> finditer r s = [].
Proof.
  intros N H. apply hits_matchless. apply (needs_matchless w); assumption.
Qed.

Lemma exact_lit (w : text) : exact (lit w) = Some w.
Proof.
  induction w as [|c w IH]; [reflexivity|]. cbn [lit exact]. rewrite IH.
  reflexivity.
Qed.

Lemma tail_of_lit (w : text) : tail_of (lit w) = w.
Proof.
  induction w as [|c w IH]; [reflexivity|]. cbn [lit tail_of].
  rewrite exact_lit. reflexivity.
Qed.

Lemma contains_refl (w : text) : contains w w = true.
Proof.
  pose proof (contains_mid w [] []) as H. cbn [app] in H.
  rewrite app_nil_r in H. exact H.
Qed.

Lemma call_needs (v : text) :
  needs (v ++ str ".") (LazyInit.call_pattern v) = true.
Proof.
  unfold LazyInit.call_pattern. cbn [seq needs head_of tail_of exact].
  rewrite tail_of_lit. cbn [app].
  change (str ".") with ["."%char].
  rewrite contains_refl, !orb_true_r. reflexivity.
Qed.

Lemma contains_trans (a b s : text) :
  contains a b = true -> contains b s = true -> contains a s = true.
Proof.
  intros H1 H2. apply contains_iff in H2. destruct H2 as (x & y & ->).
  apply contains_within. exact H1.
Qed.

End NeedsFacts.

(** * Facts about the loops of [main] *)

Module RunFacts.
Import Py Re Host Run ReSpec Shapes PyFacts DataFacts.

Lemma distinct_NoDup (l : list text) : distinct l = true -> NoDup l.
Proof.
  induction l as [|x l IH]; intros H; [constructor|].
  cbn [distinct] in H. apply andb_prop in H. destruct H as [Hx Hl].
  constructor; [|auto]. intros Hin. apply mem_In in Hin.
  rewrite Hin in Hx. discriminate.
Qed.

Lemma distinct_filter (f : text -> bool) (l : list text) :
  distinct l = true -> distinct (filter f l) = true.
Proof.
  induction l as [|x l IH]; intros H; [reflexivity|].
  cbn [distinct] in H. apply andb_prop in H. destruct H as [Hx Hl].
  cbn [filter]. destruct (f x); [|auto]. cbn [distinct].
  rewrite (IH Hl), andb_true_r. apply negb_true_iff.
  apply negb_true_iff in Hx.
  destruct (mem x (filter f l)) eqn:E; [|reflexivity].
  apply mem_In, filter_In in E. destruct E as [E _].
  apply mem_In in E. congruence.
Qed.

Lemma mem_cons (q x : text) (l : list text) :
  mem q (x :: l) = text_eqb q x || mem q l.
Proof. reflexivity. Qed.

(** ** The discovery loop *)

Lemma collect_readable (trigger : text -> bool) (s : state) :
  forall ts_files files,
    forallb (readable s) ts_files = true ->
    collect trigger ts_files files s =
    Some (files ++ filter (passes trigger s) ts_files).
Proof.
  induction ts_files as [|p ts IH]; intros files H.
  - cbn. rewrite app_nil_r. reflexivity.
  - cbn [forallb] in H. apply andb_prop in H. destruct H as [Hp H].
    cbn [collect filter]. unfold readable, passes in *.
    destruct (tree s p) as [c|]; [|discriminate].
    rewrite IH by exact H. destruct (trigger c); [|reflexivity].
    rewrite <- app_assoc. reflexivity.
Qed.

Lemma collect_unreadable (trigger : text -> bool) (s : state) :
  forall ts_files files,
    forallb (readable s) ts_files = false ->
    collect trigger ts_files files s = None.
Proof.
  induction ts_files as [|p ts IH]; intros files H; [discriminate|].
  cbn [forallb] in H. cbn [collect]. unfold readable in H at 1.
  destruct (tree s p) as [c|]; [|reflexivity].
  cbn [andb] in H. apply IH. exact H.
Qed.

Lemma readable_filter (f : text -> bool) (s : state) (l : list text) :
  forallb (readable s) l = true -> forallb (readable s) (filter f l) = true.
Proof.
  rewrite !forallb_forall. intros H p Hp. apply filter_In in Hp.
  apply H. tauto.
Qed.

(** ** The loop over the files found *)

Section Loop.

Variable fix_file : path -> world -> option (bool * world).
Variable fix_text : text -> text.

(** What the loop needs to know of [fix_file]. *)
Hypothesis fix_file_spec :
  forall p w c,
    read_text p w = Some c ->
    exists w',
      fix_file p w = Some (negb (text_eqb (fix_text c) c), w') /\
      (forall q, files w' q =
                 if text_eqb q p then Some (fix_text c) else files w q) /\
      exists msgs, stdout w' = stdout w ++ msgs.

Lemma call_spec (p : path) (s : state) (c : text) :
  tree s p = Some c ->
  exists s',
    call fix_file p s = Some (negb (text_eqb (fix_text c) c), s') /\
    (forall q, tree s' q =
               if text_eqb q p then Some (fix_text c) else tree s q) /\
    exists lines, out s' = out s ++ lines /\ forallb per_file lines = true.
Proof.
  intros H.
  destruct (fix_file_spec p (World (tree s) []) c H)
    as (w' & E & Hf & msgs & Hm).
  unfold call. rewrite E. eexists. split; [reflexivity|]. split.
  - exact Hf.
  - exists (map PerFile (stdout w')). split; [reflexivity|].
    rewrite forallb_forall. intros l Hl. apply in_map_iff in Hl.
    destruct Hl as (m & <- & _). reflexivity.
Qed.

Lemma readable_after (s s' : state) (p : path) (c : text) (l : list text) :
  (forall q, tree s' q = if text_eqb q p then Some c else tree s q) ->
  forallb (readable s) l = true -> forallb (readable s') l = true.
Proof.
  intros Hf. rewrite !forallb_forall. intros H q Hq. specialize (H q Hq).
  unfold readable in *. rewrite Hf. destruct (text_eqb q p); [reflexivity|].
  exact H.
Qed.

(** Files that the rewrite leaves as they are: the loop changes nothing
    and counts nothing. *)
Lemma fix_each_fixed :
  forall paths k s,
    (forall p, In p paths ->
       exists c, tree s p = Some c /\ fix_text c = c) ->
    exists s',
      fix_each fix_file paths k s = Done k s' /\
      (forall q, tree s' q = tree s q) /\
      exists lines, out s' = out s ++ lines /\ forallb per_file lines = true.
Proof.
  induction paths as [|p paths IH]; intros k s H.
  - exists s. split; [reflexivity|]. split; [reflexivity|].
    exists []. rewrite app_nil_r. split; reflexivity.
  - destruct (H p (or_introl eq_refl)) as (c & Hc & Hfix).
    destruct (call_spec p s c Hc) as (s1 & E & Hf & l1 & Ho1 & Hl1).
    assert (Hsame : forall q, tree s1 q = tree s q).
    { intros q. rewrite Hf. destruct (text_eqb q p) eqn:Eq; [|reflexivity].
      apply text_eqb_eq in Eq. subst q. rewrite Hfix, Hc. reflexivity. }
    cbn [fix_each]. rewrite E, Hfix, text_eqb_refl. cbn [negb].
    destruct (IH k s1) as (s' & E' & Hf' & l2 & Ho2 & Hl2).
    { intros q Hq. rewrite Hsame. apply H. right. exact Hq. }
    exists s'. split; [exact E'|]. split.
    + intros q. rewrite Hf', Hsame. reflexivity.
    + exists (l1 ++ l2). rewrite Ho2, Ho1, <- app_assoc. split; [reflexivity|].
      rewrite forallb_app, Hl1, Hl2. reflexivity.
Qed.

(** Files that are pairwise different: each goes through the rewrite once,
    and the count is the number of those it changes. *)
Lemma fix_each_distinct :
  forall paths k s,
    distinct paths = true ->
    forallb (readable s) paths = true ->
    exists s',
      fix_each fix_file paths k s =
        Done (k + length (filter (fun p => changes fix_text (tree s p)) paths))
          s' /\
      (forall q, tree s' q =
                 if mem q paths then option_map fix_text (tree s q)
                 else tree s q) /\
      exists lines, out s' = out s ++ lines /\ forallb per_file lines = true.
Proof.
  induction paths as [|p paths IH]; intros k s Hd Hr.
  - exists s. rewrite Nat.add_0_r. split; [reflexivity|].
    split; [reflexivity|]. exists []. rewrite app_nil_r. split; reflexivity.
  - cbn [distinct] in Hd. apply andb_prop in Hd. destruct Hd as [Hp Hd].
    apply negb_true_iff in Hp.
    cbn [forallb] in Hr. apply andb_prop in Hr. destruct Hr as [Hrp Hr].
    unfold readable in Hrp. destruct (tree s p) as [c|] eqn:Hc;
      [|discriminate].
    destruct (call_spec p s c Hc) as (s1 & E & Hf & l1 & Ho1 & Hl1).
    cbn [fix_each]. rewrite E.
    destruct (IH (if negb (text_eqb (fix_text c) c) then S k else k) s1 Hd)
      as (s' & E' & Hf' & l2 & Ho2 & Hl2).
    { eapply readable_after; eauto. }
    assert (Hrest : forall q, In q paths -> tree s1 q = tree s q).
    { intros q Hq. rewrite Hf. destruct (text_eqb q p) eqn:Eq; [|reflexivity].
      apply text_eqb_eq in Eq. subst q. apply mem_In in Hq. congruence. }
    exists s'. split; [|split].
    + rewrite E'. f_equal. cbn [filter]. rewrite Hc. cbn [changes].
      rewrite (filter_ext_in (fun q => changes fix_text (tree s1 q))
                 (fun q => changes fix_text (tree s q)))
        by (intros q Hq; rewrite Hrest by exact Hq; reflexivity).
      destruct (negb (text_eqb (fix_text c) c)); cbn [length]; lia.
    + intros q. rewrite Hf', Hf, mem_cons.
      destruct (text_eqb q p) eqn:Eq; cbn [orb].
      * apply text_eqb_eq in Eq. subst q. rewrite Hp, Hc. reflexivity.
      * reflexivity.
    + exists (l1 ++ l2). rewrite Ho2, Ho1, <- app_assoc. split; [reflexivity|].
      rewrite forallb_app, Hl1, Hl2. reflexivity.
Qed.

(** A rewrite that does nothing the second time: whatever the list, each
    of its files goes through the rewrite, and the count is at most the
    number of files. *)
Hypothesis fix_text_idem : forall c, fix_text (fix_text c) = fix_text c.

Lemma fix_each_idem :
  forall paths k s,
    forallb (readable s) paths = true ->
    exists k' s',
      fix_each fix_file paths k s = Done k' s' /\
      k <= k' <= k + length paths /\
      (forall q, tree s' q =
                 if mem q paths then option_map fix_text (tree s q)
                 else tree s q) /\
      exists lines, out s' = out s ++ lines /\ forallb per_file lines = true.
Proof.
  induction paths as [|p paths IH]; intros k s Hr.
  - exists k, s. split; [reflexivity|]. split; [cbn; lia|].
    split; [reflexivity|]. exists []. rewrite app_nil_r. split; reflexivity.
  - cbn [forallb] in Hr. apply andb_prop in Hr. destruct Hr as [Hrp Hr].
    unfold readable in Hrp. destruct (tree s p) as [c|] eqn:Hc;
      [|discriminate].
    destruct (call_spec p s c Hc) as (s1 & E & Hf & l1 & Ho1 & Hl1).
    cbn [fix_each]. rewrite E.
    destruct (IH (if negb (text_eqb (fix_text c) c) then S k else k) s1)
      as (k' & s' & E' & Hk & Hf' & l2 & Ho2 & Hl2).
    { eapply readable_after; eauto. }
    exists k', s'. split; [exact E'|]. split; [|split].
    + cbn [length]. destruct (negb (text_eqb (fix_text c) c)); lia.
    + intros q. rewrite Hf', Hf, mem_cons.
      destruct (text_eqb q p) eqn:Eq; cbn [orb].
      * apply text_eqb_eq in Eq. subst q. rewrite Hc. cbn [option_map].
        rewrite fix_text_idem. destruct (mem p paths); reflexivity.
      * reflexivity.
    + exists (l1 ++ l2). rewrite Ho2, Ho1, <- app_assoc. split; [reflexivity|].
      rewrite forallb_app, Hl1, Hl2. reflexivity.
Qed.

End Loop.

End RunFacts.

(** * Facts about [main] of the two scripts *)

Module MainFacts.
Import Py Re Host Run ReSpec Shapes PyFacts ReFacts DataFacts NeedsFacts RunFacts.

(** ** What the loops need to know of the two [fix_file] *)

Lemma lazy_fix_file_spec (p : path) (w : world) (c : text) :
  read_text p w = Some c ->
  exists w',
    LazyInit.fix_file p w
      = Some (negb (text_eqb (LazyInit.fix_text c) c), w') /\
    (forall q, files w' q =
               if text_eqb q p then Some (LazyInit.fix_text c)
               else files w q) /\
    exists msgs, stdout w' = stdout w ++ msgs.
Proof.
  intros H. unfold LazyInit.fix_file, LazyInit.fix_text. rewrite H.
  assert (Hsame : forall q, files w q =
                    if text_eqb q p then Some c else files w q).
  { intros q. destruct (text_eqb q p) eqn:E; [|reflexivity].
    apply text_eqb_eq in E. subst q. exact H. }
  destruct (LazyInit.rewrite c) as [| |v content].
  - rewrite text_eqb_refl. eexists. split; [reflexivity|].
    split; [exact Hsame|]. eexists. reflexivity.
  - rewrite text_eqb_refl. eexists. split; [reflexivity|].
    split; [exact Hsame|]. eexists. reflexivity.
  - destruct (text_eqb content c) eqn:E; cbn [negb].
    + apply text_eqb_eq in E. subst content. eexists.
      split; [reflexivity|]. split; [exact Hsame|].
      cbn [print stdout]. rewrite <- !app_assoc. eexists. reflexivity.
    + eexists. split; [reflexivity|]. split; [reflexivity|].
      cbn [print write_text stdout]. rewrite <- !app_assoc. eexists.
      reflexivity.
Qed.

Lemma prisma_fix_file_spec (p : path) (w : world) (c : text) :
  read_text p w = Some c ->
  exists w',
    Prisma.fix_file p w = Some (negb (text_eqb (Prisma.fix_text c) c), w') /\
    (forall q, files w' q =
               if text_eqb q p then Some (Prisma.fix_text c) else files w q) /\
    exists msgs, stdout w' = stdout w ++ msgs.
Proof.
  intros H. unfold Prisma.fix_file, Prisma.fix_text. rewrite H.
  assert (Hsame : forall q, files w q =
                    if text_eqb q p then Some c else files w q).
  { intros q. destruct (text_eqb q p) eqn:E; [|reflexivity].
    apply text_eqb_eq in E. subst q. exact H. }
  destruct (Prisma.rewrite c) as [|content].
  - rewrite text_eqb_refl. eexists. split; [reflexivity|].
    split; [exact Hsame|]. eexists. reflexivity.
  - destruct (text_eqb content c) eqn:E; cbn [negb].
    + apply text_eqb_eq in E. subst content. eexists.
      split; [reflexivity|]. split; [exact Hsame|].
      cbn [print stdout]. rewrite <- !app_assoc. eexists. reflexivity.
    + eexists. split; [reflexivity|]. split; [reflexivity|].
      cbn [print write_text stdout]. rewrite <- !app_assoc. eexists.
      reflexivity.
Qed.

(** ** The test of [find_route_files] and the rewrite *)

Lemma untriggered_finditer (x : text) :
  LazyInit.has_instantiation x = false ->
  finditer LazyInit.inst_pattern x = [].
Proof.
  unfold LazyInit.has_instantiation. intros H.
  apply andb_false_iff in H. destruct H as [H|H].
  - apply (needs_finditer (str "new")); [reflexivity | exact H].
  - apply (needs_finditer (str "Service()")); [reflexivity | exact H].
Qed.

Lemma untriggered_fix_text (x : text) :
  LazyInit.has_instantiation x = false -> LazyInit.fix_text x = x.
Proof.
  intros H. apply LazyFacts.fix_text_unmapped. unfold no_mapped.
  rewrite untriggered_finditer by exact H. reflexivity.
Qed.

(** ** The client name and the rewrite of update-prisma-imports.py *)

Lemma client_free_steps (x : text) :
  contains Prisma.prisma_client x = false ->
  Prisma.steps x = Prisma.squeeze x.
Proof.
  intros H. unfold Prisma.steps.
  assert (E1 : Prisma.replace_imports x = x)
    by (apply (needs_sub Prisma.prisma_client); [reflexivity | exact H]).
  rewrite E1. unfold Prisma.require_step, Prisma.has_require.
  assert (E2 : contains Prisma.require_single x = false).
  { destruct (contains Prisma.require_single x) eqn:E; [|reflexivity].
    rewrite (contains_trans Prisma.prisma_client Prisma.require_single x)
      in H; [discriminate | reflexivity | exact E]. }
  assert (E3 : contains Prisma.require_double x = false).
  { destruct (contains Prisma.require_double x) eqn:E; [|reflexivity].
    rewrite (contains_trans Prisma.prisma_client Prisma.require_double x)
      in H; [discriminate | reflexivity | exact E]. }
  rewrite E2, E3. reflexivity.
Qed.

(** ** Lists of paths *)

Lemma mem_filter (f : text -> bool) (q : text) (l : list text) :
  mem q (filter f l) = mem q l && f q.
Proof.
  destruct (mem q (filter f l)) eqn:E.
  - apply mem_In, filter_In in E. destruct E as [E1 E2].
    apply mem_In in E1. rewrite E1, E2. reflexivity.
  - destruct (mem q l) eqn:E1; [|reflexivity].
    destruct (f q) eqn:E2; [|reflexivity].
    assert (H : In q (filter f l))
      by (apply filter_In; split; [apply mem_In; exact E1 | exact E2]).
    apply mem_In in H. congruence.
Qed.

Lemma filter_within (A : Type) (f g : A -> bool) (l : list A) :
  (forall x, g x = true -> f x = true) ->
  filter g (filter f l) = filter g l.
Proof.
  intros H. induction l as [|x l IH]; [reflexivity|]. cbn [filter].
  destruct (f x) eqn:Ef; cbn [filter].
  - rewrite IH. reflexivity.
  - destruct (g x) eqn:Eg; [|exact IH]. rewrite (H x Eg) in Ef.
    discriminate.
Qed.

Lemma filter_both (A : Type) (f g : A -> bool) (l : list A) :
  filter g (filter f l) = filter (fun x => f x && g x) l.
Proof.
  induction l as [|x l IH]; [reflexivity|]. cbn [filter].
  destruct (f x); cbn [filter andb]; rewrite IH; reflexivity.
Qed.

Lemma filter_length_le (A : Type) (f : A -> bool) (l : list A) :
  length (filter f l) <= length l.
Proof.
  induction l as [|x l IH]; [cbn; lia|]. cbn [filter].
  destruct (f x); cbn [length]; lia.
Qed.

(** ** [main] of fix-service-lazy-init.py *)

Lemma lazy_changes_passes (s : state) (p : path) :
  changes LazyInit.fix_text (tree s p) = true ->
  passes LazyInit.has_instantiation s p = true.
Proof.
  unfold changes, passes. destruct (tree s p) as [c|]; [|discriminate].
  intros H. destruct (LazyInit.has_instantiation c) eqn:E; [reflexivity|].
  rewrite (untriggered_fix_text c E), text_eqb_refl in H. discriminate.
Qed.

Lemma lazy_main_unreadable (ts_files : list path) (s : state) :
  forallb (readable s) ts_files = false ->
  LazyInit.main ts_files s = Raised s.
Proof.
  intros H. unfold LazyInit.main, LazyInit.find_route_files.
  rewrite collect_unreadable by exact H. reflexivity.
Qed.

Lemma lazy_main_spec (ts_files : list path) (s : state) :
  forallb (readable s) ts_files = true ->
  exists fixed_count s' lines,
    LazyInit.main ts_files s = Done tt s' /\
    (forall q, tree s' q =
               if mem q ts_files
               then option_map LazyInit.fix_text (tree s q)
               else tree s q) /\
    out s' =
      out s
        ++ Found (length (filter (passes LazyInit.has_instantiation s)
                            ts_files))
             (str "route files to check")
        :: lines
        ++ [FixedCount fixed_count
              (length (filter (passes LazyInit.has_instantiation s)
                         ts_files))] /\
    forallb per_file lines = true /\
    fixed_count
      <= length (filter (passes LazyInit.has_instantiation s) ts_files) /\
    (distinct ts_files = true ->
     fixed_count =
       length (filter (fun p => changes LazyInit.fix_text (tree s p))
                 ts_files)).
Proof.
  intros Hr. unfold LazyInit.main, LazyInit.find_route_files.
  rewrite collect_readable by exact Hr. cbn [app]. cbv zeta.
  set (found := filter (passes LazyInit.has_instantiation s) ts_files).
  set (s0 := say (Found _ _) s).
  assert (Hr0 : forallb (readable s0) found = true)
    by (apply (readable_filter _ s), Hr).
  assert (Hmap : forall s',
            (forall q, tree s' q =
                       if mem q found
                       then option_map LazyInit.fix_text (tree s0 q)
                       else tree s0 q) ->
            forall q, tree s' q =
                      if mem q ts_files
                      then option_map LazyInit.fix_text (tree s q)
                      else tree s q).
  { intros s' Hf q. rewrite Hf. unfold found. rewrite mem_filter.
    change (tree s0 q) with (tree s q).
    destruct (mem q ts_files) eqn:Em; cbn [andb]; [|reflexivity].
    unfold passes. apply mem_In in Em.
    rewrite forallb_forall in Hr. specialize (Hr q Em).
    unfold readable in Hr. destruct (tree s q) as [c|]; [|discriminate].
    destruct (LazyInit.has_instantiation c) eqn:E; [reflexivity|].
    cbn [option_map]. rewrite untriggered_fix_text by exact E. reflexivity. }
  destruct (distinct ts_files) eqn:Hd.
  - destruct (fix_each_distinct LazyInit.fix_file LazyInit.fix_text
                lazy_fix_file_spec found 0 s0
                (distinct_filter _ _ Hd) Hr0)
      as (s' & E & Hf & lines & Ho & Hl).
    eexists _, _, lines. split; [rewrite E; reflexivity|].
    split; [exact (Hmap s' Hf)|]. cbn [say out tree]. rewrite Ho.
    unfold s0. cbn [say out]. rewrite <- !app_assoc. cbn [app].
    split; [reflexivity|]. split; [exact Hl|]. cbn [Nat.add]. split.
    + apply filter_length_le.
    + intros _. unfold found. apply f_equal.
      change (fun p => changes LazyInit.fix_text (tree s0 p))
        with (fun p => changes LazyInit.fix_text (tree s p)).
      apply filter_within. intros p. apply lazy_changes_passes.
  - destruct (fix_each_idem LazyInit.fix_file LazyInit.fix_text
                lazy_fix_file_spec LazyFacts.lazy_idem found 0 s0 Hr0)
      as (k & s' & E & Hk & Hf & lines & Ho & Hl).
    exists k, (say (FixedCount k (length found)) s'), lines.
    split; [rewrite E; reflexivity|]. split; [exact (Hmap s' Hf)|].
    cbn [say out tree]. rewrite Ho. unfold s0. cbn [say out].
    rewrite <- !app_assoc. cbn [app].
    split; [reflexivity|]. split; [exact Hl|]. split; [lia|].
    discriminate.
Qed.

(** After a run, every listed file is left as it is by the rewrite. *)
Lemma lazy_main_again (ts_files : list path) (s s1 : state) :
  forallb (readable s) ts_files = true ->
  (forall q, tree s1 q =
             if mem q ts_files
             then option_map LazyInit.fix_text (tree s q)
             else tree s q) ->
  exists s2 lines,
    LazyInit.main ts_files s1 = Done tt s2 /\
    (forall q, tree s2 q = tree s1 q) /\
    out s2 =
      out s1
        ++ Found (length (filter (passes LazyInit.has_instantiation s1)
                            ts_files))
             (str "route files to check")
        :: lines
        ++ [FixedCount 0
              (length (filter (passes LazyInit.has_instantiation s1)
                         ts_files))] /\
    forallb per_file lines = true.
Proof.
  intros Hr H1.
  assert (Hfixed : forall p, In p ts_files ->
            exists c, tree s1 p = Some c /\ LazyInit.fix_text c = c).
  { intros p Hp. rewrite H1. pose proof Hp as Hm. apply mem_In in Hm.
    rewrite Hm. rewrite forallb_forall in Hr. specialize (Hr p Hp).
    unfold readable in Hr. destruct (tree s p) as [c|]; [|discriminate].
    exists (LazyInit.fix_text c). split; [reflexivity|].
    apply LazyFacts.lazy_idem. }
  assert (Hr1 : forallb (readable s1) ts_files = true).
  { rewrite forallb_forall. intros p Hp.
    destruct (Hfixed p Hp) as (c & Hc & _). unfold readable. rewrite Hc.
    reflexivity. }
  unfold LazyInit.main, LazyInit.find_route_files.
  rewrite collect_readable by exact Hr1. cbn [app]. cbv zeta.
  set (found := filter (passes LazyInit.has_instantiation s1) ts_files).
  set (s0 := say (Found _ _) s1).
  destruct (fix_each_fixed LazyInit.fix_file LazyInit.fix_text
              lazy_fix_file_spec found 0 s0)
    as (s' & E & Hf & lines & Ho & Hl).
  { intros p Hp. apply filter_In in Hp. apply Hfixed. tauto. }
  eexists _, lines. split; [rewrite E; reflexivity|].
  split; [exact Hf|]. cbn [say out tree]. rewrite Ho. unfold s0. cbn [say out].
  rewrite <- !app_assoc. cbn [app]. split; [reflexivity | exact Hl].
Qed.

(** ** [main] of update-prisma-imports.py *)

Lemma prisma_main_unreadable (ts_files : list path) (s : state) :
  forallb (readable s) ts_files = false ->
  Prisma.main ts_files s = Raised s.
Proof.
  intros H. unfold Prisma.main.
  rewrite collect_unreadable by exact H. reflexivity.
Qed.

Lemma prisma_main_spec (ts_files : list path) (s : state) :
  distinct ts_files = true ->
  forallb (readable s) ts_files = true ->
  exists s' lines,
    Prisma.main ts_files s = Done tt s' /\
    (forall q, tree s' q =
               if mem q ts_files && passes (contains Prisma.prisma_client) s q
               then option_map Prisma.fix_text (tree s q)
               else tree s q) /\
    out s' =
      out s
        ++ Found (length (filter (passes (contains Prisma.prisma_client) s)
                            ts_files))
             (str "files to update")
        :: lines
        ++ [FixedCount
              (length
                 (filter
                    (fun p =>
                       passes (contains Prisma.prisma_client) s p
                       && changes Prisma.fix_text (tree s p))
                    ts_files))
              (length (filter (passes (contains Prisma.prisma_client) s)
                         ts_files))] /\
    forallb per_file lines = true.
Proof.
  intros Hd Hr. unfold Prisma.main.
  rewrite collect_readable by exact Hr. cbn [app]. cbv zeta.
  set (found := filter (passes (contains Prisma.prisma_client) s) ts_files).
  set (s0 := say (Found _ _) s).
  destruct (fix_each_distinct Prisma.fix_file Prisma.fix_text
              prisma_fix_file_spec found 0 s0
              (distinct_filter _ _ Hd) (readable_filter _ s _ Hr))
    as (s' & E & Hf & lines & Ho & Hl).
  eexists _, lines. split; [rewrite E; reflexivity|]. split; [|split].
  - intros q. cbn [say tree]. rewrite Hf. unfold found.
    rewrite mem_filter. reflexivity.
  - cbn [say out tree]. rewrite Ho. unfold s0. cbn [say out].
    rewrite <- !app_assoc. cbn [app Nat.add]. unfold found.
    rewrite filter_both. reflexivity.
  - exact Hl.
Qed.

End MainFacts.

(** * Facts about the instantiation pattern *)

Module StatementFacts.
Import Py Re ReSpec Shapes PyFacts ReFacts CallFacts ImportFacts LazyInit.

(** ** Greedy repetition that has to give back *)

(** Nothing is found when the rest of the pattern fails at every place
    where the repetition can stop. *)
Lemma star_none (p : ascii -> bool) (k : kont) (t : text) caps :
  match t with c :: _ => p c = false | [] => True end ->
  forall y prev,
    forallb p y = true ->
    (forall i, i <= length y ->
       k (prev_after prev (firstn i y)) (skipn i y ++ t) caps = None) ->
    star p k prev (y ++ t) caps = None.
Proof.
  intros Ht. induction y as [|c y IH]; intros prev Hp Hk.
  - cbn [app]. specialize (Hk 0 (Nat.le_0_l _)). cbn in Hk.
    destruct t as [|d t]; cbn [star]; [exact Hk|]. rewrite Ht. exact Hk.
  - cbn [forallb] in Hp. apply andb_prop in Hp. destruct Hp as [Hc Hp].
    cbn [app star]. rewrite Hc. rewrite IH.
    + exact (Hk 0 (Nat.le_0_l _)).
    + exact Hp.
    + intros i Hi. apply (Hk (S i)). cbn [length]. lia.
Qed.

(** The repetition stops after [m1] when the rest of the pattern matches
    there and nowhere further on. *)
Lemma star_back (p : ascii -> bool) (k : kont) (t : text) caps res :
  match t with c :: _ => p c = false | [] => True end ->
  forall m1 m2 prev,
    forallb p m1 = true -> forallb p m2 = true ->
    (forall i, 0 < i <= length m2 ->
       k (prev_after prev (m1 ++ firstn i m2)) (skipn i m2 ++ t) caps = None) ->
    k (prev_after prev m1) (m2 ++ t) caps = Some res ->
    star p k prev (m1 ++ m2 ++ t) caps = Some res.
Proof.
  intros Ht. induction m1 as [|c m1 IH]; intros m2 prev H1 H2 Hk Hres.
  - cbn [app] in *. destruct m2 as [|d m2].
    + cbn [app] in *. destruct t as [|e t]; cbn [star]; [exact Hres|].
      rewrite Ht. exact Hres.
    + cbn [forallb] in H2. apply andb_prop in H2. destruct H2 as [Hd H2].
      cbn [app star]. rewrite Hd. rewrite (star_none p k t caps Ht).
      * exact Hres.
      * exact H2.
      * intros i Hi. apply (Hk (S i)). cbn [length]. lia.
  - cbn [forallb] in H1. apply andb_prop in H1. destruct H1 as [Hc H1].
    cbn [app star]. rewrite Hc.
    rewrite (IH m2 (Some c) H1 H2); [reflexivity| |exact Hres].
    intros i Hi. apply (Hk i Hi).
Qed.

Lemma word_not_space (c : ascii) : is_word c = true -> is_space c = false.
Proof.
  destruct c as [[] [] [] [] [] [] [] []]; vm_compute; congruence.
Qed.

Lemma name_head (v t : text) :
  is_name v = true ->
  match v ++ t with c :: _ => is_space c = false | [] => True end.
Proof.
  destruct v as [|c v]; [discriminate|]. cbn [is_name forallb app].
  intros H. apply andb_prop in H. apply word_not_space. tauto.
Qed.

Lemma is_gap_inv (ws : text) :
  is_gap ws = true -> ws <> [] /\ forallb is_space ws = true.
Proof. destruct ws; [discriminate|]. intros H. split; [discriminate | exact H]. Qed.

Lemma plus_step (p : ascii -> bool) (k : kont) (m s : text) prev caps res :
  m <> [] ->
  forallb p m = true ->
  match s with c :: _ => p c = false | [] => True end ->
  k (prev_after prev m) s caps = Some res ->
  rmatch (Plus p) k prev (m ++ s) caps = Some res.
Proof.
  intros Hm Hp Hs H. destruct m as [|x m]; [contradiction|].
  cbn [forallb] in Hp. apply andb_prop in Hp. destruct Hp as [Hx Hp].
  cbn [rmatch app]. rewrite Hx. apply star_greedy.
  destruct (while_stop p m s Hp Hs) as [-> ->]. exact H.
Qed.

Lemma space_not_word (c : ascii) : is_space c = true -> is_word c = false.
Proof.
  intros H. destruct (is_word c) eqn:E; [|reflexivity].
  rewrite (word_not_space c E) in H. discriminate.
Qed.

Lemma gap_head (ws t : text) (c : ascii) :
  forallb is_space ws = true -> is_word c = false ->
  match ws ++ c :: t with d :: _ => is_word d = false | [] => True end.
Proof.
  destruct ws as [|d ws]; cbn [app forallb]; intros H Hc; [exact Hc|].
  apply andb_prop in H. apply space_not_word. tauto.
Qed.

(** A group [(\w+w)] where [w] is a word: the repetition gives back the
    characters of [w]. *)
Lemma group_stem_step (k : kont) (stem w t : text) prev caps res :
  stem <> [] ->
  forallb is_word stem = true ->
  forallb is_word w = true ->
  match t with c :: _ => is_word c = false | [] => True end ->
  (forall i, 0 < i <= length w -> startswith w (skipn i w ++ t) = false) ->
  k (prev_after prev (stem ++ w)) t (caps ++ [stem ++ w]) = Some res ->
  rmatch (Group (Seq (Plus is_word) (lit w))) k prev (stem ++ w ++ t) caps
    = Some res.
Proof.
  intros Hs Hp Hw Ht Hfail H. destruct stem as [|x stem]; [contradiction|].
  cbn [forallb] in Hp. apply andb_prop in Hp. destruct Hp as [Hx Hp].
  cbn [rmatch app]. rewrite Hx.
  apply (star_back is_word _ t caps res Ht stem w (Some x) Hp Hw).
  - intros i Hi. rewrite rmatch_lit, (Hfail i Hi). reflexivity.
  - rewrite rmatch_lit, startswith_app, skipn_length_app.
    change (x :: stem ++ w ++ t) with ((x :: stem) ++ w ++ t).
    rewrite (app_assoc (x :: stem) w t).
    replace (length (((x :: stem) ++ w) ++ t) - length t)
      with (length ((x :: stem) ++ w)) by (rewrite (length_app _ t); lia).
    rewrite firstn_length_app.
    rewrite <- prev_after_app. exact H.
Qed.

Lemma service_gives_back (t : text) (i : nat) :
  0 < i <= length (str "Service") ->
  startswith (str "Service") (skipn i (str "Service") ++ str "()" ++ t)
    = false.
Proof.
  intros Hi.
  destruct i as [|[|[|[|[|[|[|[|i]]]]]]]]; cbn [length str] in Hi;
    try lia; reflexivity.
Qed.

(** The instantiation pattern on an instantiation statement. *)
Lemma inst_match (ws1 name ws2 ws3 ws4 stem rest : text) prev :
  is_gap ws1 = true -> is_name name = true ->
  forallb is_space ws2 = true -> forallb is_space ws3 = true ->
  is_gap ws4 = true -> is_name stem = true ->
  match_at inst_pattern prev
    (instantiation ws1 name ws2 ws3 ws4 stem ++ rest) =
  Some ([name; stem ++ str "Service"], rest).
Proof.
  intros H1 Hn H2 H3 H4 Hs.
  apply is_gap_inv in H1. destruct H1 as [N1 H1].
  apply is_gap_inv in H4. destruct H4 as [N4 H4].
  destruct (is_name_inv name Hn) as (n0 & n' & En & Hn0 & Hnall).
  destruct (is_name_inv stem Hs) as (s0 & s' & Es & Hs0 & Hsall).
  assert (Nn : name <> []) by (rewrite En; discriminate).
  assert (Ns : stem <> []) by (rewrite Es; discriminate).
  assert (Hname : forallb is_word name = true)
    by (destruct name; [contradiction | exact Hn]).
  assert (Hstem : forallb is_word stem = true)
    by (destruct stem; [contradiction | exact Hs]).
  unfold match_at, inst_pattern, instantiation.
  change (str "=") with ["="%char]. change (str "();") with (str "()" ++ [";"%char]).
  assert (Hf : forall t, match str "new" ++ t with
                         | c :: _ => is_space c = false
                         | [] => True
                         end) by reflexivity.
  assert (Hp : forall t, match str "()" ++ t with
                         | c :: _ => is_word c = false
                         | [] => True
                         end) by reflexivity.
  pose proof service_gives_back as Hback.
  assert (Hsvc : forallb is_word (str "Service") = true) by reflexivity.
  revert Hf Hp Hback Hsvc.
  generalize (str "const") (str "new") (str "Service") (str "()").
  intros w1 w2 w3 w4 Hf Hp Hback Hsvc.
  cbn [seq]. rewrite <- !app_assoc. cbn [app].
  apply seq_step, lit_step.
  apply seq_step, plus_step; [exact N1 | exact H1 | apply name_head, Hn |].
  apply seq_step, group_plus_step;
    [exact Nn | exact Hname | apply gap_head; [exact H2 | reflexivity] |].
  apply seq_step, star_step; [exact H2 | reflexivity |].
  apply seq_step, chr_step.
  apply seq_step, star_step; [exact H3 | apply Hf |].
  apply seq_step, lit_step.
  apply seq_step, plus_step; [exact N4 | exact H4 | apply name_head, Hs |].
  apply seq_step, group_stem_step;
    [exact Ns | exact Hstem | exact Hsvc | apply Hp | apply Hback |].
  apply seq_step, lit_step.
  cbn [rmatch]. rewrite Ascii.eqb_refl. reflexivity.
Qed.

(** Step 3 on a text that begins with an instantiation statement: the
    statement goes, whatever its class, and the step goes on after it. *)
Lemma remove_statement (ws1 name ws2 ws3 ws4 stem rest : text) :
  is_gap ws1 = true -> is_name name = true ->
  forallb is_space ws2 = true -> forallb is_space ws3 = true ->
  is_gap ws4 = true -> is_name stem = true ->
  remove_instantiations (instantiation ws1 name ws2 ws3 ws4 stem ++ rest) =
  remove_instantiations rest.
Proof.
  intros H1 Hn H2 H3 H4 Hs. unfold remove_instantiations, sub.
  rewrite (sub_from_hit _ _ None (instantiation ws1 name ws2 ws3 ws4 stem)
             rest [name; stem ++ str "Service"]).
  - rewrite (sub_from_prev _ _ (match_at_blind inst_pattern eq_refl)).
    reflexivity.
  - discriminate.
  - apply inst_match; assumption.
Qed.

End StatementFacts.

(** * Facts about what a substitution leaves *)

Module GoneFacts.
Import Py Re ReSpec Shapes PyFacts ReFacts.

Lemma occurs_cons_eq (ps : list (ascii -> bool)) (c : ascii) (s : text) :
  occurs ps (c :: s) = fits ps (c :: s) || occurs ps s.
Proof. reflexivity. Qed.

Lemma occurs_no_start (ps : list (ascii -> bool)) (w y : text) :
  no_start ps w = true -> occurs ps y = false -> occurs ps (w ++ y) = false.
Proof.
  induction w as [|c w IH]; intros Hn Hy; [exact Hy|].
  unfold no_start in Hn. cbn [suffixes forallb] in Hn.
  apply andb_prop in Hn. destruct Hn as [Hc Hn]. apply negb_true_iff in Hc.
  cbn [app]. rewrite occurs_cons_eq. rewrite (IH Hn Hy), orb_false_r.
  destruct (fits ps (c :: w ++ y)) eqn:E; [|reflexivity].
  apply (fits_compat ps (c :: w) y) in E. congruence.
Qed.

(** A substitution whose pattern has a fixed shape and whose replacement
    no match can touch leaves no occurrence of the pattern. *)
Section Gone.

Variable r : regex.
Variable ps : list (ascii -> bool).
Hypothesis Hflat : flatten r = Some ps.
Hypothesis Hcons : consumes r = true.
Variable f : list text -> text.
Hypothesis Hcross : no_cross ps (f []) = true.
Hypothesis Hstart : no_start ps (f []) = true.

Lemma sub_cases (s : text) :
  s = [] \/
  (exists c s', s = c :: s' /\ fits ps s = false /\
     sub r f s = c :: sub r f s') \/
  (exists m rest, s = m ++ rest /\ m <> [] /\ fits ps s = true /\
     sub r f s = f [] ++ sub r f rest).
Proof.
  destruct s as [|c s']; [left; reflexivity|]. right.
  destruct (match_at r None (c :: s')) as [[caps rest]|] eqn:Hm.
  - right. destruct (match_at_split _ _ _ _ _ Hcons Hm) as (m & E & Hne).
    exists m, rest. split; [exact E|]. split; [exact Hne|].
    rewrite (match_at_flat r ps Hflat) in Hm.
    destruct (fits ps (c :: s')) eqn:Hf; [|discriminate].
    split; [reflexivity|]. injection Hm as <- Hrest.
    rewrite E. unfold sub.
    rewrite (sub_from_hit r f None m rest []); [|exact Hne|].
    + rewrite (flat_sub_from r ps Hflat). reflexivity.
    + rewrite (match_at_flat r ps Hflat), <- E, Hf, Hrest. reflexivity.
  - left. exists c, s'. split; [reflexivity|].
    rewrite (match_at_flat r ps Hflat) in Hm.
    destruct (fits ps (c :: s')) eqn:Hf; [discriminate|].
    split; [reflexivity|]. unfold sub.
    rewrite (sub_from_keep r f None c s');
      [|rewrite (match_at_flat r ps Hflat), Hf; reflexivity].
    rewrite (flat_sub_from r ps Hflat). reflexivity.
Qed.

(** Tests [qs] that cannot run into the replacement: where they fit after
    the substitution, they fitted before it. *)
Lemma fits_sub (qs : list (ascii -> bool)) :
  no_cross qs (f []) = true ->
  forall s x, x <> [] ->
    fits qs (x ++ sub r f s) = true -> fits qs (x ++ s) = true.
Proof.
  intros Hq. induction s as [|c s IH]; intros x Hx H; [exact H|].
  destruct (sub_cases (c :: s))
    as [E | [(c' & s' & E & Hf & Hs) | (m & rest & E & Hm & Hf & Hs)]].
  - discriminate.
  - injection E as <- <-. rewrite Hs in H.
    change (x ++ c :: sub r f s) with (x ++ [c] ++ sub r f s) in H.
    rewrite app_assoc in H. apply IH in H.
    + rewrite <- app_assoc in H. exact H.
    + destruct x; discriminate.
  - rewrite Hs in H. destruct (fits qs x) eqn:Hfx.
    + apply fits_weaken. exact Hfx.
    + destruct (fits_cross _ _ _ H Hfx) as [Hlen Hc].
      apply compat_weaken in Hc.
      rewrite no_cross_spec in Hc; [discriminate | exact Hq|].
      destruct x; [contradiction | cbn [length] in *; lia].
Qed.

(** Such tests fit nowhere after the substitution unless they fitted
    somewhere before it. *)
Lemma flat_not_created_upto (qs : list (ascii -> bool)) :
  no_cross qs (f []) = true -> no_start qs (f []) = true ->
  forall n s, length s <= n ->
    occurs qs s = false -> occurs qs (sub r f s) = false.
Proof.
  intros Hq Hn. induction n as [|n IH]; intros s Hlen Ho.
  - destruct s; [reflexivity | cbn [length] in Hlen; lia].
  - destruct (sub_cases s)
      as [E | [(c & s' & E & Hf & Hs) | (m & rest & E & Hm & Hf & Hs)]].
    + subst s. reflexivity.
    + rewrite Hs, occurs_cons_eq. subst s. cbn [length] in Hlen.
      rewrite occurs_cons_eq in Ho. apply orb_false_iff in Ho.
      destruct Ho as [Ho1 Ho2]. rewrite IH by (lia || exact Ho2).
      rewrite orb_false_r.
      destruct (fits qs (c :: sub r f s')) eqn:E; [|reflexivity].
      apply (fits_sub qs Hq s' [c]) in E; [|discriminate]. cbn [app] in E.
      congruence.
    + rewrite Hs. apply occurs_no_start; [exact Hn|]. apply IH.
      * subst s. rewrite length_app in Hlen.
        destruct m; [contradiction | cbn [length] in Hlen; lia].
      * subst s. apply (occurs_app qs m rest). exact Ho.
Qed.

Lemma flat_not_created (qs : list (ascii -> bool)) (s : text) :
  no_cross qs (f []) = true -> no_start qs (f []) = true ->
  occurs qs s = false -> occurs qs (sub r f s) = false.
Proof.
  intros Hq Hn. apply (flat_not_created_upto qs Hq Hn (length s)). lia.
Qed.

Lemma flat_gone_upto :
  forall n s, length s <= n -> occurs ps (sub r f s) = false.
Proof.
  induction n as [|n IH]; intros s Hn.
  - destruct s; [reflexivity | cbn [length] in Hn; lia].
  - destruct (sub_cases s)
      as [E | [(c & s' & E & Hf & Hs) | (m & rest & E & Hm & Hf & Hs)]].
    + subst s. reflexivity.
    + rewrite Hs, occurs_cons_eq. subst s. cbn [length] in Hn.
      rewrite IH by lia. rewrite orb_false_r.
      destruct (fits ps (c :: sub r f s')) eqn:E; [|reflexivity].
      apply (fits_sub ps Hcross s' [c]) in E; [|discriminate]. cbn [app] in E.
      congruence.
    + rewrite Hs. apply occurs_no_start; [exact Hstart|]. apply IH.
      subst s. rewrite length_app in Hn.
      destruct m; [contradiction | cbn [length] in Hn; lia].
Qed.

Lemma flat_gone (s : text) : occurs ps (sub r f s) = false.
Proof. apply (flat_gone_upto (length s)). lia. Qed.

End Gone.

Lemma from_gone (x : text) :
  occurs (tests_of Prisma.from_pattern) (Prisma.replace_imports x) = false.
Proof.
  unfold Prisma.replace_imports.
  apply (flat_gone Prisma.from_pattern _ PrismaFacts.from_flat eq_refl);
    vm_compute; reflexivity.
Qed.

(** ** Occurrences of a literal text *)

Lemma flatten_lit (v : text) :
  flatten (lit v) = Some (map (fun c x => Ascii.eqb x c) v).
Proof.
  induction v as [|c v IH]; [reflexivity|]. cbn [lit flatten map].
  rewrite IH. reflexivity.
Qed.

Lemma fits_lit (v : text) :
  forall s, fits (map (fun c x => Ascii.eqb x c) v) s = startswith v s.
Proof.
  induction v as [|c v IH]; intros s; [reflexivity|].
  destruct s as [|x s]; [reflexivity|]. cbn [map fits].
  rewrite startswith_cons, IH, (Ascii.eqb_sym x c). reflexivity.
Qed.

Lemma occurs_lit (v : text) :
  v <> [] ->
  forall s, occurs (map (fun c x => Ascii.eqb x c) v) s = contains v s.
Proof.
  intros Hv. induction s as [|c s IH].
  - destruct v; [contradiction | reflexivity].
  - rewrite occurs_cons_eq, fits_lit, IH. reflexivity.
Qed.

(** Pattern 1 creates no occurrence of a text that its replacement cannot
    touch. *)
Lemma replace_imports_creates (v x : text) :
  v <> [] ->
  no_cross (map (fun c x => Ascii.eqb x c) v) Prisma.database_single = true ->
  no_start (map (fun c x => Ascii.eqb x c) v) Prisma.database_single = true ->
  contains v x = false -> contains v (Prisma.replace_imports x) = false.
Proof.
  intros Hv Hc Hs H. rewrite <- (occurs_lit v Hv) in *.
  unfold Prisma.replace_imports.
  apply (flat_not_created Prisma.from_pattern _ PrismaFacts.from_flat eq_refl);
    assumption.
Qed.

Lemma has_require_created (x : text) :
  Prisma.has_require x = false ->
  Prisma.has_require (Prisma.replace_imports x) = false.
Proof.
  unfold Prisma.has_require. intros H. apply orb_false_iff in H.
  destruct H as [H1 H2]. apply orb_false_iff. split;
    (apply replace_imports_creates;
     [discriminate | vm_compute; reflexivity | vm_compute; reflexivity
     | assumption]).
Qed.

Lemma clause_gone (y : text) (q1 q2 : ascii) :
  occurs (tests_of Prisma.from_pattern) y = false ->
  Prisma.quote q1 = true -> Prisma.quote q2 = true ->
  contains (from_clause q1 q2) y = false.
Proof.
  intros Ho H1 H2. destruct (contains (from_clause q1 q2) y) eqn:E;
    [|reflexivity].
  apply contains_iff in E. destruct E as (a & b & ->).
  rewrite PrismaFacts.clause_occurs in Ho by assumption. discriminate.
Qed.

Lemma fix_text_no_clause (x : text) :
  Prisma.guard x = false -> Prisma.has_require x = false ->
  occurs (tests_of Prisma.from_pattern) (Prisma.fix_text x) = false.
Proof.
  intros Hg Hr. rewrite PrismaFacts.fix_text_unguarded by exact Hg.
  unfold Prisma.require_step. rewrite (has_require_created x Hr).
  rewrite SqueezeFacts.squeeze_occurs by (discriminate || reflexivity).
  apply from_gone.
Qed.

End GoneFacts.

(** * Facts about [fix_file] and the records of step 1 *)

Module FileFacts.
Import Py Re Host ReSpec Shapes PyFacts ReFacts DataFacts ExtractFacts.

(** ** The two ways [fix_file] of fix-service-lazy-init.py goes *)

Lemma lazy_fix_file_cases (p : path) (w : world) (c : text) :
  read_text p w = Some c ->
  (LazyInit.fix_text c = c /\
   exists why,
     LazyInit.fix_file p w = Some (false, print (Skipping (name p) why) w)) \/
  (LazyInit.fix_text c <> c /\
   contains LazyInit.lib_services (LazyInit.fix_text c) = true /\
   exists vars,
     LazyInit.fix_file p w =
     Some (true,
           print Fixed
             (write_text p (LazyInit.fix_text c)
                (print (Services vars) (print (Processing (name p)) w))))).
Proof.
  intros H. unfold LazyInit.fix_file, LazyInit.fix_text. rewrite H.
  destruct (LazyFacts.rewrite_cases c)
    as [[E Hg] | [[E Hg] | (v & u & Hg & He & Hv & Hu & E)]]; rewrite E.
  - left. split; [reflexivity|]. eexists. reflexivity.
  - left. split; [reflexivity|]. eexists. reflexivity.
  - right. pose proof (LazyFacts.rewritten_guard c _ _ E) as Hout.
    assert (Hne : LazyInit.steps v u c <> c)
      by (intros Eq; rewrite Eq in Hout; congruence).
    split; [exact Hne|]. split; [exact Hout|].
    apply text_eqb_neq in Hne. rewrite Hne. cbn [negb].
    eexists. reflexivity.
Qed.

Lemma lazy_skips_output (p : path) (w : world) (y : text) :
  read_text p w = Some y ->
  contains LazyInit.lib_services y = true ->
  LazyInit.fix_file p w =
  Some (false,
        print (Skipping (name p) (str "already uses @/lib/services")) w).
Proof.
  intros H Hg. unfold LazyInit.fix_file, LazyInit.rewrite.
  rewrite H, Hg. reflexivity.
Qed.

Lemma read_written (p : path) (y : text) (w : world) :
  read_text p (write_text p y w) = Some y.
Proof. unfold read_text, write_text. cbn [files]. rewrite text_eqb_refl. reflexivity. Qed.

(** ** [fix_file] of update-prisma-imports.py on a file with a clause *)

Lemma prisma_skips_output (p : path) (w : world) (y : text) :
  read_text p w = Some y ->
  Prisma.guard y = true ->
  Prisma.fix_file p w =
  Some (false,
        print (Skipping (name p) (str "already uses @midcurve/database")) w).
Proof.
  intros H Hg. unfold Prisma.fix_file, Prisma.rewrite.
  rewrite H, Hg. reflexivity.
Qed.

Lemma prisma_fixes_clause (p : path) (w : world) (a b : text) (q1 q2 : ascii) :
  read_text p w = Some (a ++ from_clause q1 q2 ++ b) ->
  Prisma.guard (a ++ from_clause q1 q2 ++ b) = false ->
  Prisma.quote q1 = true -> Prisma.quote q2 = true ->
  Prisma.guard (Prisma.fix_text (a ++ from_clause q1 q2 ++ b)) = true /\
  Prisma.fix_file p w =
  Some (true,
        print Fixed
          (write_text p (Prisma.fix_text (a ++ from_clause q1 q2 ++ b))
             (print (Processing p) w))).
Proof.
  intros H Hg H1 H2.
  assert (Hout : Prisma.guard (Prisma.fix_text (a ++ from_clause q1 q2 ++ b))
                 = true).
  { apply PrismaFacts.output_guard; [exact Hg|]. left.
    rewrite PrismaFacts.replace_imports_hit by assumption.
    apply contains_mid. }
  split; [exact Hout|].
  unfold Prisma.fix_file. rewrite H.
  unfold Prisma.fix_text in *. unfold Prisma.rewrite in *. rewrite Hg in *.
  assert (Hne : Prisma.steps (a ++ from_clause q1 q2 ++ b)
                <> a ++ from_clause q1 q2 ++ b)
    by (intros Eq; rewrite Eq in Hout; congruence).
  apply text_eqb_neq in Hne. rewrite Hne. reflexivity.
Qed.

(** ** The records of step 1 *)

Lemma dict_get_NoDup (k v : text) (d : dict) :
  NoDup (map fst d) -> In (k, v) d -> dict_get k d = Some v.
Proof.
  induction d as [|[k' v'] d IH]; intros Hd Hin; [contradiction|].
  cbn [map fst] in Hd. inversion Hd as [|? ? Hk Hd']; subst.
  cbn [dict_get]. destruct Hin as [E|Hin].
  - injection E as -> ->. rewrite text_eqb_refl. reflexivity.
  - destruct (text_eqb k k') eqn:E.
    + apply text_eqb_eq in E. subst k'. exfalso. apply Hk.
      apply in_map_iff. exists (k, v). split; [reflexivity | exact Hin].
    + apply IH; assumption.
Qed.

Lemma extract_records (content : text) (v : dict) (u : list text) :
  LazyInit.extract content = (v, u) ->
  NoDup (map fst v) /\ NoDup u /\ (v = [] <-> u = []) /\
  forall name cls,
    In (name, cls) v ->
    is_name name = true /\
    dict_get name v = Some cls /\
    exists getter,
      dict_get cls LazyInit.SERVICE_GETTERS = Some getter /\ In getter u.
Proof.
  intros He.
  pose proof (fold_record_dict (finditer LazyInit.inst_pattern content))
    as [Hd Hdict].
  fold (LazyInit.extract content) in Hd, Hdict. rewrite He in Hd, Hdict.
  cbn [fst] in Hd, Hdict.
  pose proof (LazyFacts.used_NoDup content) as Hu.
  pose proof (LazyFacts.extract_empty content) as Hem.
  pose proof (LazyFacts.used_getter content) as Hug.
  rewrite He in Hu, Hem, Hug. cbn [fst snd] in Hu, Hem, Hug.
  split; [exact Hd|]. split; [exact Hu|]. split; [exact Hem|].
  intros name cls Hin. pose proof Hin as Hl. apply Hdict in Hl.
  destruct Hl as (l1 & caps & l2 & E & H1 & H2 & H3 & _).
  assert (Hc : In caps (finditer LazyInit.inst_pattern content))
    by (rewrite E; apply in_or_app; right; left; reflexivity).
  destruct (finditer_groups content caps Hc) as (n & c & Ec & Hname).
  assert (En : name = n) by (rewrite <- H1, Ec; reflexivity). subst n.
  split; [exact Hname|]. split; [apply dict_get_NoDup; assumption|].
  destruct (proj1 (mapped_getter caps) H3) as [getter Hget].
  rewrite H2 in Hget. exists getter. split; [exact Hget|].
  apply Hug. exists caps. rewrite H2. auto.
Qed.

End FileFacts.

(** * Facts about the require expression in a whole text *)

Module RequireFacts.
Import Py Re ReSpec Shapes PyFacts ReFacts Prisma.



End RequireFacts.

(** * The properties of the specification *)

Import Py Re ReSpec Shapes PyFacts ReFacts SqueezeFacts LineFacts.
Import DataFacts CallFacts ImportFacts ExtractFacts.




(** C7.  On an input the guard lets through, the rewrite is the clean-up of
    Pattern 2 of Pattern 1; Pattern 1 turns every import-from clause naming
    [@prisma/client], in either quoting style, into
    [from '@midcurve/database'] and goes on independently on both sides of
    it; the new clause is in the output; and an input containing Example 3
    gives an output containing the line of Example 3. *)
Theorem C7_import_clauses_replaced (x : text) :
  Prisma.guard x = false ->
  Prisma.fix_text x =
    Prisma.squeeze (Prisma.require_step (Prisma.replace_imports x)) /\
  (forall a b q1 q2,
     x = a ++ from_clause q1 q2 ++ b ->
     Prisma.quote q1 = true -> Prisma.quote q2 = true ->
     Prisma.replace_imports x =
       Prisma.replace_imports a ++ Prisma.database_single
         ++ Prisma.replace_imports b /\
     contains Prisma.database_single (Prisma.fix_text x) = true) /\
  (forall a b,
     x = a ++ Inputs.example3 ++ b ->
     contains Inputs.example3_out (Prisma.fix_text x) = true).
Proof.
  intros Hg. pose proof (PrismaFacts.fix_text_unguarded x Hg) as Hfix.
  split; [exact Hfix|]. split.
  - intros a b q1 q2 -> H1 H2.
    pose proof (PrismaFacts.replace_imports_hit a b q1 q2 H1 H2) as Hhit.
    split; [exact Hhit|]. rewrite Hfix, Hhit.
    apply PrismaFacts.tail_keeps;
      [discriminate | reflexivity | vm_compute; reflexivity
      | vm_compute; reflexivity | apply contains_mid].
  - intros a b ->. rewrite Hfix.
    apply PrismaFacts.tail_keeps;
      [discriminate | reflexivity | vm_compute; reflexivity
      | vm_compute; reflexivity | apply PrismaFacts.example3_replaced].
Qed.

Lemma C7_witness :
  Prisma.fix_text (Inputs.example3 ++ [nl]) = Inputs.example3_out ++ [nl].
Proof.
  rewrite (proj1 (C7_import_clauses_replaced (Inputs.example3 ++ [nl]) eq_refl)).
  vm_compute. reflexivity.
Defined.

(** C6, where the code departs from it.  The test for the import is the
    substring test ["import { prisma"]: the input below imports
    [prismaMock] and not [prisma], the guard lets it through and it has
    the require access, yet no import of [prisma] is put in, while the
    expression becomes [prisma].  In general, on an input the guard lets
    through and that has the require access, the rewrite is the clean-up
    of the replacement of the require expression, applied to the text
    after Pattern 1 with the line
    [import { prisma } from '@midcurve/database';] put in when that text
    does not contain ["import { prisma"]; the line goes one past the last
    line starting with ["import "]; it is then in the output; and the
    replacement turns each occurrence of the expression into [prisma]. *)
Theorem C6_require_rewritten :
  (Prisma.guard Inputs.mock_input = false /\
   Prisma.has_require Inputs.mock_input = true /\
   contains (str "import { prisma }") Inputs.mock_input = false /\
   Prisma.fix_text Inputs.mock_input = Inputs.mock_output /\
   contains (str "const client = prisma;")
     (Prisma.fix_text Inputs.mock_input) = true /\
   contains (str "import { prisma }") (Prisma.fix_text Inputs.mock_input)
     = false /\
   contains Prisma.prisma_import_line (Prisma.fix_text Inputs.mock_input)
     = false) /\
  forall x,
    Prisma.guard x = false ->
    Prisma.has_require x = true ->
    let c1 := Prisma.replace_imports x in
    let lines := split nl c1 in
    let idx := Prisma.insert_idx lines in
    Prisma.fix_text x =
      Prisma.squeeze
        (Prisma.replace_require
           (if contains Prisma.import_prisma c1 then c1
            else join [nl]
                   (firstn idx lines
                      ++ Prisma.prisma_import_line :: skipn idx lines))) /\
    idx <= length lines /\
    (forall j, idx <= j -> j < length lines ->
       startswith (str "import ") (nth j lines []) = false) /\
    (idx = 0 \/ startswith (str "import ") (nth (idx - 1) lines []) = true) /\
    (contains Prisma.import_prisma c1 = false ->
     contains Prisma.prisma_import_line (Prisma.fix_text x) = true) /\
    (forall a b q1 q2,
       Prisma.quote q1 = true -> Prisma.quote q2 = true ->
       Prisma.replace_require (a ++ require_expr q1 q2 ++ b) =
       Prisma.replace_require a ++ str "prisma" ++ Prisma.replace_require b).
Proof.
  split; [vm_compute; repeat split; reflexivity|].
  intros x Hg Hr c1 lines idx.
  pose proof (PrismaFacts.fix_text_unguarded x Hg) as Hfix.
  pose proof (PrismaFacts.has_require_kept x Hr) as Hr1.
  assert (Hstep : Prisma.require_step c1 =
    Prisma.replace_require
      (if contains Prisma.import_prisma c1 then c1
       else join [nl]
              (firstn idx lines
                 ++ Prisma.prisma_import_line :: skipn idx lines))).
  { unfold Prisma.require_step. fold c1 in Hr1. rewrite Hr1.
    destruct (contains Prisma.import_prisma c1); reflexivity. }
  split; [rewrite Hfix; fold c1; rewrite Hstep; reflexivity|].
  destruct (insert_idx_spec lines) as (H1 & H2 & H3).
  repeat split; try assumption.
  - intros Hp. rewrite Hfix. fold c1. rewrite Hstep, Hp.
    rewrite squeeze_contains by (discriminate || reflexivity).
    apply PrismaFacts.replace_require_keeps;
      [vm_compute; reflexivity | vm_compute; reflexivity|].
    apply (contains_inserted _ Prisma.prisma_import_line lines idx).
    vm_compute. reflexivity.
  - intros a b q1 q2. apply PrismaFacts.replace_require_hit.
Qed.

(** Example 4 of the specification. *)
Lemma C6_witness : Prisma.fix_text Inputs.example4 = Inputs.example4_out.
Proof.
  rewrite (proj1 (proj2 C6_require_rewritten Inputs.example4 eq_refl eq_refl)).
  vm_compute. reflexivity.
Defined.

(** C8, as the code has it.  The clean-up of both scripts leaves no three
    newline characters in a row, in particular in the output of either
    rewrite; and a run of three newline characters or more, between a text
    that does not end with a newline and one that does not begin with one,
    becomes exactly two, the clean-up going on independently on both
    sides. *)
Theorem C8_newline_runs_collapsed :
  (forall s,
     contains triple (Prisma.squeeze s) = false /\
     contains triple (LazyInit.squeeze s) = false) /\
  (forall x, Prisma.guard x = false ->
     contains triple (Prisma.fix_text x) = false) /\
  (forall x var_to_service content,
     LazyInit.rewrite x = LazyInit.Rewritten var_to_service content ->
     contains triple (LazyInit.fix_text x) = false) /\
  (forall a b k,
     ends_with_nl a = false -> starts_with_nl b = false ->
     Prisma.squeeze (a ++ repeat nl (3 + k) ++ b) =
       Prisma.squeeze a ++ [nl; nl] ++ Prisma.squeeze b /\
     LazyInit.squeeze (a ++ repeat nl (3 + k) ++ b) =
       LazyInit.squeeze a ++ [nl; nl] ++ LazyInit.squeeze b).
Proof.
  repeat split.
  - apply squeeze_no_triple.
  - rewrite squeeze_same. apply squeeze_no_triple.
  - intros x Hg. rewrite PrismaFacts.fix_text_unguarded by exact Hg.
    apply squeeze_no_triple.
  - intros x v c H. unfold LazyInit.fix_text. rewrite H.
    unfold LazyInit.rewrite in H.
    destruct (contains LazyInit.lib_services x); [discriminate|].
    destruct (LazyInit.extract x) as [v' u].
    destruct v' as [|i v']; [discriminate|]. injection H as _ <-.
    unfold LazyInit.steps. rewrite squeeze_same. apply squeeze_no_triple.
  - apply squeeze_run_between; assumption.
  - rewrite squeeze_same. apply squeeze_run_between; assumption.
Qed.

Lemma C8_witness :
  Prisma.squeeze (str "a" ++ repeat nl (3 + 1) ++ str "b") =
  str "a" ++ [nl; nl] ++ str "b".
Proof.
  rewrite (proj1 (proj2 (proj2 (proj2 C8_newline_runs_collapsed))
                    (str "a") (str "b") 1 eq_refl eq_refl)).
  vm_compute. reflexivity.
Defined.

(** C8 as stated fails: three empty lines at the top of a file become two,
    not one. *)
Lemma C8_counterexample :
  Prisma.guard Inputs.three_blank_lines = false /\
  blank_runs Inputs.three_blank_lines = [3] /\
  Prisma.fix_text Inputs.three_blank_lines = [nl; nl] ++ str "x" /\
  blank_runs (Prisma.fix_text Inputs.three_blank_lines) = [2] /\
  blank_runs (LazyInit.squeeze Inputs.three_blank_lines) = [2].
Proof. vm_compute. repeat split; reflexivity. Qed.

(** C9.  For a file that can be read, [fix_file] of either script returns a
    flag that is true exactly when the rewritten text differs from the
    content read; the file is overwritten with the rewritten text exactly
    when the flag is true, so that reading it afterwards gives the
    rewritten text; the file system is left as it was when the flag is
    false; and no other file is ever touched. *)
Theorem C9_flag_and_write
    (filepath : Host.path) (w : Host.world) (original : text) :
  Host.read_text filepath w = Some original ->
  (exists flag w',
     LazyInit.fix_file filepath w = Some (flag, w') /\
     (flag = true <-> LazyInit.fix_text original <> original) /\
     Host.files w' =
       (if flag
        then Host.files
               (Host.write_text filepath (LazyInit.fix_text original) w)
        else Host.files w) /\
     (forall q, q <> filepath -> Host.files w' q = Host.files w q) /\
     Host.read_text filepath w' = Some (LazyInit.fix_text original) /\
     (forall q,
        Host.files w' q =
        if flag && text_eqb q filepath
        then Some (LazyInit.fix_text original)
        else Host.files w q)) /\
  (exists flag w',
     Prisma.fix_file filepath w = Some (flag, w') /\
     (flag = true <-> Prisma.fix_text original <> original) /\
     Host.files w' =
       (if flag
        then Host.files
               (Host.write_text filepath (Prisma.fix_text original) w)
        else Host.files w) /\
     (forall q, q <> filepath -> Host.files w' q = Host.files w q) /\
     Host.read_text filepath w' = Some (Prisma.fix_text original) /\
     (forall q,
        Host.files w' q =
        if flag && text_eqb q filepath
        then Some (Prisma.fix_text original)
        else Host.files w q)).
Proof.
  intros Hread. split.
  - unfold LazyInit.fix_file, LazyInit.fix_text. rewrite Hread.
    destruct (LazyInit.rewrite original) as [| |v content].
    + eexists false, _. split; [reflexivity|].
      split; [split; [discriminate | intros H; exfalso; apply H; reflexivity]|].
      split; [reflexivity|]. split; [reflexivity|].
      split; [exact Hread | reflexivity].
    + eexists false, _. split; [reflexivity|].
      split; [split; [discriminate | intros H; exfalso; apply H; reflexivity]|].
      split; [reflexivity|]. split; [reflexivity|].
      split; [exact Hread | reflexivity].
    + destruct (text_eqb content original) eqn:E; cbn [negb].
      * apply text_eqb_eq in E. subst content.
        eexists false, _. split; [reflexivity|].
        split; [split; [discriminate
                       | intros H; exfalso; apply H; reflexivity]|].
        split; [reflexivity|]. split; [reflexivity|].
        split; [exact Hread | reflexivity].
      * pose proof E as E'. apply text_eqb_neq in E'.
        eexists true, _. split; [reflexivity|].
        split; [split; [intros _; exact E' | reflexivity]|].
        split; [reflexivity|]. split; [|split].
        -- intros q Hq. cbn. apply text_eqb_neq in Hq. rewrite Hq.
           reflexivity.
        -- unfold Host.read_text. cbn. rewrite text_eqb_refl. reflexivity.
        -- intros q. reflexivity.
  - unfold Prisma.fix_file, Prisma.fix_text. rewrite Hread.
    destruct (Prisma.rewrite original) as [|content].
    + eexists false, _. split; [reflexivity|].
      split; [split; [discriminate | intros H; exfalso; apply H; reflexivity]|].
      split; [reflexivity|]. split; [reflexivity|].
      split; [exact Hread | reflexivity].
    + destruct (text_eqb content original) eqn:E; cbn [negb].
      * apply text_eqb_eq in E. subst content.
        eexists false, _. split; [reflexivity|].
        split; [split; [discriminate
                       | intros H; exfalso; apply H; reflexivity]|].
        split; [reflexivity|]. split; [reflexivity|].
        split; [exact Hread | reflexivity].
      * pose proof E as E'. apply text_eqb_neq in E'.
        eexists true, _. split; [reflexivity|].
        split; [split; [intros _; exact E' | reflexivity]|].
        split; [reflexivity|]. split; [|split].
        -- intros q Hq. cbn. apply text_eqb_neq in Hq. rewrite Hq.
           reflexivity.
        -- unfold Host.read_text. cbn. rewrite text_eqb_refl. reflexivity.
        -- intros q. reflexivity.
Qed.

(** C1, where the code departs from it.  Step 3 deletes every
    instantiation statement once one class of the mapping is instantiated:
    [FooService] is not a key of the mapping, its instantiation is in the
    input and not in the output, while the call on its variable stays.
    When no class of the mapping is instantiated the text, and with it
    every instantiation statement, is kept. *)
Theorem C1_unmapped_instantiation_removed :
  dict_get (str "FooService") LazyInit.SERVICE_GETTERS = None /\
  contains (str "const foo = new FooService();") Inputs.unmapped_input = true /\
  LazyInit.fix_text Inputs.unmapped_input = Inputs.unmapped_output /\
  contains (str "const foo = new FooService();")
    (LazyInit.fix_text Inputs.unmapped_input) = false /\
  contains (str "foo.run();") (LazyInit.fix_text Inputs.unmapped_input) = true /\
  (forall x, no_mapped x = true -> LazyInit.fix_text x = x).
Proof.
  do 5 (split; [vm_compute; reflexivity|]). exact LazyFacts.fix_text_unmapped.
Qed.

Lemma C1_witness : LazyInit.fix_text Inputs.unmapped_only = Inputs.unmapped_only.
Proof.
  apply (proj2 (proj2 (proj2 (proj2 (proj2 C1_unmapped_instantiation_removed))))
           Inputs.unmapped_only).
  vm_compute. reflexivity.
Defined.

(** C4, where the code departs from it.  With a comma after the last name,
    the list of the import has an empty last entry, which is never
    removed: both names of the import are recorded classes, the pruning
    step removes both, and the statement is emitted again with an empty
    list instead of being deleted.  On a text that begins with the import
    statement, the step strips the entries of the list, drops those that
    are recorded classes and writes the statement again with the others,
    in their order, or nothing when none is left, and goes on after it. *)
Theorem C4_trailing_comma_import_kept :
  map snd (fst (LazyInit.extract Inputs.trailing_comma_input)) =
    [str "AuthUserService"; str "AuthNonceService"] /\
  LazyInit.prune_imports [str "AuthUserService"; str "AuthNonceService"]
    Inputs.trailing_comma_import =
    str "import {  } from '@midcurve/services';" /\
  LazyInit.fix_text Inputs.trailing_comma_input = Inputs.trailing_comma_output /\
  (forall services_to_remove ws1 ws2 ws3 e entries rest,
     forallb is_space ws1 = true ->
     forallb is_space ws2 = true ->
     forallb is_space ws3 = true ->
     forallb list_entry (e :: entries) = true ->
     join (str ",") (e :: entries) <> [] ->
     LazyInit.prune_imports services_to_remove
       (legacy_import ws1 (join (str ",") (e :: entries)) ws2 ws3 ++ rest) =
     legacy_statement
       (filter (fun imp => negb (mem imp services_to_remove))
          (map strip (e :: entries)))
       ++ LazyInit.prune_imports services_to_remove rest).
Proof.
  do 3 (split; [vm_compute; reflexivity|]). intros. apply prune_entries;
    assumption.
Qed.

Lemma C4_witness :
  LazyInit.prune_imports [str "AuthUserService"] (Inputs.mixed_import ++ [nl])
  = Inputs.mixed_import_out ++ [nl].
Proof.
  change (Inputs.mixed_import ++ [nl])
    with (legacy_import (str " ")
            (join (str ",")
               [str " AuthUserService"; str " normalizeAddress";
                str " type Position "])
            (str " ") (str " ") ++ [nl]).
  rewrite (proj2 (proj2 (proj2 C4_trailing_comma_import_kept))
             [str "AuthUserService"] (str " ") (str " ") (str " ")
             (str " AuthUserService")
             [str " normalizeAddress"; str " type Position "] [nl]
             eq_refl eq_refl eq_refl eq_refl);
    [vm_compute; reflexivity | discriminate].
Defined.

(** C5.  When a getter is marked as used, the output is the clean-up of the
    lines of the text left by the pruning step with exactly one line more:
    the import statement from [@/lib/services], put one past the last line
    that starts with ["import "] (at the top when there is none), and the
    statement is in the output.  The
    statement lists the used getters in increasing order, each once, and
    these are the getters of the classes of the mapping that the input
    instantiates. *)
Theorem C5_getter_import_inserted
    (content : text) (var_to_service : dict) (used_getters : list text) :
  contains LazyInit.lib_services content = false ->
  LazyInit.extract content = (var_to_service, used_getters) ->
  used_getters <> [] ->
  let lines := split nl (pruned var_to_service content) in
  let idx := LazyInit.insert_idx lines in
  LazyInit.fix_text content =
    LazyInit.squeeze
      (join [nl]
         (firstn idx lines
            ++ getter_statement used_getters :: skipn idx lines)) /\
  contains (getter_statement used_getters) (LazyInit.fix_text content)
    = true /\
  join [nl] lines = pruned var_to_service content /\
  length (firstn idx lines ++ getter_statement used_getters :: skipn idx lines)
    = S (length lines) /\
  idx <= length lines /\
  (forall j, idx <= j -> j < length lines ->
     startswith (str "import ") (nth j lines []) = false) /\
  (idx = 0 \/ startswith (str "import ") (nth (idx - 1) lines []) = true) /\
  StronglySorted text_lt (sorted used_getters) /\
  (forall g, In g (sorted used_getters) <-> In g used_getters) /\
  (forall g,
     In g used_getters <->
     exists caps,
       In caps (finditer LazyInit.inst_pattern content) /\
       dict_get (group 2 caps) LazyInit.SERVICE_GETTERS = Some g).
Proof.
  intros Hg He Hu lines idx.
  assert (Hv : var_to_service <> []).
  { intros E. pose proof (LazyFacts.extract_empty content) as H.
    rewrite He in H. cbn [fst snd] in H. apply H in E. contradiction. }
  pose proof (LazyFacts.used_NoDup content) as Hnd.
  pose proof (LazyFacts.used_getter content) as Hug.
  rewrite He in Hnd, Hug. cbn [snd] in Hnd, Hug.
  destruct (sorted_spec used_getters Hnd) as [Hs Hi].
  destruct (insert_idx_spec lines) as (H1 & H2 & H3).
  rewrite <- insert_idx_same in H1, H2, H3.
  repeat split; try assumption; try (apply Hi); try (apply Hug).
  - rewrite (LazyFacts.fix_text_rewritten content _ _ Hg He Hv).
    rewrite LazyFacts.steps_eq by exact Hu. reflexivity.
  - rewrite (LazyFacts.fix_text_rewritten content _ _ Hg He Hv).
    apply LazyFacts.steps_contains; [exact Hu | discriminate | |].
    + pose proof (LazyFacts.statement_free content) as Hf.
      rewrite He in Hf. exact Hf.
    + pose proof (contains_mid (getter_statement used_getters) [] []) as Hx.
      cbn [app] in Hx. rewrite app_nil_r in Hx. exact Hx.
  - apply join_split.
  - apply (insert_length _ idx (getter_statement used_getters) lines).
Qed.

Lemma C5_witness : LazyInit.fix_text Inputs.example1 = Inputs.example1_out.
Proof.
  assert (He : LazyInit.extract Inputs.example1 =
               ([(str "authService", str "AuthUserService")],
                [str "getAuthUserService"]))
    by (vm_compute; reflexivity).
  assert (Hu : [str "getAuthUserService"] <> []) by discriminate.
  rewrite (proj1 (C5_getter_import_inserted Inputs.example1 _ _ eq_refl He Hu)).
  vm_compute. reflexivity.
Defined.







Lemma C9_witness :
  (exists flag w',
     LazyInit.fix_file Inputs.route_path Inputs.route_world = Some (flag, w') /\
     (flag = true <-> LazyInit.fix_text Inputs.example1 <> Inputs.example1) /\
     Host.files w' =
       (if flag
        then Host.files
               (Host.write_text Inputs.route_path (LazyInit.fix_text Inputs.example1) Inputs.route_world)
        else Host.files Inputs.route_world) /\
     (forall q, q <> Inputs.route_path -> Host.files w' q = Host.files Inputs.route_world q) /\
     Host.read_text Inputs.route_path w' = Some (LazyInit.fix_text Inputs.example1) /\
     (forall q,
        Host.files w' q =
        if flag && text_eqb q Inputs.route_path
        then Some (LazyInit.fix_text Inputs.example1)
        else Host.files Inputs.route_world q)) /\
  (exists flag w',
     Prisma.fix_file Inputs.route_path Inputs.route_world = Some (flag, w') /\
     (flag = true <-> Prisma.fix_text Inputs.example1 <> Inputs.example1) /\
     Host.files w' =
       (if flag
        then Host.files
               (Host.write_text Inputs.route_path (Prisma.fix_text Inputs.example1) Inputs.route_world)
        else Host.files Inputs.route_world) /\
     (forall q, q <> Inputs.route_path -> Host.files w' q = Host.files Inputs.route_world q) /\
     Host.read_text Inputs.route_path w' = Some (Prisma.fix_text Inputs.example1) /\
     (forall q,
        Host.files w' q =
        if flag && text_eqb q Inputs.route_path
        then Some (Prisma.fix_text Inputs.example1)
        else Host.files Inputs.route_world q)).
Proof.
  apply (C9_flag_and_write Inputs.route_path Inputs.route_world Inputs.example1).
  vm_compute. reflexivity.
Defined.

(** * Further properties of the scripts *)

Import NeedsFacts RunFacts MainFacts StatementFacts GoneFacts FileFacts.

(** X1.  [find_route_files] returns, in the order of the listing, the
    listed files whose content has both ['new'] and ['Service()'] in it;
    a listed file in which the instantiation pattern matches, or that the
    rewrite would change, is among them. *)
Theorem X1_discovery_misses_no_file
    (ts_files : list Host.path) (s : Run.state) :
  forallb (readable s) ts_files = true ->
  LazyInit.find_route_files ts_files s =
    Some (filter (passes LazyInit.has_instantiation s) ts_files) /\
  forall p content,
    In p ts_files -> Run.tree s p = Some content ->
    finditer LazyInit.inst_pattern content <> [] \/
    LazyInit.fix_text content <> content ->
    In p (filter (passes LazyInit.has_instantiation s) ts_files).
Proof.
  intros Hr. split.
  - unfold LazyInit.find_route_files. rewrite collect_readable by exact Hr.
    reflexivity.
  - intros p content Hp Hc H. apply filter_In. split; [exact Hp|].
    unfold passes. rewrite Hc.
    destruct (LazyInit.has_instantiation content) eqn:E; [reflexivity|].
    destruct H as [H|H]; exfalso; apply H.
    + apply untriggered_finditer. exact E.
    + apply untriggered_fix_text. exact E.
Qed.

Lemma X1_witness :
  LazyInit.find_route_files Inputs.api_listing Inputs.api_tree =
  Some [Inputs.route_path; Inputs.foo_path].
Proof.
  rewrite (proj1 (X1_discovery_misses_no_file Inputs.api_listing
                    Inputs.api_tree eq_refl)).
  vm_compute. reflexivity.
Defined.

(** X2.  When a listed file cannot be read, [main] of either script ends
    with the exception before anything is printed or written. *)
Theorem X2_unreadable_file_stops_the_run
    (ts_files : list Host.path) (s : Run.state) :
  forallb (readable s) ts_files = false ->
  LazyInit.main ts_files s = Run.Raised s /\
  Prisma.main ts_files s = Run.Raised s.
Proof.
  intros H. split;
    [apply lazy_main_unreadable | apply prisma_main_unreadable]; exact H.
Qed.

Lemma X2_witness :
  LazyInit.main Inputs.broken_listing Inputs.api_tree
    = Run.Raised Inputs.api_tree /\
  Prisma.main Inputs.broken_listing Inputs.api_tree
    = Run.Raised Inputs.api_tree.
Proof.
  apply (X2_unreadable_file_stops_the_run Inputs.broken_listing
           Inputs.api_tree).
  vm_compute. reflexivity.
Defined.

(** X3.  When every listed file can be read, [main] of
    fix-service-lazy-init.py ends normally, every listed file holds the
    rewrite of its content, and every other file is as it was; a path
    listed more than once makes no difference. *)
Theorem X3_lazy_main_rewrites_the_listed_files
    (ts_files : list Host.path) (s : Run.state) :
  forallb (readable s) ts_files = true ->
  exists s',
    LazyInit.main ts_files s = Run.Done tt s' /\
    forall q,
      Run.tree s' q =
      if mem q ts_files then option_map LazyInit.fix_text (Run.tree s q)
      else Run.tree s q.
Proof.
  intros Hr.
  destruct (lazy_main_spec ts_files s Hr) as (k & s' & lines & E & Hf & _).
  exists s'. split; [exact E | exact Hf].
Qed.

Lemma X3_witness :
  exists s',
    LazyInit.main Inputs.api_listing Inputs.api_tree = Run.Done tt s' /\
    forall q,
      Run.tree s' q =
      if mem q Inputs.api_listing
      then option_map LazyInit.fix_text (Run.tree Inputs.api_tree q)
      else Run.tree Inputs.api_tree q.
Proof.
  apply (X3_lazy_main_rewrites_the_listed_files Inputs.api_listing
           Inputs.api_tree).
  vm_compute. reflexivity.
Defined.

(** X4.  The report of that run: [Found n ...], then lines of [fix_file]
    only, then [Fixed k/n files], where [n] is the number of listed files
    that pass the test of [find_route_files] and [k <= n]; when the listed
    paths are pairwise different, [k] is the number of listed files that
    the rewrite changes. *)
Theorem X4_lazy_main_report (ts_files : list Host.path) (s : Run.state) :
  forallb (readable s) ts_files = true ->
  exists fixed_count s' lines,
    LazyInit.main ts_files s = Run.Done tt s' /\
    Run.out s' =
      Run.out s
        ++ Run.Found
             (length (filter (passes LazyInit.has_instantiation s) ts_files))
             (str "route files to check")
        :: lines
        ++ [Run.FixedCount fixed_count
              (length (filter (passes LazyInit.has_instantiation s)
                         ts_files))] /\
    forallb per_file lines = true /\
    fixed_count
      <= length (filter (passes LazyInit.has_instantiation s) ts_files) /\
    (distinct ts_files = true ->
     fixed_count =
       length (filter (fun p => changes LazyInit.fix_text (Run.tree s p))
                 ts_files)).
Proof.
  intros Hr.
  destruct (lazy_main_spec ts_files s Hr)
    as (k & s' & lines & E & _ & Ho & Hl & Hk & Hd).
  exists k, s', lines. auto.
Qed.

Lemma X4_witness :
  exists s' lines,
    LazyInit.main Inputs.api_listing Inputs.api_tree = Run.Done tt s' /\
    Run.out s' =
      Run.Found 2 (str "route files to check")
        :: lines ++ [Run.FixedCount 1 2].
Proof.
  destruct (X4_lazy_main_report Inputs.api_listing Inputs.api_tree eq_refl)
    as (k & s' & lines & E & Ho & _ & _ & Hd).
  exists s', lines. split; [exact E|].
  rewrite Ho, (Hd eq_refl). vm_compute. reflexivity.
Defined.

(** X5.  A second run of [main] of fix-service-lazy-init.py on the files
    the first run left changes no file and reports [Fixed 0/n files]. *)
Theorem X5_lazy_main_second_run (ts_files : list Host.path) (s : Run.state) :
  forallb (readable s) ts_files = true ->
  exists s1 s2 lines,
    LazyInit.main ts_files s = Run.Done tt s1 /\
    LazyInit.main ts_files s1 = Run.Done tt s2 /\
    (forall q, Run.tree s2 q = Run.tree s1 q) /\
    Run.out s2 =
      Run.out s1
        ++ Run.Found
             (length (filter (passes LazyInit.has_instantiation s1) ts_files))
             (str "route files to check")
        :: lines
        ++ [Run.FixedCount 0
              (length (filter (passes LazyInit.has_instantiation s1)
                         ts_files))] /\
    forallb per_file lines = true.
Proof.
  intros Hr.
  destruct (lazy_main_spec ts_files s Hr) as (k & s1 & l1 & E1 & Hf & _).
  destruct (lazy_main_again ts_files s s1 Hr Hf)
    as (s2 & lines & E2 & Hsame & Ho & Hl).
  exists s1, s2, lines. auto.
Qed.

Lemma X5_witness :
  exists s1 s2,
    LazyInit.main Inputs.api_listing Inputs.api_tree = Run.Done tt s1 /\
    LazyInit.main Inputs.api_listing s1 = Run.Done tt s2 /\
    (forall q, Run.tree s2 q = Run.tree s1 q).
Proof.
  destruct (X5_lazy_main_second_run Inputs.api_listing Inputs.api_tree
              eq_refl)
    as (s1 & s2 & lines & E1 & E2 & Hsame & _).
  exists s1, s2. auto.
Defined.

(** X6.  When the listed paths are pairwise different and can all be
    read, [main] of update-prisma-imports.py ends normally; a listed file
    whose content has [@prisma/client] in it holds the rewrite of its
    content, and every other file, listed or not, is as it was.  The
    report is [Found n ...], lines of [fix_file], and [Fixed k/n files],
    with [n] the number of listed files that have the name and [k] the
    number of those that the rewrite changes. *)
Theorem X6_prisma_main (ts_files : list Host.path) (s : Run.state) :
  distinct ts_files = true ->
  forallb (readable s) ts_files = true ->
  exists s' lines,
    Prisma.main ts_files s = Run.Done tt s' /\
    (forall q,
       Run.tree s' q =
       if mem q ts_files && passes (contains Prisma.prisma_client) s q
       then option_map Prisma.fix_text (Run.tree s q)
       else Run.tree s q) /\
    Run.out s' =
      Run.out s
        ++ Run.Found
             (length (filter (passes (contains Prisma.prisma_client) s)
                        ts_files))
             (str "files to update")
        :: lines
        ++ [Run.FixedCount
              (length
                 (filter
                    (fun p =>
                       passes (contains Prisma.prisma_client) s p
                       && changes Prisma.fix_text (Run.tree s p))
                    ts_files))
              (length (filter (passes (contains Prisma.prisma_client) s)
                         ts_files))] /\
    forallb per_file lines = true.
Proof. apply prisma_main_spec. Qed.

Lemma X6_witness :
  exists s' lines,
    Prisma.main Inputs.services_listing Inputs.services_tree
      = Run.Done tt s' /\
    Run.tree s' Inputs.client_path = Some (Inputs.example3_out ++ [nl]) /\
    Run.tree s' Inputs.plain_path
      = Run.tree Inputs.services_tree Inputs.plain_path /\
    Run.out s' =
      Run.Found 1 (str "files to update") :: lines ++ [Run.FixedCount 1 1].
Proof.
  destruct (X6_prisma_main Inputs.services_listing Inputs.services_tree
              eq_refl eq_refl)
    as (s' & lines & E & Hf & Ho & _).
  exists s', lines. split; [exact E|]. rewrite !Hf, Ho.
  vm_compute. repeat split.
Defined.

(** X7.  On a text without [@prisma/client] the rewrite of
    update-prisma-imports.py can only collapse newlines: it returns the
    text when the guard fires and its clean-up otherwise, so the text
    itself when it has no three newlines in a row. *)
Theorem X7_without_the_client_name (x : text) :
  contains Prisma.prisma_client x = false ->
  Prisma.fix_text x = (if Prisma.guard x then x else Prisma.squeeze x) /\
  (contains triple x = false -> Prisma.fix_text x = x).
Proof.
  intros H.
  assert (E : Prisma.fix_text x =
              if Prisma.guard x then x else Prisma.squeeze x).
  { unfold Prisma.fix_text, Prisma.rewrite.
    destruct (Prisma.guard x); [reflexivity|].
    apply client_free_steps. exact H. }
  split; [exact E|]. intros Ht. rewrite E.
  destruct (Prisma.guard x); [reflexivity|]. apply squeeze_fixed. exact Ht.
Qed.

Lemma X7_witness :
  Prisma.fix_text (str "a" ++ [nl; nl; nl] ++ str "b")
  = str "a" ++ [nl; nl] ++ str "b".
Proof.
  rewrite (proj1 (X7_without_the_client_name
                    (str "a" ++ [nl; nl; nl] ++ str "b") eq_refl)).
  vm_compute. reflexivity.
Defined.

(** X8.  [fix_file] of fix-service-lazy-init.py never prints
    [No changes made]: it either prints one [Skipping] line and returns
    [False], or it writes the file, prints [Fixed] and returns [True]; it
    returns [True] exactly when the rewrite changes the content. *)
Theorem X8_lazy_fix_file_never_reports_no_changes
    (filepath : Host.path) (w : Host.world) (content : text) :
  Host.read_text filepath w = Some content ->
  exists flag w' msgs,
    LazyInit.fix_file filepath w = Some (flag, w') /\
    Host.stdout w' = Host.stdout w ++ msgs /\
    ~ In Host.NoChanges msgs /\
    (flag = false <->
     exists why, msgs = [Host.Skipping (Host.name filepath) why]) /\
    (flag = true <-> In Host.Fixed msgs) /\
    (flag = true <-> LazyInit.fix_text content <> content).
Proof.
  intros H.
  destruct (lazy_fix_file_cases filepath w content H)
    as [[Hfix [why E]] | [Hne [_ [vars E]]]].
  - exists false, (Host.print (Host.Skipping (Host.name filepath) why) w),
      [Host.Skipping (Host.name filepath) why].
    split; [exact E|]. split; [reflexivity|]. split.
    + intros [F|[]]. discriminate.
    + split; [split; eauto|]. split.
      * split; [discriminate|]. intros [F|[]]. discriminate.
      * split; [discriminate|]. intros F. contradiction.
  - eexists true, _,
      [Host.Processing (Host.name filepath); Host.Services vars; Host.Fixed].
    split; [exact E|]. split.
    + cbn [Host.print Host.write_text Host.stdout]. rewrite <- !app_assoc.
      reflexivity.
    + split.
      * intros [F|[F|[F|[]]]]; discriminate.
      * split; [split; [discriminate | intros [why F]; discriminate]|].
        split; [split; [intros _; cbn; auto | reflexivity]|].
        split; [intros _; exact Hne | reflexivity].
Qed.

Lemma X8_witness :
  exists flag w' msgs,
    LazyInit.fix_file Inputs.route_path Inputs.route_world = Some (flag, w') /\
    Host.stdout w' = Host.stdout Inputs.route_world ++ msgs /\
    ~ In Host.NoChanges msgs /\
    (flag = false <->
     exists why, msgs = [Host.Skipping (Host.name Inputs.route_path) why]) /\
    (flag = true <-> In Host.Fixed msgs) /\
    (flag = true <-> LazyInit.fix_text Inputs.example1 <> Inputs.example1).
Proof.
  apply (X8_lazy_fix_file_never_reports_no_changes Inputs.route_path
           Inputs.route_world Inputs.example1).
  vm_compute. reflexivity.
Defined.

(** X9.  A file that [fix_file] of fix-service-lazy-init.py has fixed is
    skipped by the next call: the output has the import from
    [@/lib/services] in it, and the call prints
    [Skipping ... (already uses @/lib/services)], returns [False] and
    writes nothing. *)
Theorem X9_lazy_fixed_file_is_skipped_next
    (filepath : Host.path) (w : Host.world) (content : text) :
  Host.read_text filepath w = Some content ->
  text_eqb (LazyInit.fix_text content) content = false ->
  exists w',
    LazyInit.fix_file filepath w = Some (true, w') /\
    Host.read_text filepath w' = Some (LazyInit.fix_text content) /\
    LazyInit.fix_file filepath w' =
    Some (false,
          Host.print
            (Host.Skipping (Host.name filepath)
               (str "already uses @/lib/services")) w').
Proof.
  intros H Hc. apply text_eqb_neq in Hc.
  destruct (lazy_fix_file_cases filepath w content H)
    as [[Hfix _] | [_ [Hout [vars E]]]]; [contradiction|].
  eexists. split; [exact E|].
  assert (Hread : Host.read_text filepath
            (Host.print Host.Fixed
               (Host.write_text filepath (LazyInit.fix_text content)
                  (Host.print (Host.Services vars)
                     (Host.print (Host.Processing (Host.name filepath)) w))))
            = Some (LazyInit.fix_text content)).
  { unfold Host.read_text, Host.print, Host.write_text. cbn [Host.files].
    rewrite text_eqb_refl. reflexivity. }
  split; [exact Hread|].
  apply (lazy_skips_output filepath _ _ Hread Hout).
Qed.

Lemma X9_witness :
  exists w',
    LazyInit.fix_file Inputs.route_path Inputs.route_world = Some (true, w') /\
    Host.read_text Inputs.route_path w'
      = Some (LazyInit.fix_text Inputs.example1) /\
    LazyInit.fix_file Inputs.route_path w' =
    Some (false,
          Host.print
            (Host.Skipping (Host.name Inputs.route_path)
               (str "already uses @/lib/services")) w').
Proof.
  apply (X9_lazy_fixed_file_is_skipped_next Inputs.route_path
           Inputs.route_world Inputs.example1);
    vm_compute; reflexivity.
Defined.

(** X10.  A file with an import-from clause naming [@prisma/client] that
    the guard lets through is fixed by [fix_file] of
    update-prisma-imports.py and skipped by the next call, which prints
    [Skipping ... (already uses @midcurve/database)]. *)
Theorem X10_prisma_fixed_clause_is_skipped_next
    (filepath : Host.path) (w : Host.world) (a b : text) (q1 q2 : ascii) :
  Host.read_text filepath w = Some (a ++ from_clause q1 q2 ++ b) ->
  Prisma.guard (a ++ from_clause q1 q2 ++ b) = false ->
  Prisma.quote q1 = true -> Prisma.quote q2 = true ->
  exists w',
    Prisma.fix_file filepath w = Some (true, w') /\
    Prisma.fix_file filepath w' =
    Some (false,
          Host.print
            (Host.Skipping (Host.name filepath)
               (str "already uses @midcurve/database")) w').
Proof.
  intros H Hg H1 H2.
  destruct (prisma_fixes_clause filepath w a b q1 q2 H Hg H1 H2) as [Hout E].
  eexists. split; [exact E|].
  apply (prisma_skips_output filepath _
           (Prisma.fix_text (a ++ from_clause q1 q2 ++ b))); [|exact Hout].
  unfold Host.read_text, Host.print, Host.write_text. cbn [Host.files].
  rewrite text_eqb_refl. reflexivity.
Qed.

Lemma X10_witness :
  exists w',
    Prisma.fix_file Inputs.client_path
      (Host.World (Run.tree Inputs.services_tree) []) = Some (true, w') /\
    Prisma.fix_file Inputs.client_path w' =
    Some (false,
          Host.print
            (Host.Skipping (Host.name Inputs.client_path)
               (str "already uses @midcurve/database")) w').
Proof.
  apply (X10_prisma_fixed_clause_is_skipped_next Inputs.client_path
           (Host.World (Run.tree Inputs.services_tree) [])
           (str "import { PrismaClient } ") (str ";" ++ [nl]) squote squote);
    vm_compute; reflexivity.
Defined.

(** X11.  The records of step 1: the recorded names are pairwise
    different and each is a non-empty run of word characters, which
    [re.escape] leaves as it is; looking a recorded name up gives its
    class; every recorded class is a key of [SERVICE_GETTERS], so the
    lookup of step 2 cannot raise, and its getter is marked as used; and
    [used_getters] is empty exactly when [var_to_service] is, so the test
    of step 5 never fails once step 1 has found something. *)
Theorem X11_records_of_step_1
    (content : text) (var_to_service : dict) (used_getters : list text) :
  LazyInit.extract content = (var_to_service, used_getters) ->
  NoDup (map fst var_to_service) /\
  NoDup used_getters /\
  (var_to_service = [] <-> used_getters = []) /\
  forall name cls,
    In (name, cls) var_to_service ->
    is_name name = true /\
    dict_get name var_to_service = Some cls /\
    exists getter,
      dict_get cls LazyInit.SERVICE_GETTERS = Some getter /\
      In getter used_getters.
Proof. apply extract_records. Qed.

Lemma X11_witness :
  NoDup (map fst [(str "svc", str "AuthNonceService")]) /\
  NoDup [str "getAuthUserService"; str "getAuthNonceService"] /\
  ([(str "svc", str "AuthNonceService")] = [] <->
   [str "getAuthUserService"; str "getAuthNonceService"] = []) /\
  forall name cls,
    In (name, cls) [(str "svc", str "AuthNonceService")] ->
    is_name name = true /\
    dict_get name [(str "svc", str "AuthNonceService")] = Some cls /\
    exists getter,
      dict_get cls LazyInit.SERVICE_GETTERS = Some getter /\
      In getter [str "getAuthUserService"; str "getAuthNonceService"].
Proof.
  apply (X11_records_of_step_1 Inputs.shadow_input).
  vm_compute. reflexivity.
Defined.

(** X12.  Step 4 leaves a text without ['@midcurve/services';] in it as it
    is, whatever the recorded classes; so does step 3 with a text without
    [new], or without [Service()]. *)
Theorem X12_steps_3_and_4_need_their_literals (content : text) :
  (contains (str "'@midcurve/services';") content = false ->
   forall services_to_remove,
     LazyInit.prune_imports services_to_remove content = content) /\
  (LazyInit.has_instantiation content = false ->
   LazyInit.remove_instantiations content = content).
Proof.
  split.
  - intros H svcs. unfold LazyInit.prune_imports.
    apply (needs_sub (str "'@midcurve/services';")); [reflexivity | exact H].
  - unfold LazyInit.has_instantiation, LazyInit.remove_instantiations.
    intros H. apply andb_false_iff in H. destruct H as [H|H].
    + apply (needs_sub (str "new")); [reflexivity | exact H].
    + apply (needs_sub (str "Service()")); [reflexivity | exact H].
Qed.

Lemma X12_witness :
  LazyInit.prune_imports [str "AuthUserService"]
    (str "import { AuthUserService } from '@midcurve/services'")
  = str "import { AuthUserService } from '@midcurve/services'" /\
  LazyInit.remove_instantiations (str "const auth = new AuthUserService ();")
  = str "const auth = new AuthUserService ();".
Proof.
  split.
  - apply (proj1 (X12_steps_3_and_4_need_their_literals
                    (str "import { AuthUserService } from '@midcurve/services'"))).
    vm_compute. reflexivity.
  - apply (proj2 (X12_steps_3_and_4_need_their_literals
                    (str "const auth = new AuthUserService ();"))).
    vm_compute. reflexivity.
Defined.

(** X13.  Step 2 leaves a text in which the recorded name is nowhere
    followed by a dot as it is. *)
Theorem X13_call_sites_need_the_name_and_a_dot
    (content name cls : text) :
  contains (name ++ str ".") content = false ->
  LazyInit.rewrite_calls content (name, cls) = content.
Proof.
  intros H. unfold LazyInit.rewrite_calls. cbn [fst snd].
  destruct (dict_get cls LazyInit.SERVICE_GETTERS); [|reflexivity].
  apply (needs_sub (name ++ str ".")); [apply call_needs | exact H].
Qed.

Lemma X13_witness :
  LazyInit.rewrite_calls (str "authorize(auth);")
    (str "auth", str "AuthUserService")
  = str "authorize(auth);".
Proof.
  apply (X13_call_sites_need_the_name_and_a_dot (str "authorize(auth);")
           (str "auth") (str "AuthUserService")).
  vm_compute. reflexivity.
Defined.

(** X14.  Step 3 on a text that begins with an instantiation statement
    [const NAME = new STEMService();], written with any white space: the
    pattern matches the statement with the name and the class as its
    groups, and the step removes it and goes on after it, whatever the
    class. *)
Theorem X14_every_instantiation_statement_goes
    (ws1 name ws2 ws3 ws4 stem rest : text) :
  is_gap ws1 = true -> is_name name = true ->
  forallb is_space ws2 = true -> forallb is_space ws3 = true ->
  is_gap ws4 = true -> is_name stem = true ->
  match_at LazyInit.inst_pattern None
    (instantiation ws1 name ws2 ws3 ws4 stem ++ rest)
  = Some ([name; stem ++ str "Service"], rest) /\
  LazyInit.remove_instantiations
    (instantiation ws1 name ws2 ws3 ws4 stem ++ rest)
  = LazyInit.remove_instantiations rest.
Proof.
  intros H1 Hn H2 H3 H4 Hs. split.
  - apply inst_match; assumption.
  - apply remove_statement; assumption.
Qed.

Lemma X14_witness :
  instantiation (str " ") (str "foo") (str " ") (str " ") (str " ") (str "Foo")
  = str "const foo = new FooService();" /\
  LazyInit.remove_instantiations
    (instantiation (str " ") (str "foo") (str " ") (str " ") (str " ")
       (str "Foo") ++ [nl] ++ str "foo.run();")
  = [nl] ++ str "foo.run();".
Proof.
  split; [reflexivity|].
  rewrite (proj2 (X14_every_instantiation_statement_goes
                    (str " ") (str "foo") (str " ") (str " ") (str " ")
                    (str "Foo") ([nl] ++ str "foo.run();")
                    eq_refl eq_refl eq_refl eq_refl eq_refl eq_refl)).
  vm_compute. reflexivity.
Defined.

(** X15.  After Pattern 1 no import-from clause naming [@prisma/client]
    is left, in either quoting style; and none is in the output of the
    rewrite of a text that the guard lets through and that has no require
    access. *)
Theorem X15_no_legacy_clause_is_left (x : text) (q1 q2 : ascii) :
  Prisma.quote q1 = true -> Prisma.quote q2 = true ->
  contains (from_clause q1 q2) (Prisma.replace_imports x) = false /\
  (Prisma.guard x = false -> Prisma.has_require x = false ->
   contains (from_clause q1 q2) (Prisma.fix_text x) = false).
Proof.
  intros H1 H2. split.
  - apply clause_gone; [apply from_gone | exact H1 | exact H2].
  - intros Hg Hr.
    apply clause_gone; [apply fix_text_no_clause | |]; assumption.
Qed.

Lemma X15_witness :
  contains (from_clause squote squote)
    (Prisma.replace_imports (Inputs.example3 ++ [nl])) = false /\
  contains (from_clause squote squote)
    (Prisma.fix_text (Inputs.example3 ++ [nl])) = false.
Proof.
  destruct (X15_no_legacy_clause_is_left (Inputs.example3 ++ [nl])
              squote squote eq_refl eq_refl) as [H1 H2].
  split; [exact H1|]. apply H2; vm_compute; reflexivity.
Defined.

(** X16.  The clean-up of both scripts does nothing the second time,
    leaves a text without three newlines in a row as it is, and neither
    removes nor creates an occurrence of a text that has no newline in
    it. *)
Theorem X16_clean_up (s : text) :
  LazyInit.squeeze (LazyInit.squeeze s) = LazyInit.squeeze s /\
  Prisma.squeeze (Prisma.squeeze s) = Prisma.squeeze s /\
  (contains triple s = false ->
   LazyInit.squeeze s = s /\ Prisma.squeeze s = s) /\
  (forall w,
     w <> [] -> newline_free w = true ->
     contains w (LazyInit.squeeze s) = contains w s /\
     contains w (Prisma.squeeze s) = contains w s).
Proof.
  rewrite squeeze_same. split; [apply squeeze_idem|].
  split; [apply squeeze_idem|]. split.
  - intros H. split; apply squeeze_fixed; exact H.
  - intros w Hw Hn. split; apply squeeze_contains; assumption.
Qed.

Lemma X16_witness :
  LazyInit.squeeze (str "a" ++ [nl; nl] ++ str "b")
  = str "a" ++ [nl; nl] ++ str "b".
Proof.
  apply (proj1 (proj1 (proj2 (proj2 (X16_clean_up
           (str "a" ++ [nl; nl] ++ str "b")))) eq_refl)).
Defined.
